(** * Trade strategy monitor: a shallow embedding of [monitor_trades.py]

    The monitor polls an append-only log, scans the newly appended window
    for fatal patterns, aggregates regular-expression counts into a nested
    snapshot, appends a Markdown section to a report file and stops the
    monitored server when a fatal pattern is seen.

    Python [str] values are lists of code points, [bytes] are lists of
    [byte]; the two Unicode tables the [re] module consults for code points
    above 127 are parameters of the development (class [UnicodeData]).
    Every interaction with the outside (log file, report file, clock,
    subprocesses, console, sleep) is explicit: the environment of one
    polling cycle is a record [CycleEnv], effects are recorded as a list of
    [event]s and exceptions are values of the result type [exec]. *)

From Stdlib Require Import List NArith Arith Bool Lia String Ascii.
From Stdlib Require Import Strings.Byte.
From Stdlib Require Import DecimalString.
Import ListNotations.

Set Implicit Arguments.

(** ** Text *)

(** A code point. *)
Definition char : Type := N.

(** A Python [str]. *)
Definition str : Type := list char.

(** An ASCII literal of the source as a [str]. *)
Definition lit (s : string) : str :=
  List.map N_of_ascii (list_ascii_of_string s).

(** ["\n"] *)
Definition nl : char := 10%N.

(** [str(n)] / [f"{n}"] for a non-negative [int]. *)
Definition str_of_nat (n : nat) : str :=
  lit (NilZero.string_of_uint (Nat.to_uint n)).

Fixpoint str_eqb (a b : str) : bool :=
  match a, b with
  | [], [] => true
  | x :: a', y :: b' => N.eqb x y && str_eqb a' b'
  | _, _ => false
  end.

(** ** The fragment of Python's [re] the monitor uses *)

(** Unicode character database: simple lowercase mapping and [str.isalnum],
    consulted only for code points above 127. *)
Class UnicodeData : Type := {
  unicode_tolower : char -> char;
  unicode_isalnum : char -> bool
}.

Module Re.

Section Engine.
Context {U : UnicodeData}.

Definition is_upper (c : char) : bool := (65 <=? c)%N && (c <=? 90)%N.
Definition is_lower (c : char) : bool := (97 <=? c)%N && (c <=? 122)%N.
Definition is_digit (c : char) : bool := (48 <=? c)%N && (c <=? 57)%N.

Definition ascii_lower (c : char) : char :=
  if is_upper c then (c + 32)%N else c.

(** [Py_UNICODE_TOLOWER], as used by [sre_lower_unicode]. *)
Definition sre_lower (c : char) : char :=
  if (c <? 128)%N then ascii_lower c else unicode_tolower c.

(** [Py_UNICODE_ISALNUM]. *)
Definition isalnum (c : char) : bool :=
  if (c <? 128)%N then is_digit c || is_upper c || is_lower c
  else unicode_isalnum c.

(** [_ignorecase_fixes] of [sre_compile], at the ASCII letters:
    i ~ U+0131 (dotless i), s ~ U+017F (long s). *)
Definition ignorecase_fixes (lo : char) : list char :=
  if (lo =? 105)%N then [305%N]
  else if (lo =? 115)%N then [383%N]
  else [].

(** One-character matchers. *)
Inductive cset : Type :=
| Chr (c : char)            (* a literal character *)
| ChrI (lo : char)          (* a cased literal under IGNORECASE, lowered *)
| Dot                       (* .   (no DOTALL: anything but a newline) *)
| Word                      (* \w *)
| OneOf (cs : list char).   (* [...] *)

Definition test (a : cset) (c : char) : bool :=
  match a with
  | Chr x => (c =? x)%N
  | ChrI lo =>
      let l := sre_lower c in
      (l =? lo)%N || existsb (N.eqb l) (ignorecase_fixes lo)
  | Dot => negb (c =? nl)%N
  | Word => isalnum c || (c =? 95)%N
  | OneOf cs => existsb (N.eqb c) cs
  end.

(** A pattern is a sequence of pieces; every pattern of the monitor is
    flat: quantifiers apply to single-character matchers only and groups
    are not nested inside quantifiers. *)
Inductive piece : Type :=
| One (a : cset)      (* a      *)
| Many0 (a : cset)    (* a*  greedy *)
| Many1 (a : cset)    (* a+  greedy *)
| GOpen               (* (   *)
| GClose.             (* )   *)

Definition regex : Type := list piece.

(** A match object: the matched text, the captured groups in order and
    the text after the match. *)
Record mres : Type := MRes {
  whole : str;
  groups : list str;
  rest : str
}.

(** Greedy repetition with backtracking: take as many characters as
    possible, give one back each time the continuation [k] fails. *)
Fixpoint greedy (p : char -> bool) (k : str -> str -> option mres)
    (acc s : str) : option mres :=
  match s with
  | c :: s' =>
      if p c then
        match greedy p k (c :: acc) s' with
        | Some m => Some m
        | None => k acc s
        end
      else k acc s
  | [] => k acc s
  end.

(** Match [r] at the start of [s]. [acc] is the text consumed so far,
    reversed; [opens] the lengths of [acc] at the open groups. *)
Fixpoint match_here (r : regex) (opens : list nat) (caps : list str)
    (acc s : str) : option mres :=
  match r with
  | [] => Some (MRes (rev acc) caps s)
  | One a :: r' =>
      match s with
      | c :: s' =>
          if test a c then match_here r' opens caps (c :: acc) s' else None
      | [] => None
      end
  | Many0 a :: r' => greedy (test a) (match_here r' opens caps) acc s
  | Many1 a :: r' =>
      match s with
      | c :: s' =>
          if test a c
          then greedy (test a) (match_here r' opens caps) (c :: acc) s'
          else None
      | [] => None
      end
  | GOpen :: r' => match_here r' (List.length acc :: opens) caps acc s
  | GClose :: r' =>
      match opens with
      | n :: opens' =>
          match_here r' opens'
            (caps ++ [rev (firstn (List.length acc - n) acc)]) acc s
      | [] => None
      end
  end.

(** [pattern.match(s)] *)
Definition match_at (r : regex) (s : str) : option mres :=
  match_here r [] [] [] s.

(** [re.search(r, s)]: the leftmost position at which [r] matches. *)
Fixpoint search (r : regex) (s : str) : option mres :=
  match match_at r s with
  | Some m => Some m
  | None =>
      match s with
      | [] => None
      | _ :: s' => search r s'
      end
  end.

(** [re.findall(r, s)]: scan left to right; after a match resume at its
    end (one further after an empty match). [skip] counts the characters
    of the last match still to be stepped over. *)
Fixpoint findall_from (r : regex) (skip : nat) (s : str) : list mres :=
  match skip with
  | S k =>
      match s with
      | [] => []
      | _ :: s' => findall_from r k s'
      end
  | O =>
      match match_at r s with
      | Some m =>
          m :: match s with
               | [] => []
               | _ :: s' => findall_from r (pred (List.length (whole m))) s'
               end
      | None =>
          match s with
          | [] => []
          | _ :: s' => findall_from r 0 s'
          end
      end
  end.

Definition findall (r : regex) (s : str) : list mres := findall_from r 0 s.

(** What [sre_compile] does to a literal under [re.IGNORECASE]: a cased
    character is replaced by the test on its lowercase. *)
Definition fold_case (a : cset) : cset :=
  match a with
  | Chr c => if is_upper c || is_lower c then ChrI (ascii_lower c) else Chr c
  | other => other
  end.

Definition ignorecase (r : regex) : regex :=
  List.map (fun p =>
              match p with
              | One a => One (fold_case a)
              | Many0 a => Many0 (fold_case a)
              | Many1 a => Many1 (fold_case a)
              | other => other
              end) r.

(** Pattern builders. *)
Definition text (s : str) : regex := List.map (fun c => One (Chr c)) s.
Definition t (s : string) : regex := text (lit s).
Definition ch (c : char) : regex := [One (Chr c)].
Definition dot_star : regex := [Many0 Dot].
Definition word_plus : regex := [Many1 Word].
Definition group (r : regex) : regex := GOpen :: r ++ [GClose].

End Engine.
End Re.

(** ** Non-ASCII characters of the source's literals *)
Module Emoji.
Definition rotating_light : char := 128680%N.   (* U+1F6A8 *)
Definition check_mark : char := 9989%N.         (* U+2705 *)
Definition cross_mark : char := 10060%N.        (* U+274C *)
Definition dart : char := 127919%N.             (* U+1F3AF *)
Definition rocket : char := 128640%N.           (* U+1F680 *)
Definition collision : char := 128165%N.        (* U+1F4A5 *)
Definition fire : char := 128293%N.             (* U+1F525 *)
Definition arrows : char := 128260%N.           (* U+1F504 *)
Definition alarm_clock : char := 9200%N.        (* U+23F0 *)
Definition package : char := 128230%N.          (* U+1F4E6 *)
Definition bar_chart : char := 128202%N.        (* U+1F4CA *)
Definition warning_sign : char := 9888%N.       (* U+26A0 *)
Definition variation_16 : char := 65039%N.      (* U+FE0F *)
Definition memo : char := 128221%N.             (* U+1F4DD *)
Definition stopwatch : char := 9201%N.          (* U+23F1 *)
Definition magnifier : char := 128269%N.        (* U+1F50D *)
Definition floppy : char := 128190%N.           (* U+1F4BE *)
Definition stop_sign : char := 128721%N.        (* U+1F6D1 *)
End Emoji.

(** ** Dictionaries with insertion order

    [dict], [defaultdict(int)] and [Counter] keep their keys in insertion
    order, and the report iterates over them: an association list. *)
Module Dict.

Definition dict : Type := list (str * nat).

Fixpoint get (k : str) (d : dict) : option nat :=
  match d with
  | [] => None
  | (k', v) :: d' => if str_eqb k k' then Some v else get k d'
  end.

(** [d[k] = v] *)
Fixpoint set (k : str) (v : nat) (d : dict) : dict :=
  match d with
  | [] => [(k, v)]
  | (k', v') :: d' =>
      if str_eqb k k' then (k, v) :: d' else (k', v') :: set k v d'
  end.

(** [d[k] += 1] on a [Counter] *)
Definition incr (k : str) (d : dict) : dict :=
  set k (S (match get k d with Some v => v | None => 0 end)) d.

(** [bool(d)] *)
Definition nonempty (d : dict) : bool :=
  match d with [] => false | _ :: _ => true end.

Fixpoint str_leb (a b : str) : bool :=
  match a, b with
  | [], _ => true
  | _ :: _, [] => false
  | x :: a', y :: b' => (x <? y)%N || ((x =? y)%N && str_leb a' b')
  end.

Fixpoint insert_sorted (e : str * nat) (d : dict) : dict :=
  match d with
  | [] => [e]
  | e' :: d' =>
      if str_leb (fst e) (fst e') then e :: d else e' :: insert_sorted e d'
  end.

(** [sorted(d.items())]; the keys of a dictionary are distinct, so the
    order is the order of the keys. *)
Definition sorted_items (d : dict) : dict :=
  fold_right insert_sorted [] d.

End Dict.

(** ** The monitor *)
Module Monitor.
Import Re.

(** *** Statistics model (the nested [dict]s built by [analyze_logs]) *)

(** [{'analyzed': _, 'detected': _, 'failed_filters': defaultdict(int)}] *)
Record FilterOutcome : Type := {
  analyzed : nat;
  detected : nat;
  failed_filters : Dict.dict
}.

Record CycleRiderStats : Type := {
  cr_total_scans : nat;
  distribution : FilterOutcome;
  squeeze : FilterOutcome;
  cr_signals_generated : nat
}.

Record FundingOutcome : Type := {
  fe_analyzed : nat;
  fe_detected : nat;
  extreme_zscore_bypass : nat;
  fe_failed_filters : Dict.dict
}.

Record HourSwingStats : Type := {
  hs_total_scans : nat;
  mtf_alignment : FilterOutcome;
  relative_strength : FilterOutcome;
  funding_extremes : FundingOutcome;
  hs_signals_generated : nat
}.

Record BoxRangeStats : Type := {
  br_total_scans : nat;
  boxes_detected : nat;
  box_grades : Dict.dict;
  entry_analyzed : nat;
  entry_generated : nat;
  br_failed_filters : Dict.dict;
  br_signals_generated : nat
}.

Record OrderStats : Type := {
  orders_placed : nat;
  orders_filled : nat;
  orders_cancelled : nat;
  positions_opened : nat;
  positions_closed : nat
}.

Record ErrorStats : Type := {
  error_count : nat;
  warning_count : nat;
  errors : list str;
  warnings : list str
}.

Record Stats : Type := {
  timestamp : str;
  cycle_rider : CycleRiderStats;
  hour_swing : HourSwingStats;
  box_range : BoxRangeStats;
  orders : OrderStats;
  errs : ErrorStats
}.

Section Analysis.
Context {U : UnicodeData}.

(** *** [check_for_errors] *)

(** A pattern of the source: its text as written and its compiled form. *)
Record pattern : Type := Pat { source : str; compiled : regex }.

Definition error_patterns : list pattern := [
  Pat (lit "ECONNREFUSED") (t "ECONNREFUSED");
  Pat (lit "Cannot connect to.*database")
      (t "Cannot connect to" ++ dot_star ++ t "database");
  Pat (lit "UnhandledPromiseRejectionWarning")
      (t "UnhandledPromiseRejectionWarning");
  Pat (lit "TypeError:") (t "TypeError:");
  Pat (lit "ReferenceError:") (t "ReferenceError:");
  Pat (lit "Fatal error") (t "Fatal error");
  Pat (lit "SIGTERM") (t "SIGTERM");
  Pat (lit "SIGKILL") (t "SIGKILL")
].

(** [re.search(pattern, content, re.IGNORECASE)] as a truth value. *)
Definition search_i (p : pattern) (content : str) : bool :=
  match search (ignorecase (compiled p)) content with
  | Some _ => true
  | None => false
  end.

(** The [for pattern in error_patterns] loop. *)
Fixpoint first_match (ps : list pattern) (content : str) : bool * option str :=
  match ps with
  | [] => (false, None)
  | p :: ps' =>
      if search_i p content then (true, Some (source p))
      else first_match ps' content
  end.

Definition check_for_errors (content : str) : bool * option str :=
  first_match error_patterns content.

(** *** Extractors *)

(** [len(re.findall(pattern, content))] *)
Definition count (r : regex) (content : str) : nat :=
  List.length (findall r content).

(** The loop
    [for pattern, name in table: count = len(re.findall(pattern, content));
     if count > 0: failed[name] = count]
    run on the dictionary [failed]. *)
Definition record_failures (table : list (regex * str)) (content : str)
    (failed : Dict.dict) : Dict.dict :=
  fold_left
    (fun d (e : regex * str) =>
       let n := count (fst e) content in
       if 0 <? n then Dict.set (snd e) n d else d)
    table failed.

(** [r'\[Tag\] (\w+) '] *)
Definition tagged (tag : string) : regex :=
  t "[" ++ t tag ++ t "] " ++ group word_plus ++ t " ".

Definition distribution_filters : list (regex * str) := [
  (t "Not in distribution (price not near POC)", lit "Not near POC");
  (t "Volume spike too strong", lit "Volume spike");
  (t "CVD slope too negative", lit "CVD negative");
  (t "No accumulation pattern", lit "No accumulation")
].

Definition squeeze_filters : list (regex * str) := [
  (t "Not in squeeze", lit "Not in squeeze");
  (t "No momentum divergence", lit "No divergence");
  (t "Histogram not bullish", lit "Histogram not bullish")
].

Definition analyze_cycle_rider (content : str) : CycleRiderStats :=
  let dist_analyzed :=
    findall (tagged "Distribution" ++ t "Starting analysis") content in
  let dist_detected :=
    findall (tagged "Distribution" ++ ch Emoji.dart ++ t " Distribution zone detected")
            content in
  let squeeze_analyzed :=
    findall (tagged "SqueezeMomentum" ++ t "Starting analysis") content in
  let squeeze_detected :=
    findall (tagged "SqueezeMomentum" ++ ch Emoji.check_mark ++ t " Squeeze detected")
            content in
  let signals :=
    findall (tagged "CycleRider" ++ ch Emoji.rocket ++ t " Cycle Rider signal")
            content in
  {| cr_total_scans := 0;
     distribution :=
       {| analyzed := List.length dist_analyzed;
          detected := List.length dist_detected;
          failed_filters := record_failures distribution_filters content [] |};
     squeeze :=
       {| analyzed := List.length squeeze_analyzed;
          detected := List.length squeeze_detected;
          failed_filters := record_failures squeeze_filters content [] |};
     cr_signals_generated := List.length signals |}.

Definition mtf_filters : list (regex * str) := [
  (t "1H analysis: valid=false", lit "1H trend invalid");
  (t "15M analysis: aligned=false", lit "15M not aligned");
  (t "strength=0.00", lit "Trend too weak")
].

Definition rs_filters : list (regex * str) := [
  (t "BTC bearish cross detected", lit "BTC bearish");
  (t "BTC bullish cross detected", lit "BTC bullish");
  (t "Altcoin weaker than BTC", lit "Weaker than BTC")
].

Definition fe_filters : list (regex * str) := [
  (t "Market structure break: broken=false", lit "Structure not broken");
  (t "Momentum slowing: false", lit "Momentum not slowing");
  (t "isExtreme=false", lit "Funding not extreme")
].

Definition analyze_hour_swing (content : str) : HourSwingStats :=
  let mtf_analyzed :=
    findall (tagged "MTF Alignment" ++ t "Checking alignment") content in
  let mtf_detected :=
    findall (tagged "MTF Alignment" ++ ch Emoji.check_mark ++ dot_star ++ t "aligned")
            content in
  let rs_analyzed :=
    findall (tagged "RelativeStrength" ++ t "Checking relative strength")
            content in
  let rs_detected :=
    findall (tagged "RelativeStrength" ++ ch Emoji.check_mark
               ++ t " Relative strength confirmed") content in
  let fe_analyzed_ :=
    findall (tagged "FundingExtremes" ++ t "Starting analysis") content in
  let fe_detected_ :=
    findall (tagged "FundingExtremes" ++ ch Emoji.collision
               ++ t " Extreme funding detected") content in
  let fe_extreme_bypass :=
    findall (tagged "FundingExtremes" ++ ch Emoji.fire
               ++ t " EXTREME zScore detected") content in
  let signals :=
    findall (tagged "HourSwing" ++ ch Emoji.dart ++ dot_star
               ++ t "signal generated") content in
  {| hs_total_scans := 0;
     mtf_alignment :=
       {| analyzed := List.length mtf_analyzed;
          detected := List.length mtf_detected;
          failed_filters := record_failures mtf_filters content [] |};
     relative_strength :=
       {| analyzed := List.length rs_analyzed;
          detected := List.length rs_detected;
          failed_filters := record_failures rs_filters content [] |};
     funding_extremes :=
       {| fe_analyzed := List.length fe_analyzed_;
          fe_detected := List.length fe_detected_;
          extreme_zscore_bypass := List.length fe_extreme_bypass;
          fe_failed_filters := record_failures fe_filters content [] |};
     hs_signals_generated := List.length signals |}.

Definition box_filters : list (regex * str) := [
  (t "Failed ATR filter", lit "ATR out of range");
  (t "1H ADX too high", lit "ADX too high");
  (t "Failed upper timeframe filter", lit "Upper TF failed");
  (t "Box invalidated by price breakout", lit "Box breakout");
  (t "Symbol disabled", lit "Symbol disabled")
].

(** [for symbol, grade in boxes: stats['box_grades'][grade] += 1] *)
Definition tally_grades (boxes : list mres) : Dict.dict :=
  fold_left (fun d m => Dict.incr (nth 1 (groups m) []) d) boxes [].

Definition analyze_box_range (content : str) : BoxRangeStats :=
  let boxes :=
    findall (tagged "BoxDetector" ++ ch Emoji.check_mark ++ t " Box detected! Grade="
               ++ group [One (OneOf (lit "ABC"))]) content in
  let entry_analyzed_ :=
    findall (tagged "BoxRangeSignal" ++ t "Starting box range analysis")
            content in
  let entry_generated_ :=
    findall (tagged "BoxRangeSignal" ++ ch Emoji.dart
               ++ t " Box Range signal generated") content in
  let signals :=
    findall (tagged "BoxRangeSignal" ++ ch Emoji.dart
               ++ t " Box Range signal generated") content in
  {| br_total_scans := 0;
     boxes_detected := List.length boxes;
     box_grades := tally_grades boxes;
     entry_analyzed := List.length entry_analyzed_;
     entry_generated := List.length entry_generated_;
     br_failed_filters := record_failures box_filters content [];
     br_signals_generated := List.length signals |}.

(** [r'<event>.*(\w+USDT)'] *)
Definition activity (event : string) : regex :=
  t event ++ dot_star ++ group (word_plus ++ t "USDT").

Definition analyze_orders (content : str) : OrderStats :=
  {| orders_placed := count (activity "Order placed") content;
     orders_filled := count (activity "Order filled") content;
     orders_cancelled := count (activity "Order cancelled") content;
     positions_opened := count (activity "Position opened") content;
     positions_closed := count (activity "Position closed") content |}.

Definition analyze_errors (content : str) : ErrorStats :=
  let error_lines :=
    List.map whole (findall (t "[31merror[39m" ++ dot_star) content) in
  let warn_lines :=
    List.map whole (findall (t "[33mwarn[39m" ++ dot_star) content) in
  {| error_count := List.length error_lines;
     warning_count := List.length warn_lines;
     errors := firstn 10 error_lines;
     warnings := firstn 10 warn_lines |}.

(** [now] is [datetime.now().strftime('%Y-%m-%d %H:%M:%S')]. *)
Definition analyze_logs (now : str) (content : str) : Stats :=
  {| timestamp := now;
     cycle_rider := analyze_cycle_rider content;
     hour_swing := analyze_hour_swing content;
     box_range := analyze_box_range content;
     orders := analyze_orders content;
     errs := analyze_errors content |}.

End Analysis.

(** *** Process state, environment and effects *)

(** The instance fields of [TradeMonitor]. *)
Record TradeMonitor : Type := {
  last_position : nat;
  iteration : nat
}.

(** [__init__] *)
Definition init : TradeMonitor := {| last_position := 0; iteration := 0 |}.

(** [CHECK_INTERVAL = 15 * 60] *)
Definition CHECK_INTERVAL : nat := 15 * 60.

Inductive method : Type :=
| m_stop_server | m_read_new_logs | m_check_for_errors
| m_analyze_logs | m_write_report.

(** What the process does to the outside, and which method it entered. *)
Inductive event : Type :=
| Call (m : method)
| Print (line : str)
| Subprocess (argv : list str)      (* subprocess.run(argv, check=False) *)
| Sleep (seconds : nat).            (* time.sleep(seconds) *)

Inductive exn : Type :=
| Exception (msg : str)             (* any subclass of Exception *)
| KeyboardInterrupt.

Inductive exec (A : Type) : Type :=
| Ret (a : A)
| Raise (e : exn).
Arguments Ret {A} a.
Arguments Raise {A} e.

(** The steps of [with open(LOG_FILE) as f: f.seek; f.read; f.tell]. *)
Inductive log_stage : Type := AtOpen | AtSeek | AtRead | AtTell | AtClose.

Definition log_stage_eqb (a b : log_stage) : bool :=
  match a, b with
  | AtOpen, AtOpen | AtSeek, AtSeek | AtRead, AtRead
  | AtTell, AtTell | AtClose, AtClose => true
  | _, _ => false
  end.

(** The log file as one call of [read_new_logs] finds it: its bytes and
    the step, if any, at which the operating system fails. *)
Record LogFile : Type := {
  log_bytes : list byte;
  log_raises : option (log_stage * str)
}.

(** Everything one polling cycle receives from outside. Each place of
    the source that calls [datetime.now()] has its own reading of the
    clock. Of the interrupts only the one that arrives during the sleep,
    where the process spends its time, is part of the environment. *)
Record CycleEnv : Type := {
  log : LogFile;
  clock : str;                            (* analyze_logs: strftime('%Y-%m-%d %H:%M:%S') *)
  clock_started : str;                    (* write_report, header: strftime('%Y-%m-%d %H:%M:%S') *)
  clock_hms : str;                        (* write_report, confirmation: strftime('%H:%M:%S') *)
  clock_stopping : str;                   (* stop_server, first line: strftime('%H:%M:%S') *)
  clock_stopped : str;                    (* stop_server, last line: strftime('%H:%M:%S') *)
  report_removed : bool;                  (* the report was deleted since the last cycle *)
  report_raises : option (nat * str);     (* the report-file operation that fails *)
  spawn_raises : list str -> option str;  (* subprocess.run cannot start argv *)
  interrupt : bool                        (* Ctrl-C arrives during the sleep *)
}.

(** The text layer of [open(..., 'r', encoding='utf-8', errors='ignore')]:
    decoding that drops invalid sequences, and newline translation.
    Reading no bytes gives the empty string. *)
Class Codec : Type := {
  decode : list byte -> str;
  decode_nil : decode [] = []
}.

(** The mutable world: the monitor object, the report file ([None] when
    the path does not exist), the countdown to the failing report-file
    operation, and the effects so far, oldest first. *)
Record World : Type := {
  self : TradeMonitor;
  report : option str;
  pending_fault : option (nat * str);
  trace : list event
}.

(** Computations: state passing with exceptions; what was done before an
    exception stays done. *)
Definition M (A : Type) : Type := World -> exec A * World.

Definition ret {A} (a : A) : M A := fun w => (Ret a, w).

Definition bind {A B} (c : M A) (k : A -> M B) : M B :=
  fun w =>
    match c w with
    | (Ret a, w') => k a w'
    | (Raise e, w') => (Raise e, w')
    end.

Definition raise {A} (e : exn) : M A := fun w => (Raise e, w).

(** [try: c  except Exception as e: h(e)] *)
Definition try_except {A} (c : M A) (h : str -> M A) : M A :=
  fun w =>
    match c w with
    | (Raise (Exception msg), w') => h msg w'
    | other => other
    end.

(** [try: c  except KeyboardInterrupt: hk  except Exception as e: h(e)] *)
Definition try_except2 {A} (c : M A) (hk : M A) (h : str -> M A) : M A :=
  fun w =>
    match c w with
    | (Raise KeyboardInterrupt, w') => hk w'
    | (Raise (Exception msg), w') => h msg w'
    | other => other
    end.

(** [with ... : body], [close] being the release of the resource: it runs
    whether or not [body] raised. *)
Definition with_close {A} (body : M A) (close : M unit) : M A :=
  fun w =>
    match body w with
    | (Ret a, w') =>
        match close w' with
        | (Ret _, w'') => (Ret a, w'')
        | (Raise e, w'') => (Raise e, w'')
        end
    | (Raise e, w') =>
        match close w' with
        | (Ret _, w'') => (Raise e, w'')
        | (Raise e', w'') => (Raise e', w'')
        end
    end.

Declare Scope monitor_scope.
Delimit Scope monitor_scope with monitor.
Notation "x <- c ;; k" := (bind c (fun x => k))
  (at level 100, c at next level, right associativity) : monitor_scope.
Notation "c ;; k" := (bind c (fun _ => k))
  (at level 100, right associativity) : monitor_scope.
Local Open Scope monitor_scope.

Definition emit (e : event) : M unit :=
  fun w => (Ret tt, {| self := self w; report := report w;
                       pending_fault := pending_fault w;
                       trace := trace w ++ [e] |}).

Definition call (m : method) : M unit := emit (Call m).

(** [print(line)]. The console is taken to be writable: a [print] that
    raises (a closed pipe, an encoding that lacks the emoji) is outside
    the embedding, and no statement below speaks of it. *)
Definition print (line : str) : M unit := emit (Print line).

Definition get_self : M TradeMonitor := fun w => (Ret (self w), w).

Definition set_self (s : TradeMonitor) : M unit :=
  fun w => (Ret tt, {| self := s; report := report w;
                       pending_fault := pending_fault w;
                       trace := trace w |}).

(** [time.sleep(seconds)]. A Ctrl-C that arrives elsewhere than in the
    sleep (in a read, in a subprocess, in a handler) is outside the
    embedding. *)
Definition sleep (env : CycleEnv) (seconds : nat) : M unit :=
  emit (Sleep seconds) ;;
  if interrupt env then raise KeyboardInterrupt else ret tt.

(** [subprocess.run(argv, ..., check=False)]: the exit status is ignored;
    only a program that cannot be started raises. *)
Definition subprocess_run (env : CycleEnv) (argv : list str) : M unit :=
  emit (Subprocess argv) ;;
  match spawn_raises env argv with
  | Some msg => raise (Exception msg)
  | None => ret tt
  end.

(** "[HH:MM:SS] " *)
Definition stamp (hms : str) : str := lit "[" ++ hms ++ lit "] ".

(** *** [stop_server] *)
Definition stop_server (env : CycleEnv) : M unit :=
  call m_stop_server ;;
  print (Emoji.rotating_light :: lit " " ++ stamp (clock_stopping env)
           ++ lit "STOPPING SERVER DUE TO ERROR...") ;;
  subprocess_run env [lit "pkill"; lit "-f"; lit "node.*dual-strategy"] ;;
  subprocess_run env [lit "lsof"; lit "-ti:3031"] ;;
  print (Emoji.check_mark :: lit " " ++ stamp (clock_stopped env)
           ++ lit "Server stopped").

Section Reader.
Context {C : Codec}.

(** One step of the file protocol on the log: raises where the
    environment says the operating system fails. *)
Definition log_step (f : LogFile) (st : log_stage) : M unit :=
  match log_raises f with
  | Some (st', msg) =>
      if log_stage_eqb st st' then raise (Exception msg) else ret tt
  | None => ret tt
  end.

(** *** [read_new_logs]

    [f.seek(p); f.read()] returns the decoded bytes from offset [p] to the
    end of the file (nothing when [p] is at or past the end) and leaves
    the position [p] plus the number of bytes read; [f.tell()] returns it. *)
Definition read_new_logs (env : CycleEnv) : M str :=
  let f := log env in
  call m_read_new_logs ;;
  try_except
    (log_step f AtOpen ;;
     with_close
       (s <- get_self ;;
        log_step f AtSeek ;;
        log_step f AtRead ;;
        let new_bytes := skipn (last_position s) (log_bytes f) in
        let new_content := decode new_bytes in
        log_step f AtTell ;;
        set_self {| last_position := last_position s + List.length new_bytes;
                    iteration := iteration s |} ;;
        ret new_content)
       (log_step f AtClose))
    (fun e =>
       print (Emoji.cross_mark :: lit " Error reading log: " ++ e) ;;
       ret []).

End Reader.

(** *** The report file *)

(** The text of a file that may not exist. *)
Definition contents (r : option str) : str :=
  match r with Some c => c | None => [] end.

(** One operation on the report file: it raises when the countdown of the
    environment's fault reaches it, and acts on the file otherwise. *)
Definition report_op (f : option str -> option str) : M unit :=
  fun w =>
    match pending_fault w with
    | Some (0, msg) => (Raise (Exception msg), w)
    | Some (S n, msg) =>
        (Ret tt, {| self := self w; report := f (report w);
                    pending_fault := Some (n, msg); trace := trace w |})
    | None =>
        (Ret tt, {| self := self w; report := f (report w);
                    pending_fault := None; trace := trace w |})
    end.

(** [open(REPORT_FILE, 'w')]: create or truncate. *)
Definition open_w : M unit := report_op (fun _ => Some []).
(** [open(REPORT_FILE, 'a')]: create if missing. *)
Definition open_a : M unit := report_op (fun r => Some (contents r)).
(** [f.write(s)] *)
Definition write (s : str) : M unit :=
  report_op (fun r => Some (contents r ++ s)).
(** leaving the [with] block *)
Definition close : M unit := report_op (fun r => r).

Fixpoint write_all (chunks : list str) : M unit :=
  match chunks with
  | [] => ret tt
  | c :: chunks' => write c ;; write_all chunks'
  end.

(** [os.path.exists(REPORT_FILE)] *)
Definition report_exists : M bool :=
  fun w => (Ret (match report w with Some _ => true | None => false end), w).

Definition arm_fault (f : option (nat * str)) : M unit :=
  fun w => (Ret tt, {| self := self w; report := report w;
                       pending_fault := f; trace := trace w |}).

(** *** [write_report]: the text *)

Definition line (s : str) : str := s ++ [nl].

(** The three [f.write] calls of the header block. *)
Definition header (now : str) : list str := [
  line (line (lit "# Trading Strategy Monitor Report"));
  line (line (lit "Started: " ++ now));
  line (line (lit "---"))
].

(** [if d: f.write("  - Failed filters:\n"); for name, count in d.items(): ...] *)
Definition failed_block (d : Dict.dict) : list str :=
  if Dict.nonempty d then
    line (lit "  - Failed filters:")
      :: List.map (fun e : str * nat =>
                     line (lit "    - " ++ fst e ++ lit ": " ++ str_of_nat (snd e)))
                  d
  else [].

Definition ratio (d a : nat) : str := str_of_nat d ++ lit "/" ++ str_of_nat a.

Definition cycle_rider_block (cr : CycleRiderStats) : list str :=
  [line (line (lit "### " ++ [Emoji.arrows] ++ lit " Cycle Rider Strategy"));
   line (lit "- **Distribution**: "
           ++ ratio (detected (distribution cr)) (analyzed (distribution cr))
           ++ lit " detected")]
  ++ failed_block (failed_filters (distribution cr))
  ++ [line (lit "- **Squeeze Momentum**: "
              ++ ratio (detected (squeeze cr)) (analyzed (squeeze cr))
              ++ lit " detected")]
  ++ failed_block (failed_filters (squeeze cr))
  ++ [line (line (lit "- **Signals Generated**: "
                    ++ str_of_nat (cr_signals_generated cr)))].

Definition hour_swing_block (hs : HourSwingStats) : list str :=
  [line (line (lit "### " ++ [Emoji.alarm_clock] ++ lit " Hour Swing Strategy"));
   line (lit "- **MTF Alignment**: "
           ++ ratio (detected (mtf_alignment hs)) (analyzed (mtf_alignment hs))
           ++ lit " aligned")]
  ++ failed_block (failed_filters (mtf_alignment hs))
  ++ [line (lit "- **Relative Strength**: "
              ++ ratio (detected (relative_strength hs))
                       (analyzed (relative_strength hs))
              ++ lit " confirmed")]
  ++ failed_block (failed_filters (relative_strength hs))
  ++ [line (lit "- **Funding Extremes**: "
              ++ ratio (fe_detected (funding_extremes hs))
                       (fe_analyzed (funding_extremes hs))
              ++ lit " extreme detected");
      line (lit "  - " ++ [Emoji.fire] ++ lit " Extreme zScore bypass: "
              ++ str_of_nat (extreme_zscore_bypass (funding_extremes hs)))]
  ++ failed_block (fe_failed_filters (funding_extremes hs))
  ++ [line (line (lit "- **Signals Generated**: "
                    ++ str_of_nat (hs_signals_generated hs)))].

Definition grades_block (d : Dict.dict) : list str :=
  if Dict.nonempty d then
    line (lit "  - Grades:")
      :: List.map (fun e : str * nat =>
                     line (lit "    - Grade " ++ fst e ++ lit ": "
                             ++ str_of_nat (snd e)))
                  (Dict.sorted_items d)
  else [].

Definition box_range_block (br : BoxRangeStats) : list str :=
  [line (line (lit "### " ++ [Emoji.package] ++ lit " Box Range Strategy"));
   line (lit "- **Boxes Detected**: " ++ str_of_nat (boxes_detected br))]
  ++ grades_block (box_grades br)
  ++ [line (lit "- **Entry Analysis**: "
              ++ ratio (entry_generated br) (entry_analyzed br)
              ++ lit " signals")]
  ++ failed_block (br_failed_filters br)
  ++ [line (line (lit "- **Signals Generated**: "
                    ++ str_of_nat (br_signals_generated br)))].

(** The "Trading Activity" block. *)
Definition orders_block (o : OrderStats) : list str := [
  line (line (lit "### " ++ [Emoji.bar_chart] ++ lit " Trading Activity"));
  line (lit "- Orders Placed: " ++ str_of_nat (orders_placed o));
  line (lit "- Orders Filled: " ++ str_of_nat (orders_filled o));
  line (lit "- Positions Opened: " ++ str_of_nat (positions_opened o));
  line (line (lit "- Positions Closed: " ++ str_of_nat (positions_closed o)))
].

Definition errors_block (e : ErrorStats) : list str :=
  if (0 <? error_count e) || (0 <? warning_count e) then
    [line (line (lit "### " ++ [Emoji.warning_sign; Emoji.variation_16]
                   ++ lit " Errors & Warnings"));
     line (lit "- Errors: " ++ str_of_nat (error_count e));
     line (lit "- Warnings: " ++ str_of_nat (warning_count e))]
    ++ match errors e with
       | [] => []
       | _ :: _ =>
           (nl :: line (lit "Recent errors:"))
             :: List.map (fun err => line (lit "```") ++ line err
                                       ++ line (lit "```"))
                         (firstn 5 (errors e))
       end
    ++ [[nl]]
  else [].

(** The [f.write] calls of one section, [it] being [self.iteration]. *)
Definition section (it : nat) (stats : Stats) : list str :=
  [line (line (lit "## Scan #" ++ str_of_nat (it + 1) ++ lit " - "
                 ++ timestamp stats))]
  ++ cycle_rider_block (cycle_rider stats)
  ++ hour_swing_block (hour_swing stats)
  ++ box_range_block (box_range stats)
  ++ orders_block (orders stats)
  ++ errors_block (errs stats)
  ++ [line (line (lit "---"))].

(** *** [write_report] *)
Definition write_report (env : CycleEnv) (stats : Stats) : M unit :=
  call m_write_report ;;
  arm_fault (report_raises env) ;;
  try_except
    (s <- get_self ;;
     present <- report_exists ;;
     (if (iteration s =? 0) || negb present then
        open_w ;;
        with_close (write_all (header (clock_started env))) close
      else ret tt) ;;
     open_a ;;
     with_close (write_all (section (iteration s) stats)) close ;;
     print (Emoji.check_mark :: lit " " ++ stamp (clock_hms env)
              ++ lit "Report updated: Scan #" ++ str_of_nat (iteration s + 1)))
    (fun e =>
       print (Emoji.cross_mark :: lit " Error writing report: " ++ e)).

(** *** [run] *)

(** [REPORT_FILE] *)
Definition REPORT_FILE : str :=
  lit "/Users/jongkwankim/my-work/working/TRADE_MONITOR_REPORT.md".

Section Driver.
Context {U : UnicodeData} {C : Codec}.

(** The body of the [try] inside [while True]; the result tells whether
    the loop was left by [break]. *)
Definition cycle_body (env : CycleEnv) : M bool :=
  content <- read_new_logs env ;;
  match content with
  | _ :: _ =>
      call m_check_for_errors ;;
      let (has_error, error_pattern) := check_for_errors content in
      if has_error then
        print (nl :: Emoji.cross_mark :: lit " CRITICAL ERROR DETECTED: "
                 ++ match error_pattern with Some p => p | None => lit "None" end) ;;
        stop_server env ;;
        print (Emoji.floppy :: lit " Final report saved to: " ++ REPORT_FILE) ;;
        ret true
      else
        call m_analyze_logs ;;
        let stats := analyze_logs (clock env) content in
        write_report env stats ;;
        s <- get_self ;;
        set_self {| last_position := last_position s;
                    iteration := iteration s + 1 |} ;;
        sleep env CHECK_INTERVAL ;;
        ret false
  | [] =>
      sleep env CHECK_INTERVAL ;;
      ret false
  end.

(** One turn of the loop with its two handlers. *)
Definition cycle (env : CycleEnv) : M bool :=
  try_except2 (cycle_body env)
    (print (nl :: nl :: Emoji.stop_sign :: lit " Monitor stopped by user") ;;
     print (Emoji.floppy :: lit " Report saved to: " ++ REPORT_FILE) ;;
     ret true)
    (fun e =>
       print (nl :: Emoji.cross_mark :: lit " Unexpected error: " ++ e) ;;
       stop_server env ;;
       ret true).

(** What happened to the report file outside the process since the last
    cycle. *)
Definition outside (env : CycleEnv) : M unit :=
  fun w =>
    (Ret tt, {| self := self w;
                report := if report_removed env then None else report w;
                pending_fault := pending_fault w; trace := trace w |}).

(** How far the loop got on the cycles it was given. *)
Inductive status : Type :=
| Running     (* still in [while True] *)
| Stopped.    (* left by [break] *)

(** [while True] over the environments of the successive cycles. An
    exception that escapes a handler ends [run] as [Raise]. *)
Fixpoint loop (envs : list CycleEnv) : M status :=
  match envs with
  | [] => ret Running
  | env :: envs' =>
      outside env ;;
      stop <- cycle env ;;
      if stop then ret Stopped else loop envs'
  end.

Definition run (start : str) (envs : list CycleEnv) : M status :=
  print (Emoji.rocket :: lit " Trade Monitor started at " ++ start) ;;
  print (Emoji.memo :: lit " Report file: " ++ REPORT_FILE) ;;
  print (Emoji.stopwatch :: Emoji.variation_16 :: lit "  Check interval: "
           ++ str_of_nat (CHECK_INTERVAL / 60) ++ lit " minutes") ;;
  print (Emoji.magnifier
           :: line (lit " Monitoring for errors and generating statistics...")) ;;
  loop envs.

(** The world at process start: [monitor = TradeMonitor()], with whatever
    report file is on disk. *)
Definition boot (r : option str) : World :=
  {| self := init; report := r; pending_fault := None; trace := [] |}.

End Driver.
End Monitor.

(** ** Concrete runtimes, for running the model on ASCII logs *)
Module Ascii.

(** Unicode tables for texts whose code points are all below 128: there
    they are never consulted. *)
Definition tables : UnicodeData :=
  {| unicode_tolower := fun c => c; unicode_isalnum := fun _ => false |}.

(** Universal newlines: CR LF and a lone CR are read as LF. *)
Fixpoint newlines (s : str) : str :=
  match s with
  | [] => []
  | c :: s' =>
      if (c =? 13)%N then
        match s' with
        | d :: s'' => if (d =? 10)%N then nl :: newlines s'' else nl :: newlines s'
        | [] => [nl]
        end
      else c :: newlines s'
  end.

(** Bytes below 128 are their own code points; the others are dropped. *)
Definition decode_ascii (bs : list byte) : str :=
  newlines (filter (fun c => (c <? 128)%N) (List.map Byte.to_N bs)).

Definition codec : Monitor.Codec :=
  {| Monitor.decode := decode_ascii; Monitor.decode_nil := eq_refl |}.

(** The bytes of an ASCII literal. *)
Definition bytes (s : string) : list byte :=
  List.map byte_of_ascii (list_ascii_of_string s).

(** A cycle environment in which nothing fails. *)
Definition quiet_env (log_text : string) : Monitor.CycleEnv :=
  {| Monitor.log := {| Monitor.log_bytes := bytes log_text;
                       Monitor.log_raises := None |};
     Monitor.clock := lit "2025-01-01 09:00:00";
     Monitor.clock_started := lit "2025-01-01 09:00:01";
     Monitor.clock_hms := lit "09:00:00";
     Monitor.clock_stopping := lit "09:00:02";
     Monitor.clock_stopped := lit "09:00:03";
     Monitor.report_removed := false;
     Monitor.report_raises := None;
     Monitor.spawn_raises := fun _ => None;
     Monitor.interrupt := false |}.

End Ascii.

(** ** Vocabulary of the properties *)
Module Spec.
Import Re Monitor.

(** The text a pattern made of literal characters stands for. *)
Definition trigger (r : regex) : str :=
  flat_map (fun pc => match pc with One (Chr c) => [c] | _ => [] end) r.

(** [p] occurs in [w] at offset [i]. *)
Definition occurs_at (p w : str) (i : nat) : Prop :=
  firstn (List.length p) (skipn i w) = p.

(** [ps] lists, left to right, offsets not before [from] of occurrences of
    [p] in [w] no two of which overlap. *)
Fixpoint disjoint_occurrences (p w : str) (from : nat) (ps : list nat) : Prop :=
  match ps with
  | [] => True
  | i :: ps' =>
      from <= i /\ occurs_at p w i
      /\ disjoint_occurrences p w (i + List.length p) ps'
  end.

(** [w] contains exactly [k] non-overlapping occurrences of [p]: [k] can be
    chosen and no more. *)
Definition has_exactly (k : nat) (p w : str) : Prop :=
  (exists ps, disjoint_occurrences p w 0 ps /\ List.length ps = k)
  /\ (forall ps, disjoint_occurrences p w 0 ps -> List.length ps <= k).

(** The failure-filter tables of the three strategy extractors, each with
    the place of its failure map in the snapshot. *)
Definition failure_extractors
  : list (list (regex * str) * (Stats -> Dict.dict)) := [
  (distribution_filters, fun s => failed_filters (distribution (cycle_rider s)));
  (squeeze_filters, fun s => failed_filters (squeeze (cycle_rider s)));
  (mtf_filters, fun s => failed_filters (mtf_alignment (hour_swing s)));
  (rs_filters, fun s => failed_filters (relative_strength (hour_swing s)));
  (fe_filters, fun s => fe_failed_filters (funding_extremes (hour_swing s)));
  (box_filters, fun s => br_failed_filters (box_range s))
].

(** The window character [c] is the pattern character [x] up to case, as
    [re.IGNORECASE] compares a [str]: a letter of the pattern stands for
    every character with the same lowercase (and [i] also for the dotless
    i, [s] also for the long s); any other character of the pattern
    stands for itself. *)
Definition nocase {U : UnicodeData} (x c : char) : bool :=
  if is_upper x || is_lower x then
    let l := sre_lower c in
    (l =? ascii_lower x)%N
    || ((ascii_lower x =? 105)%N && (l =? 305)%N)
    || ((ascii_lower x =? 115)%N && (l =? 383)%N)
  else (c =? x)%N.

(** The text [v] is the text [p] up to case, character by character. *)
Fixpoint nocase_text {U : UnicodeData} (p v : str) : bool :=
  match p, v with
  | [], [] => true
  | x :: p', c :: v' => nocase x c && nocase_text p' v'
  | _, _ => false
  end.

(** What a fatal pattern looks for: a text, or two texts on one line. *)
Inductive shape : Type :=
| Literal (s : str)
| Gap (first second : str).

(** The shape occurs in the window. *)
Definition occurs {U : UnicodeData} (sh : shape) (content : str) : Prop :=
  match sh with
  | Literal s =>
      exists pre v post,
        content = pre ++ v ++ post /\ nocase_text s v = true
  | Gap a b =>
      exists pre v mid v' post,
        content = pre ++ v ++ mid ++ v' ++ post
        /\ nocase_text a v = true
        /\ ~ In nl mid
        /\ nocase_text b v' = true
  end.

(** The fatal patterns as the source lists them, each with what it looks
    for in the window. *)
Definition fatal_shapes : list (str * shape) := [
  (lit "ECONNREFUSED", Literal (lit "ECONNREFUSED"));
  (lit "Cannot connect to.*database",
   Gap (lit "Cannot connect to") (lit "database"));
  (lit "UnhandledPromiseRejectionWarning",
   Literal (lit "UnhandledPromiseRejectionWarning"));
  (lit "TypeError:", Literal (lit "TypeError:"));
  (lit "ReferenceError:", Literal (lit "ReferenceError:"));
  (lit "Fatal error", Literal (lit "Fatal error"));
  (lit "SIGTERM", Literal (lit "SIGTERM"));
  (lit "SIGKILL", Literal (lit "SIGKILL"))
].

(** The number of operations on the report file in a call of
    [write_report] in which none fails: [open(.., 'w')], three writes and
    the close of the header block when the block is due, then
    [open(.., 'a')], one write per chunk of the section and the close. *)
Definition file_operations (w : World) (stats : Stats) : nat :=
  (if (iteration (self w) =? 0)
      || match report w with Some _ => false | None => true end
   then 1 + (3 + 1) else 0)
  + (1 + (List.length (section (iteration (self w)) stats) + 1)).

(** Two texts that differ at most in the case of ASCII letters. *)
Definition same_modulo_case (a b : str) : Prop :=
  List.map ascii_lower a = List.map ascii_lower b.

(** What a computation added to the trace. *)
Definition events_of {A} (c : M A) (w : World) : list event :=
  skipn (List.length (trace w)) (trace (snd (c w))).

Definition method_eqb (a b : method) : bool :=
  match a, b with
  | m_stop_server, m_stop_server
  | m_read_new_logs, m_read_new_logs
  | m_check_for_errors, m_check_for_errors
  | m_analyze_logs, m_analyze_logs
  | m_write_report, m_write_report => true
  | _, _ => false
  end.

(** [e] is the entry into method [m]. *)
Definition is_call (m : method) (e : event) : bool :=
  match e with
  | Call m' => method_eqb m m'
  | _ => false
  end.

(** How many times method [m] was entered. *)
Definition calls (m : method) (evs : list event) : nat :=
  List.length (filter (is_call m) evs).

(** The subprocesses started, in order. *)
Definition spawned (evs : list event) : list (list str) :=
  flat_map (fun e => match e with Subprocess argv => [argv] | _ => [] end) evs.

(** Every entry into [analyze_logs] comes after an entry into
    [check_for_errors]; [seen] tells whether one was met already. *)
Fixpoint scan_first (seen : bool) (evs : list event) : bool :=
  match evs with
  | [] => true
  | Call m_check_for_errors :: evs' => scan_first true evs'
  | Call m_analyze_logs :: evs' => seen && scan_first seen evs'
  | _ :: evs' => scan_first seen evs'
  end.

(** The whole text written by a list of [f.write] calls. *)
Definition written (chunks : list str) : str := List.concat chunks.

(** The header block as the file holds it: the title, the start time and
    the separator, each followed by an empty line. *)
Definition title : str := lit "# Trading Strategy Monitor Report".

Definition header_block (started : str) : str :=
  title ++ [nl; nl]
  ++ lit "Started: " ++ started ++ [nl; nl]
  ++ lit "---" ++ [nl; nl].






(** The snapshot with another count of cancelled orders. *)
Definition with_cancelled (n : nat) (s : Stats) : Stats :=
  {| timestamp := timestamp s;
     cycle_rider := cycle_rider s;
     hour_swing := hour_swing s;
     box_range := box_range s;
     orders := {| orders_placed := orders_placed (orders s);
                  orders_filled := orders_filled (orders s);
                  orders_cancelled := n;
                  positions_opened := positions_opened (orders s);
                  positions_closed := positions_closed (orders s) |};
     errs := errs s |}.

End Spec.

(** ** Concrete inputs *)
Module Sample.
Import Monitor.

(** A log of one line. *)
Definition one_line_log : string := "Failed ATR filter on BTCUSDT".

(** A window with three rejections of the distribution filter. *)
Definition three_rejections : str :=
  line (lit "Not in distribution (price not near POC)")
  ++ line (lit "Not in distribution (price not near POC)")
  ++ line (lit "Not in distribution (price not near POC)").

(** A window with one analysis and one detection of the distribution
    sub-strategy. *)
Definition one_detection : str :=
  line (lit "[Distribution] BTCUSDT Starting analysis")
  ++ line (lit "[Distribution] BTCUSDT " ++ [Emoji.dart]
             ++ lit " Distribution zone detected").

(** The failure map of the distribution sub-strategy. *)
Definition distribution_map (s : Stats) : Dict.dict :=
  failed_filters (distribution (cycle_rider s)).

(** A window in which the last pattern of the list occurs before the
    first one, both in lower case. *)
Definition two_fatal : str := lit "sigkill sent after econnrefused".

(** A log whose only line is fatal. *)
Definition fatal_log : string := "connect ECONNREFUSED 127.0.0.1:5432".

(** The log cannot be opened. *)
Definition unreadable_env : CycleEnv :=
  {| log := {| log_bytes := Ascii.bytes one_line_log;
               log_raises := Some (AtOpen, lit "Permission denied") |};
     clock := lit "2025-01-01 09:00:00";
     clock_started := lit "2025-01-01 09:00:01";
     clock_hms := lit "09:00:00";
     clock_stopping := lit "09:00:02";
     clock_stopped := lit "09:00:03";
     report_removed := false;
     report_raises := None;
     spawn_raises := fun _ => None;
     interrupt := false |}.

(** The report cannot be opened. *)
Definition unwritable_env : CycleEnv :=
  {| log := {| log_bytes := Ascii.bytes one_line_log; log_raises := None |};
     clock := lit "2025-01-01 09:00:00";
     clock_started := lit "2025-01-01 09:00:01";
     clock_hms := lit "09:00:00";
     clock_stopping := lit "09:00:02";
     clock_stopped := lit "09:00:03";
     report_removed := false;
     report_raises := Some (0, lit "Permission denied");
     spawn_raises := fun _ => None;
     interrupt := false |}.


(** The log has grown by [" and ETHUSDT"] and nothing fails. *)
Definition grown_env : CycleEnv :=
  Ascii.quiet_env "Failed ATR filter on BTCUSDT and ETHUSDT".

(** A monitor that has processed two windows and whose report exists. *)
Definition third_cycle : World :=
  {| self := {| last_position := 0; iteration := 2 |};
     report := Some (lit "earlier sections");
     pending_fault := None;
     trace := [] |}.

End Sample.

(** ** Auxiliary definitions of the proofs *)
Module Aux.
Import Re.

(** [s] without its prefix [p], if it has it. *)
Fixpoint strip_prefix (p s : str) : option str :=
  match p with
  | [] => Some s
  | c :: p' =>
      match s with
      | d :: s' => if (d =? c)%N then strip_prefix p' s' else None
      | [] => None
      end
  end.

(** Stripping a text up to case from the start of [s]: the characters
    taken and what is left. *)
Fixpoint strip_nocase {U : UnicodeData} (p s : str) : option (str * str) :=
  match p with
  | [] => Some ([], s)
  | x :: p' =>
      match s with
      | c :: s' =>
          if Spec.nocase x c then
            match strip_nocase p' s' with
            | Some (v, r) => Some (c :: v, r)
            | None => None
            end
          else None
      | [] => None
      end
  end.

(** A match object with its texts in lower case. *)
Definition lower_res (m : mres) : mres :=
  MRes (List.map ascii_lower (whole m))
       (List.map (List.map ascii_lower) (groups m))
       (List.map ascii_lower (rest m)).

(** One-character matchers that cannot tell the case of an ASCII letter. *)
Definition blind (a : cset) : bool :=
  match a with
  | Chr c => negb (is_upper c || is_lower c)
  | ChrI _ | Dot | Word => true
  | OneOf _ => false
  end.

Definition blind_piece (p : piece) : bool :=
  match p with
  | One a | Many0 a | Many1 a => blind a
  | GOpen | GClose => true
  end.

(** The message of the armed report-file fault, if any. *)
Definition fault_message (w : Monitor.World) : option str :=
  option_map snd (Monitor.pending_fault w).

(** [c] leaves the monitor object and the message of the armed fault
    alone, and either returns having added to the trace events [evs] with
    [P evs], or raises the armed fault as an [Exception] having added
    nothing. *)
Definition tidy {A} (P : list Monitor.event -> Prop) (c : Monitor.M A) : Prop :=
  forall w,
    Monitor.self (snd (c w)) = Monitor.self w
    /\ fault_message (snd (c w)) = fault_message w
    /\ ((exists a evs,
            fst (c w) = Monitor.Ret a /\ P evs
            /\ Monitor.trace (snd (c w)) = Monitor.trace w ++ evs)
        \/ (exists msg, fst (c w) = Monitor.Raise (Monitor.Exception msg)
                        /\ fault_message w = Some msg
                        /\ Monitor.trace (snd (c w)) = Monitor.trace w)).

(** [c] performs [k] operations on the report file and nothing else:
    it leaves the monitor object and the trace alone; when the armed
    fault is among its [k] operations it raises the fault's message and
    the fault stays armed for the next operation, otherwise it returns
    and the countdown has gone down by [k]. *)
Definition counted (k : nat) (c : Monitor.M unit) : Prop :=
  forall w,
    Monitor.self (snd (c w)) = Monitor.self w
    /\ Monitor.trace (snd (c w)) = Monitor.trace w
    /\ match Monitor.pending_fault w with
       | Some (n, msg) =>
           if n <? k
           then fst (c w) = Monitor.Raise (Monitor.Exception msg)
                /\ Monitor.pending_fault (snd (c w)) = Some (0, msg)
           else fst (c w) = Monitor.Ret tt
                /\ Monitor.pending_fault (snd (c w)) = Some (n - k, msg)
       | None =>
           fst (c w) = Monitor.Ret tt
           /\ Monitor.pending_fault (snd (c w)) = None
       end.

(** The world with more events in its trace. *)
Definition add_events (w : Monitor.World) (evs : list Monitor.event)
  : Monitor.World :=
  {| Monitor.self := Monitor.self w; Monitor.report := Monitor.report w;
     Monitor.pending_fault := Monitor.pending_fault w;
     Monitor.trace := Monitor.trace w ++ evs |}.

(** The events of a call of [stop_server] that runs to its end. *)
Definition stop_events (env : Monitor.CycleEnv) : list Monitor.event := [
  Monitor.Call Monitor.m_stop_server;
  Monitor.Print (Emoji.rotating_light
                   :: lit " " ++ Monitor.stamp (Monitor.clock_stopping env)
                   ++ lit "STOPPING SERVER DUE TO ERROR...");
  Monitor.Subprocess [lit "pkill"; lit "-f"; lit "node.*dual-strategy"];
  Monitor.Subprocess [lit "lsof"; lit "-ti:3031"];
  Monitor.Print (Emoji.check_mark
                   :: lit " " ++ Monitor.stamp (Monitor.clock_stopped env)
                   ++ lit "Server stopped")
].

(** The two lines printed when the user interrupts the sleep. *)
Definition interrupt_events (env : Monitor.CycleEnv) : list Monitor.event :=
  if Monitor.interrupt env then
    [Monitor.Print (nl :: nl :: Emoji.stop_sign
                       :: lit " Monitor stopped by user");
     Monitor.Print (Emoji.floppy :: lit " Report saved to: "
                      ++ Monitor.REPORT_FILE)]
  else [].

(** No event. *)
Definition silent (evs : list Monitor.event) : Prop := evs = [].

(** The line [write_report] prints after scan [it + 1] was written. *)
Definition ok_line (env : Monitor.CycleEnv) (it : nat) : str :=
  Emoji.check_mark :: lit " " ++ Monitor.stamp (Monitor.clock_hms env)
    ++ lit "Report updated: Scan #" ++ str_of_nat (it + 1).

(** The line [write_report] prints when a file operation raised [msg]. *)
Definition err_line (msg : str) : str :=
  Emoji.cross_mark :: lit " Error writing report: " ++ msg.

(** One confirmation on the console. *)
Definition confirmation (env : Monitor.CycleEnv) (evs : list Monitor.event)
  : Prop :=
  exists it, evs = [Monitor.Print (ok_line env it)].

End Aux.

(** ** Vocabulary of the further properties *)
Module More.
Import Re Monitor.

(** The sum of the counts of a dictionary. *)
Definition total (d : Dict.dict) : nat :=
  fold_right (fun e n => snd e + n) 0 d.

(** The keys of a dictionary, in order. *)
Definition keys (d : Dict.dict) : list str := List.map fst d.

(** The entries the failure loop stores for a table: the labels whose
    pattern occurs, with their counts, in the order of the table. *)
Definition stored {U : UnicodeData} (table : list (regex * str))
    (content : str) : Dict.dict :=
  List.map (fun e => (snd e, count (fst e) content))
    (filter (fun e => 0 <? count (fst e) content) table).

(** The number of [(] and of [)] in a pattern. *)
Definition opens_in (r : regex) : nat :=
  List.length (filter (fun p => match p with GOpen => true | _ => false end) r).
Definition closes_in (r : regex) : nat :=
  List.length (filter (fun p => match p with GClose => true | _ => false end) r).

(** The least number of characters a pattern consumes. *)
Definition min_len (r : regex) : nat :=
  List.length
    (filter (fun p => match p with One _ | Many1 _ => true | _ => false end) r).

(** The pattern of [analyze_box_range] up to its last group. *)
Definition box_prefix : regex :=
  tagged "BoxDetector" ++ ch Emoji.check_mark ++ t " Box detected! Grade=".

(** The patterns of [analyze_errors]. *)
Definition error_marker : str := lit "[31merror[39m".
Definition warn_marker : str := lit "[33mwarn[39m".


(** The snapshot with other values in the three [total_scans], in the
    warning samples and in the error samples. *)
Definition with_unrendered (n1 n2 n3 : nat) (ws es : list str) (s : Stats)
  : Stats :=
  {| timestamp := timestamp s;
     cycle_rider :=
       {| cr_total_scans := n1;
          distribution := distribution (cycle_rider s);
          squeeze := squeeze (cycle_rider s);
          cr_signals_generated := cr_signals_generated (cycle_rider s) |};
     hour_swing :=
       {| hs_total_scans := n2;
          mtf_alignment := mtf_alignment (hour_swing s);
          relative_strength := relative_strength (hour_swing s);
          funding_extremes := funding_extremes (hour_swing s);
          hs_signals_generated := hs_signals_generated (hour_swing s) |};
     box_range :=
       {| br_total_scans := n3;
          boxes_detected := boxes_detected (box_range s);
          box_grades := box_grades (box_range s);
          entry_analyzed := entry_analyzed (box_range s);
          entry_generated := entry_generated (box_range s);
          br_failed_filters := br_failed_filters (box_range s);
          br_signals_generated := br_signals_generated (box_range s) |};
     orders := orders s;
     errs :=
       {| error_count := error_count (errs s);
          warning_count := warning_count (errs s);
          errors := es;
          warnings := ws |} |}.

(** Every number [analyze_logs] gets from [len(re.findall(...))] outside
    the failure maps. *)
Definition counters (s : Stats) : list nat := [
  analyzed (distribution (cycle_rider s));
  detected (distribution (cycle_rider s));
  analyzed (squeeze (cycle_rider s));
  detected (squeeze (cycle_rider s));
  cr_signals_generated (cycle_rider s);
  analyzed (mtf_alignment (hour_swing s));
  detected (mtf_alignment (hour_swing s));
  analyzed (relative_strength (hour_swing s));
  detected (relative_strength (hour_swing s));
  fe_analyzed (funding_extremes (hour_swing s));
  fe_detected (funding_extremes (hour_swing s));
  extreme_zscore_bypass (funding_extremes (hour_swing s));
  hs_signals_generated (hour_swing s);
  boxes_detected (box_range s);
  entry_analyzed (box_range s);
  entry_generated (box_range s);
  br_signals_generated (box_range s);
  orders_placed (orders s);
  orders_filled (orders s);
  orders_cancelled (orders s);
  positions_opened (orders s);
  positions_closed (orders s);
  error_count (errs s);
  warning_count (errs s)
].

(** [l] is a piece of [content] that starts with [marker] and runs to the
    end of its line. *)
Definition line_tail (marker content l : str) : Prop :=
  exists before tail after,
    content = before ++ l ++ after
    /\ l = marker ++ tail
    /\ ~ In nl tail
    /\ (after = [] \/ exists after', after = nl :: after').

(** The window holds [event], then text without a line break, then a
    word of at least one character that is followed by "USDT". *)
Definition activity_line {U : UnicodeData} (event : string) (content : str)
  : Prop :=
  exists before mid sym after,
    content = before ++ lit event ++ mid ++ sym ++ lit "USDT" ++ after
    /\ ~ In nl mid
    /\ sym <> []
    /\ forallb (test Word) sym = true.

(** The five counts of [analyze_orders] with the text each one looks
    for. *)
Definition order_events (o : OrderStats) : list (string * nat) := [
  ("Order placed"%string, orders_placed o);
  ("Order filled"%string, orders_filled o);
  ("Order cancelled"%string, orders_cancelled o);
  ("Position opened"%string, positions_opened o);
  ("Position closed"%string, positions_closed o)
].

(** The window holds "[tag] ", a word of at least one character, a
    space and then [what]. *)
Definition tagged_line {U : UnicodeData} (tag : string) (what content : str)
  : Prop :=
  exists before sym after,
    content = before ++ lit "[" ++ lit tag ++ lit "] " ++ sym ++ lit " "
                ++ what ++ after
    /\ sym <> []
    /\ forallb (test Word) sym = true.

(** The counts of the three strategies whose pattern is a tag, a symbol
    and a fixed text, with the tag and the text each one looks for. *)
Definition tagged_counters (s : Stats) : list (string * str * nat) := [
  ("Distribution"%string, lit "Starting analysis",
   analyzed (distribution (cycle_rider s)));
  ("Distribution"%string, Emoji.dart :: lit " Distribution zone detected",
   detected (distribution (cycle_rider s)));
  ("SqueezeMomentum"%string, lit "Starting analysis",
   analyzed (squeeze (cycle_rider s)));
  ("SqueezeMomentum"%string, Emoji.check_mark :: lit " Squeeze detected",
   detected (squeeze (cycle_rider s)));
  ("CycleRider"%string, Emoji.rocket :: lit " Cycle Rider signal",
   cr_signals_generated (cycle_rider s));
  ("MTF Alignment"%string, lit "Checking alignment",
   analyzed (mtf_alignment (hour_swing s)));
  ("RelativeStrength"%string, lit "Checking relative strength",
   analyzed (relative_strength (hour_swing s)));
  ("RelativeStrength"%string,
   Emoji.check_mark :: lit " Relative strength confirmed",
   detected (relative_strength (hour_swing s)));
  ("FundingExtremes"%string, lit "Starting analysis",
   fe_analyzed (funding_extremes (hour_swing s)));
  ("FundingExtremes"%string, Emoji.collision :: lit " Extreme funding detected",
   fe_detected (funding_extremes (hour_swing s)));
  ("FundingExtremes"%string, Emoji.fire :: lit " EXTREME zScore detected",
   extreme_zscore_bypass (funding_extremes (hour_swing s)));
  ("BoxRangeSignal"%string, lit "Starting box range analysis",
   entry_analyzed (box_range s));
  ("BoxRangeSignal"%string, Emoji.dart :: lit " Box Range signal generated",
   entry_generated (box_range s));
  ("BoxRangeSignal"%string, Emoji.dart :: lit " Box Range signal generated",
   br_signals_generated (box_range s))
].

(** How many times the process slept. *)
Definition sleeps (evs : list event) : nat :=
  List.length
    (filter (fun e => match e with Sleep _ => true | _ => false end) evs).

(** [if __name__ == '__main__': monitor = TradeMonitor(); monitor.run()],
    [r] being the report file found on disk. *)
Definition main {U : UnicodeData} {C : Codec} (start : str)
    (envs : list CycleEnv) (r : option str) : exec status * World :=
  run start envs (boot r).

End More.

(** More concrete inputs. *)
Module Cases.
Import Monitor.

(** The log is read, and closing it fails. *)
Definition close_fails_env : CycleEnv :=
  {| log := {| log_bytes := Ascii.bytes Sample.one_line_log;
               log_raises := Some (AtClose, lit "Input/output error") |};
     clock := lit "2025-01-01 09:00:00";
     clock_started := lit "2025-01-01 09:00:01";
     clock_hms := lit "09:00:00";
     clock_stopping := lit "09:00:02";
     clock_stopped := lit "09:00:03";
     report_removed := false;
     report_raises := None;
     spawn_raises := fun _ => None;
     interrupt := false |}.

(** The report can be created, and the first write to it fails. *)
Definition header_write_fails_env : CycleEnv :=
  {| log := {| log_bytes := Ascii.bytes Sample.one_line_log;
               log_raises := None |};
     clock := lit "2025-01-01 09:00:00";
     clock_started := lit "2025-01-01 09:00:01";
     clock_hms := lit "09:00:00";
     clock_stopping := lit "09:00:02";
     clock_stopped := lit "09:00:03";
     report_removed := false;
     report_raises := Some (1, lit "No space left on device");
     spawn_raises := fun _ => None;
     interrupt := false |}.

(** The log was rotated: it is shorter than it was. *)
Definition rotated_env : CycleEnv := Ascii.quiet_env "rotated".

(** A fatal line between two harmless ones. *)
Definition fatal_in_context : str :=
  line (lit "server started") ++ line (lit Sample.fatal_log)
  ++ lit "server listening".

(** A window with one box of grade A. *)
Definition one_box : str :=
  line (lit "[BoxDetector] BTCUSDT " ++ [Emoji.check_mark]
          ++ lit " Box detected! Grade=A").

(** A window with one error line and one other line. *)
Definition one_error : str :=
  line (lit "[31merror[39m boom") ++ lit "ok".

(** A window with six error lines. *)
Definition six_errors : str :=
  line (lit "[31merror[39m e1") ++ line (lit "[31merror[39m e2")
  ++ line (lit "[31merror[39m e3") ++ line (lit "[31merror[39m e4")
  ++ line (lit "[31merror[39m e5") ++ line (lit "[31merror[39m e6").

(** A window with one analysis of the squeeze sub-strategy. *)
Definition one_squeeze : str :=
  lit "12:00:01 [SqueezeMomentum] ETHUSDT Starting analysis (1h)".

(** A window with one order. *)
Definition one_order : str := lit "Order placed for BTCUSDT".

(** The log is fatal and no program can be started. *)
Definition no_pkill_env : CycleEnv :=
  {| log := {| log_bytes := Ascii.bytes Sample.fatal_log;
               log_raises := None |};
     clock := lit "2025-01-01 09:00:00";
     clock_started := lit "2025-01-01 09:00:01";
     clock_hms := lit "09:00:00";
     clock_stopping := lit "09:00:02";
     clock_stopped := lit "09:00:03";
     report_removed := false;
     report_raises := None;
     spawn_raises := fun _ => Some (lit "No such file or directory");
     interrupt := false |}.

(** Ctrl-C arrives during the sleep of a cycle that processed a window. *)
Definition interrupted_env : CycleEnv :=
  {| log := {| log_bytes := Ascii.bytes Sample.one_line_log;
               log_raises := None |};
     clock := lit "2025-01-01 09:00:00";
     clock_started := lit "2025-01-01 09:00:01";
     clock_hms := lit "09:00:00";
     clock_stopping := lit "09:00:02";
     clock_stopped := lit "09:00:03";
     report_removed := false;
     report_raises := None;
     spawn_raises := fun _ => None;
     interrupt := true |}.

(** The world after the first read of the one-line log. *)
Definition after_first_read : World :=
  snd (read_new_logs (C := Ascii.codec)
         (Ascii.quiet_env Sample.one_line_log) (boot None)).

End Cases.

(** * Properties *)

(** ** The cursor reader *)
Section ReaderProperties.
Import Monitor.
Context {C : Codec}.

(** Only the cursor and the console change in [read_new_logs], and it
    always returns. *)
Lemma read_new_logs_returns (env : CycleEnv) (w : World) :
  exists content pos lines,
    read_new_logs env w
    = (Ret content,
       {| self := {| last_position := pos; iteration := iteration (self w) |};
          report := report w; pending_fault := pending_fault w;
          trace := trace w ++ Call m_read_new_logs :: List.map Print lines |})
    /\ last_position (self w) <= pos.
Proof.
  destruct w as [[pos it] r pf tr].
  destruct env as [[bytes [[st msg]|]] ? ? ? ? ? ? ? ? ?]; [destruct st|]; cbn;
    rewrite <- ?app_assoc; cbn.
  1-4: eexists _, pos, [_]; split; [reflexivity|lia].
  - eexists _, _, [_]; split; [reflexivity|lia].
  - eexists _, _, []; split; [reflexivity|lia].
Qed.

(** C3: the cursor never decreases in a call of [read_new_logs], whether
    the read fails, finds nothing or succeeds; and a successful read that
    finds [n] new bytes past the cursor moves it forward by exactly [n],
    to the end offset of the file. *)
Theorem cursor_monotone_and_exact (env : CycleEnv) (w : World) :
  last_position (self w) <= last_position (self (snd (read_new_logs env w)))
  /\ forall n : nat,
       log_raises (log env) = None ->
       List.length (log_bytes (log env)) = last_position (self w) + n ->
       last_position (self (snd (read_new_logs env w)))
       = last_position (self w) + n
       /\ last_position (self (snd (read_new_logs env w)))
          = List.length (log_bytes (log env)).
Proof.
  split.
  - destruct (read_new_logs_returns env w) as (c & pos & ls & -> & Hle).
    exact Hle.
  - intros n Hok Hlen.
    destruct w as [[pos it] r pf tr].
    destruct env as [[bytes raises] ? ? ? ? ? ? ? ? ?]; cbn in *; subst raises.
    cbn. rewrite length_skipn. lia.
Qed.

(** A log that is not longer than the cursor is not read: the call
    returns the empty string and leaves the cursor where it was. *)
Lemma read_past_the_end (env : CycleEnv) (w : World) :
  List.length (log_bytes (log env)) <= last_position (self w) ->
  fst (read_new_logs env w) = Ret []
  /\ last_position (self (snd (read_new_logs env w)))
     = last_position (self w).
Proof.
  intros Hle.
  destruct w as [[pos it] r pf tr].
  destruct env as [[bytes [[st msg]|]] ? ? ? ? ? ? ? ? ?]; cbn in Hle;
    [destruct st|]; cbn; rewrite ?skipn_all2 by lia; cbn;
    rewrite ?decode_nil; split; try reflexivity; lia.
Qed.

(** C8, amended: after a call that did not fail before the cursor was
    stored (it did not fail, or failed only when the file was closed), a
    second call on a file that has not grown returns the empty string and
    leaves the cursor where the first call put it (also when the second
    call fails). *)
Theorem read_twice_without_growth (env1 env2 : CycleEnv) (w : World) :
  (forall st msg, log_raises (log env1) = Some (st, msg) -> st = AtClose) ->
  List.length (log_bytes (log env2)) <= List.length (log_bytes (log env1)) ->
  let w1 := snd (read_new_logs env1 w) in
  fst (read_new_logs env2 w1) = Ret []
  /\ last_position (self (snd (read_new_logs env2 w1)))
     = last_position (self w1).
Proof.
  intros Hok Hlen. cbn zeta. apply read_past_the_end.
  destruct w as [[pos it] r pf tr].
  destruct env1 as [[bytes1 [[st1 msg1]|]] ? ? ? ? ? ? ? ? ?];
    cbn in Hok, Hlen |- *.
  - rewrite (Hok st1 msg1 eq_refl). cbn. rewrite length_skipn. lia.
  - rewrite length_skipn. lia.
Qed.

(** C9: when opening, seeking, reading or asking the position raises, the
    monitor object is left as it was and the empty string is returned; the
    cursor changes only in calls whose read to the end of the file did not
    raise. *)
Theorem read_failure_keeps_cursor (env : CycleEnv) (w : World) :
  (forall st msg,
      log_raises (log env) = Some (st, msg) -> st <> AtClose ->
      self (snd (read_new_logs env w)) = self w
      /\ fst (read_new_logs env w) = Ret [])
  /\ (last_position (self (snd (read_new_logs env w)))
      <> last_position (self w) ->
      log_raises (log env) = None
      \/ exists msg, log_raises (log env) = Some (AtClose, msg)).
Proof.
  destruct w as [[pos it] r pf tr].
  destruct env as [[bytes [[st msg]|]] ? ? ? ? ? ? ? ? ?]; cbn.
  - split.
    + intros st' msg' [= -> ->] Hst.
      destruct st'; cbn; try (split; reflexivity). congruence.
    + destruct st; cbn; intros H; try congruence.
      right. eexists. reflexivity.
  - split; [discriminate|]. intros _. left. reflexivity.
Qed.

End ReaderProperties.

Lemma cursor_monotone_and_exact_witness :
  Monitor.last_position
    (Monitor.self (snd (Monitor.read_new_logs (C := Ascii.codec)
                          (Ascii.quiet_env Sample.one_line_log)
                          (Monitor.boot None))))
  = 0 + 28.
Proof.
  apply (proj2 (cursor_monotone_and_exact (C := Ascii.codec)
                  (Ascii.quiet_env Sample.one_line_log)
                  (Monitor.boot None)) 28);
    reflexivity.
Defined.

Lemma read_twice_without_growth_witness :
  fst (Monitor.read_new_logs (C := Ascii.codec)
         (Ascii.quiet_env Sample.one_line_log)
         (snd (Monitor.read_new_logs (C := Ascii.codec)
                 (Ascii.quiet_env Sample.one_line_log) (Monitor.boot None))))
  = Monitor.Ret [].
Proof.
  apply (read_twice_without_growth (C := Ascii.codec)
           (Ascii.quiet_env Sample.one_line_log)
           (Ascii.quiet_env Sample.one_line_log)
           (Monitor.boot None)).
  - discriminate.
  - apply Nat.le_refl.
Defined.

(** C8 as written fails when the first call fails before the cursor is
    stored: the log cannot be opened at the first call and can at the
    second; the file is the same, and the second call returns its 28
    characters and moves the cursor from 0 to 28. *)
Lemma second_read_after_a_failed_open_returns_the_log :
  List.length (Monitor.log_bytes (Monitor.log (Ascii.quiet_env Sample.one_line_log)))
  <= List.length (Monitor.log_bytes (Monitor.log Sample.unreadable_env))
  /\ fst (Monitor.read_new_logs (C := Ascii.codec) Sample.unreadable_env
            (Monitor.boot None))
     = Monitor.Ret []
  /\ Monitor.last_position
       (Monitor.self
          (snd (Monitor.read_new_logs (C := Ascii.codec)
                  Sample.unreadable_env (Monitor.boot None))))
     = 0
  /\ fst (Monitor.read_new_logs (C := Ascii.codec)
            (Ascii.quiet_env Sample.one_line_log)
            (snd (Monitor.read_new_logs (C := Ascii.codec)
                    Sample.unreadable_env (Monitor.boot None))))
     = Monitor.Ret (lit Sample.one_line_log)
  /\ fst (Monitor.read_new_logs (C := Ascii.codec)
            (Ascii.quiet_env Sample.one_line_log)
            (snd (Monitor.read_new_logs (C := Ascii.codec)
                    Sample.unreadable_env (Monitor.boot None))))
     <> Monitor.Ret []
  /\ Monitor.last_position
       (Monitor.self
          (snd (Monitor.read_new_logs (C := Ascii.codec)
                  (Ascii.quiet_env Sample.one_line_log)
                  (snd (Monitor.read_new_logs (C := Ascii.codec)
                          Sample.unreadable_env (Monitor.boot None))))))
     = 28.
Proof.
  split; [apply Nat.le_refl|].
  split; [reflexivity|]. split; [reflexivity|]. split; [reflexivity|].
  split; [discriminate|reflexivity].
Qed.

Lemma read_failure_keeps_cursor_witness :
  Monitor.self (snd (Monitor.read_new_logs (C := Ascii.codec)
                       Sample.unreadable_env (Monitor.boot None)))
  = Monitor.self (Monitor.boot None).
Proof.
  apply (proj1 (read_failure_keeps_cursor (C := Ascii.codec)
                  Sample.unreadable_env (Monitor.boot None))
           Monitor.AtOpen (lit "Permission denied")).
  - reflexivity.
  - discriminate.
Defined.

(** ** Literal patterns and the count of [re.findall] *)
Section LiteralPatterns.
Import Re Monitor Spec Aux.
Context {U : UnicodeData}.

Lemma match_here_text (p : str) :
  forall opens caps acc s,
    match_here (text p) opens caps acc s
    = match strip_prefix p s with
      | Some r => Some (MRes (rev acc ++ p) caps r)
      | None => None
      end.
Proof.
  induction p as [|c p IH]; intros opens caps acc s; cbn.
  - rewrite app_nil_r. reflexivity.
  - destruct s as [|d s]; [reflexivity|].
    destruct (N.eqb_spec d c) as [->|Hne]; [|reflexivity].
    fold (text p). rewrite IH. cbn. rewrite <- app_assoc. reflexivity.
Qed.

Lemma strip_prefix_occurs (p s : str) :
  strip_prefix p s <> None <-> occurs_at p s 0.
Proof.
  unfold occurs_at. cbn. revert s.
  induction p as [|c p IH]; intros s; cbn.
  - split; [reflexivity|discriminate].
  - destruct s as [|d s]; cbn.
    + split; [congruence|discriminate].
    + destruct (N.eqb_spec d c) as [->|Hne].
      * rewrite IH. split; [intros ->; reflexivity|intros [= H]; exact H].
      * split; [congruence|]. intros [= H _]. contradiction.
Qed.

Lemma occurs_at_cons (p : str) (c : char) (s : str) (i : nat) :
  occurs_at p (c :: s) (S i) <-> occurs_at p s i.
Proof. unfold occurs_at. cbn. reflexivity. Qed.

Lemma occurs_at_nil (p : str) (i : nat) : p <> [] -> ~ occurs_at p [] i.
Proof.
  unfold occurs_at. intros Hp H. rewrite skipn_nil, firstn_nil in H.
  congruence.
Qed.

Lemma disjoint_weaken (p w : str) (from from' : nat) (ps : list nat) :
  from' <= from ->
  disjoint_occurrences p w from ps -> disjoint_occurrences p w from' ps.
Proof.
  destruct ps as [|i ps]; cbn; [trivial|].
  intros Hle (Hi & Ho & Hd). repeat split; [lia|assumption|assumption].
Qed.

Lemma disjoint_shift_down (p : str) (c : char) (s : str) :
  forall ps from,
    disjoint_occurrences p (c :: s) (S from) ps ->
    disjoint_occurrences p s from (List.map pred ps).
Proof.
  induction ps as [|i ps IH]; intros from; cbn; [trivial|].
  intros (Hi & Ho & Hd).
  destruct i as [|i]; [lia|]. cbn.
  repeat split; [lia|apply occurs_at_cons in Ho; exact Ho|].
  apply IH. exact Hd.
Qed.

Lemma disjoint_shift_up (p : str) (c : char) (s : str) :
  forall ps from,
    disjoint_occurrences p s from ps ->
    disjoint_occurrences p (c :: s) (S from) (List.map S ps).
Proof.
  induction ps as [|i ps IH]; intros from; cbn; [trivial|].
  intros (Hi & Ho & Hd).
  repeat split; [lia|apply occurs_at_cons; exact Ho|].
  apply (IH (i + List.length p)). exact Hd.
Qed.

(** No choice of non-overlapping occurrences is longer than what
    [findall] returns. *)
Lemma findall_text_most (p : str) :
  p <> [] ->
  forall s skip ps,
    disjoint_occurrences p s skip ps ->
    List.length ps <= List.length (findall_from (text p) skip s).
Proof.
  intros Hp.
  assert (Hlen : List.length p = S (pred (List.length p))).
  { destruct p; [congruence|reflexivity]. }
  induction s as [|c s IH]; intros skip ps Hd.
  - destruct ps as [|i ps]; [cbn; lia|].
    destruct Hd as (_ & Ho & _). destruct (occurs_at_nil Hp Ho).
  - destruct skip as [|k].
    + cbn [findall_from]. unfold match_at. rewrite match_here_text.
      destruct (strip_prefix p (c :: s)) as [r|] eqn:Hs.
      * cbn [whole List.length rev app].
        destruct ps as [|i ps]; [cbn; lia|].
        destruct Hd as (_ & _ & Hd). cbn [List.length].
        apply le_n_S.
        rewrite <- (length_map pred ps).
        apply IH. apply disjoint_shift_down with (c := c).
        apply disjoint_weaken with (from := i + List.length p); [lia|exact Hd].
      * rewrite <- (length_map pred ps).
        apply IH. apply disjoint_shift_down with (c := c).
        destruct ps as [|i ps]; [exact I|].
        destruct Hd as (Hi & Ho & Hd). cbn. repeat split; try assumption.
        destruct i as [|i]; [|lia].
        apply strip_prefix_occurs in Ho. congruence.
    + cbn [findall_from].
      rewrite <- (length_map pred ps).
      apply IH. apply disjoint_shift_down with (c := c). exact Hd.
Qed.

(** The matches [findall] returns are non-overlapping occurrences. *)
Lemma findall_text_some (p : str) :
  p <> [] ->
  forall s skip,
    exists ps,
      disjoint_occurrences p s skip ps
      /\ List.length ps = List.length (findall_from (text p) skip s).
Proof.
  intros Hp.
  assert (Hlen : List.length p = S (pred (List.length p))).
  { destruct p; [congruence|reflexivity]. }
  induction s as [|c s IH]; intros skip.
  - exists []. split; [exact I|].
    destruct skip; cbn; [|reflexivity].
    unfold match_at. rewrite match_here_text.
    destruct p; [congruence|reflexivity].
  - destruct skip as [|k].
    + cbn [findall_from]. unfold match_at. rewrite match_here_text.
      destruct (strip_prefix p (c :: s)) as [r|] eqn:Hs.
      * cbn [whole List.length rev app].
        destruct (IH (pred (List.length p))) as (ps & Hd & Hl).
        exists (0 :: List.map S ps). split.
        -- cbn. repeat split; [lia| |].
           ++ apply strip_prefix_occurs. congruence.
           ++ rewrite Hlen. apply disjoint_shift_up. exact Hd.
        -- cbn. rewrite length_map, Hl. reflexivity.
      * destruct (IH 0) as (ps & Hd & Hl).
        exists (List.map S ps). split.
        -- apply disjoint_weaken with (from := 1); [lia|].
           apply disjoint_shift_up. exact Hd.
        -- rewrite length_map. exact Hl.
    + cbn [findall_from].
      destruct (IH k) as (ps & Hd & Hl).
      exists (List.map S ps). split.
      * apply disjoint_shift_up. exact Hd.
      * rewrite length_map. exact Hl.
Qed.

(** [len(re.findall(p, w))] for a literal [p] is the number of
    non-overlapping occurrences of [p] in [w]. *)
Lemma count_text_exact (p w : str) (k : nat) :
  p <> [] -> has_exactly k p w -> count (text p) w = k.
Proof.
  intros Hp [(ps & Hd & Hk) Hmax].
  unfold count, findall.
  destruct (findall_text_some Hp w 0) as (qs & Hq & Hl).
  apply Nat.le_antisymm.
  - rewrite <- Hl. apply Hmax. exact Hq.
  - rewrite <- Hk. apply findall_text_most; assumption.
Qed.

(** Every window has exactly as many non-overlapping occurrences of a
    literal as [findall] counts. *)
Lemma count_text_has_exactly (p w : str) :
  p <> [] -> has_exactly (count (text p) w) p w.
Proof.
  intros Hp. unfold count, findall. split.
  - destruct (findall_text_some Hp w 0) as (ps & Hd & Hl).
    exists ps. split; assumption.
  - intros ps Hd. apply findall_text_most; assumption.
Qed.

End LiteralPatterns.

(** ** The failure maps *)
Section FailureMaps.
Import Re Monitor Spec.
Context {U : UnicodeData}.

Lemma str_eqb_eq (a b : str) : str_eqb a b = true <-> a = b.
Proof.
  revert b. induction a as [|x a IH]; destruct b as [|y b]; cbn;
    try (split; congruence).
  rewrite andb_true_iff, N.eqb_eq, IH. split.
  - intros [-> ->]. reflexivity.
  - intros [= -> ->]. split; reflexivity.
Qed.

Lemma str_eqb_refl (a : str) : str_eqb a a = true.
Proof. apply str_eqb_eq. reflexivity. Qed.

Lemma str_eqb_neq (a b : str) : a <> b -> str_eqb a b = false.
Proof.
  intros H. destruct (str_eqb a b) eqn:E; [|reflexivity].
  apply str_eqb_eq in E. contradiction.
Qed.

Lemma get_set_same (k : str) (v : nat) (d : Dict.dict) :
  Dict.get k (Dict.set k v d) = Some v.
Proof.
  induction d as [|[k' v'] d IH]; cbn.
  - rewrite str_eqb_refl. reflexivity.
  - destruct (str_eqb k k') eqn:E; cbn; rewrite ?str_eqb_refl, ?E; auto.
Qed.

Lemma get_set_other (k k' : str) (v : nat) (d : Dict.dict) :
  k <> k' -> Dict.get k (Dict.set k' v d) = Dict.get k d.
Proof.
  intros Hne. induction d as [|[k0 v0] d IH]; cbn.
  - rewrite (str_eqb_neq Hne). reflexivity.
  - destruct (str_eqb k' k0) eqn:E; cbn.
    + apply str_eqb_eq in E. subst k0.
      rewrite (str_eqb_neq Hne). reflexivity.
    + destruct (str_eqb k k0); [reflexivity|exact IH].
Qed.

Lemma record_failures_cons (content : str) (p : regex) (l : str)
    (tab : list (regex * str)) (d : Dict.dict) :
  record_failures ((p, l) :: tab) content d
  = record_failures tab content
      (if 0 <? count p content then Dict.set l (count p content) d else d).
Proof. reflexivity. Qed.

(** A label the table does not mention keeps its entry. *)
Lemma record_failures_other (content : str) (label : str) :
  forall tab d,
    ~ In label (List.map snd tab) ->
    Dict.get label (record_failures tab content d) = Dict.get label d.
Proof.
  induction tab as [|[p0 l0] tab IH]; intros d Hnin; [reflexivity|].
  rewrite record_failures_cons. cbn [List.map snd In] in Hnin.
  rewrite IH by tauto.
  destruct (0 <? count p0 content); [|reflexivity].
  apply get_set_other. intros ->. tauto.
Qed.

(** The entry of a label of the table after the loop. *)
Lemma record_failures_get (content : str) :
  forall tab d pat label,
    NoDup (List.map snd tab) ->
    In (pat, label) tab ->
    Dict.get label (record_failures tab content d)
    = if 0 <? count pat content then Some (count pat content)
      else Dict.get label d.
Proof.
  induction tab as [|[p0 l0] tab IH]; intros d pat label Hnd Hin;
    [destruct Hin|].
  cbn [List.map snd] in Hnd. inversion Hnd as [|? ? Hnin Hnd']; subst.
  rewrite record_failures_cons.
  destruct Hin as [[= -> ->]|Hin].
  - rewrite record_failures_other by exact Hnin.
    destruct (0 <? count pat content); [apply get_set_same|reflexivity].
  - rewrite IH with (pat := pat) by assumption.
    destruct (0 <? count pat content); [reflexivity|].
    destruct (0 <? count p0 content); [|reflexivity].
    apply get_set_other. intros ->.
    apply Hnin. apply (in_map snd) in Hin. exact Hin.
Qed.

(** Every pattern of the failure tables is a non-empty literal, and the
    labels of one table are distinct. *)
Lemma failure_tables_literal :
  forall tab proj,
    In (tab, proj) failure_extractors ->
    Forall (fun e => fst e = text (trigger (fst e)) /\ trigger (fst e) <> [])
           tab
    /\ NoDup (List.map snd tab).
Proof.
  intros tab proj Hin.
  repeat (destruct Hin as [[= <- <-]|Hin]); [..|destruct Hin];
    (split;
     [repeat (apply Forall_cons; [split; [reflexivity|discriminate]|]);
      apply Forall_nil
     |repeat (apply NoDup_cons;
              [cbn; intros H;
               repeat (destruct H as [H|H]; [discriminate H|]); exact H|]);
      apply NoDup_nil]).
Qed.

(** C5: for every (pattern, label) pair of every failure-filter table and
    every window: if the window contains exactly [k > 0] non-overlapping
    occurrences of the pattern's trigger text, the failure map of the
    snapshot has the label with count [k]; if it contains none, the label
    is absent from the map. *)
Theorem failure_filters_count_occurrences :
  forall tab proj, In (tab, proj) failure_extractors ->
  forall pat label, In (pat, label) tab ->
  forall (now content : str) (k : nat),
    has_exactly k (trigger pat) content ->
    (0 < k -> Dict.get label (proj (analyze_logs now content)) = Some k)
    /\ (k = 0 -> Dict.get label (proj (analyze_logs now content)) = None).
Proof.
  intros tab proj Htab pat label Hin now content k Hk.
  destruct (failure_tables_literal Htab) as [Hlit Hnd].
  rewrite Forall_forall in Hlit.
  destruct (Hlit _ Hin) as [Hpat Hne]. cbn [fst] in Hpat, Hne.
  assert (Hcount : count pat content = k).
  { rewrite Hpat. apply count_text_exact; assumption. }
  assert (Hmap : proj (analyze_logs now content)
                 = record_failures tab content []).
  { repeat (destruct Htab as [[= <- <-]|Htab]); [..|destruct Htab];
      reflexivity. }
  rewrite Hmap.
  rewrite record_failures_get with (pat := pat) by assumption.
  rewrite Hcount.
  split.
  - intros Hpos. apply Nat.ltb_lt in Hpos. rewrite Hpos. reflexivity.
  - intros ->. reflexivity.
Qed.

End FailureMaps.

(** ** Greedy repetition *)
Section GreedyFacts.
Import Re.

(** A repetition whose continuation succeeds without it succeeds. *)
Lemma greedy_falls_back (p : char -> bool) (k : str -> str -> option mres) :
  forall s acc, k acc s <> None -> greedy p k acc s <> None.
Proof.
  induction s as [|c s IH]; intros acc Hk; cbn; [exact Hk|].
  destruct (p c); [|exact Hk].
  destruct (greedy p k (c :: acc) s); [discriminate|exact Hk].
Qed.

(** A greedy repetition that succeeds took some characters, all of the
    class, and then its continuation succeeded. *)
Lemma greedy_some (p : char -> bool) (k : str -> str -> option mres) :
  forall s acc m,
    greedy p k acc s = Some m ->
    exists taken s',
      s = taken ++ s' /\ forallb p taken = true
      /\ k (rev taken ++ acc) s' = Some m.
Proof.
  induction s as [|c s IH]; intros acc m H; cbn in H.
  - exists [], []. repeat split. exact H.
  - destruct (p c) eqn:Hc.
    + destruct (greedy p k (c :: acc) s) as [m'|] eqn:Hg.
      * injection H as <-.
        destruct (IH _ _ Hg) as (taken & s' & -> & Hall & Hk).
        exists (c :: taken), s'. cbn. rewrite Hc, Hall.
        repeat split. rewrite <- app_assoc. exact Hk.
      * exists [], (c :: s). repeat split. exact H.
    + exists [], (c :: s). repeat split. exact H.
Qed.

(** A repetition can stop after any run of characters of its class after
    which its continuation succeeds. *)
Lemma greedy_complete (p : char -> bool) (k : str -> str -> option mres) :
  forall taken acc s',
    forallb p taken = true ->
    k (rev taken ++ acc) s' <> None ->
    greedy p k acc (taken ++ s') <> None.
Proof.
  induction taken as [|c taken IH]; intros acc s' Hall Hk.
  - apply greedy_falls_back. exact Hk.
  - cbn in Hall. apply andb_true_iff in Hall. destruct Hall as [Hc Hall].
    cbn [app greedy]. rewrite Hc.
    specialize (IH (c :: acc) s' Hall).
    cbn [rev] in Hk. rewrite <- app_assoc in Hk. cbn [app] in Hk.
    specialize (IH Hk).
    destruct (greedy p k (c :: acc) (taken ++ s')); [discriminate|congruence].
Qed.

End GreedyFacts.

(** ** The fatal-condition scan *)
Section FatalScan.
Import Re Monitor Spec Aux.
Context {U : UnicodeData}.

Ltac char_cases :=
  repeat match goal with
         | |- context [N.leb ?a ?b] =>
             first [ replace (N.leb a b) with true
                       by (symmetry; apply N.leb_le; lia)
                   | replace (N.leb a b) with false
                       by (symmetry; apply N.leb_gt; lia)
                   | destruct (N.leb_spec a b) ]
         | |- context [N.ltb ?a ?b] =>
             first [ replace (N.ltb a b) with true
                       by (symmetry; apply N.ltb_lt; lia)
                   | replace (N.ltb a b) with false
                       by (symmetry; apply N.ltb_ge; lia)
                   | destruct (N.ltb_spec a b) ]
         | |- context [N.eqb ?a ?b] =>
             first [ replace (N.eqb a b) with true
                       by (symmetry; apply N.eqb_eq; lia)
                   | replace (N.eqb a b) with false
                       by (symmetry; apply N.eqb_neq; lia)
                   | destruct (N.eqb_spec a b) ]
         end;
  cbn; try reflexivity; try lia.

Lemma sre_lower_ascii_lower (c : char) :
  sre_lower (ascii_lower c) = sre_lower c.
Proof.
  unfold sre_lower, ascii_lower, is_upper.
  destruct (N.leb_spec 65 c), (N.leb_spec c 90); cbn; try reflexivity; char_cases.
Qed.

Lemma test_blind (a : cset) (c : char) :
  blind a = true -> test a (ascii_lower c) = test a c.
Proof.
  destruct a as [x|lo| | |cs]; cbn [blind test]; intros Hb.
  - apply negb_true_iff, orb_false_iff in Hb. destruct Hb as [Hu Hl].
    unfold is_upper, is_lower in Hu, Hl.
    apply andb_false_iff in Hu, Hl.
    rewrite !N.leb_gt in Hu, Hl.
    unfold ascii_lower, is_upper.
    destruct (N.leb_spec 65 c), (N.leb_spec c 90); cbn; try reflexivity; char_cases.
  - rewrite sre_lower_ascii_lower. reflexivity.
  - unfold ascii_lower, is_upper, nl.
    destruct (N.leb_spec 65 c), (N.leb_spec c 90); cbn; try reflexivity; char_cases.
  - unfold ascii_lower, is_upper.
    destruct (N.leb_spec 65 c), (N.leb_spec c 90); cbn; try reflexivity;
      unfold isalnum, is_digit, is_upper, is_lower; char_cases.
  - discriminate.
Qed.

Lemma greedy_lower (p : char -> bool) (k k' : str -> str -> option mres) :
  (forall c, p (ascii_lower c) = p c) ->
  (forall acc s,
      k' (List.map ascii_lower acc) (List.map ascii_lower s)
      = option_map lower_res (k acc s)) ->
  forall s acc,
    greedy p k' (List.map ascii_lower acc) (List.map ascii_lower s)
    = option_map lower_res (greedy p k acc s).
Proof.
  intros Hp Hk. induction s as [|c s IH]; intros acc; cbn.
  - apply (Hk acc []).
  - rewrite Hp. destruct (p c).
    + change (ascii_lower c :: List.map ascii_lower acc)
        with (List.map ascii_lower (c :: acc)).
      rewrite IH. destruct (greedy p k (c :: acc) s); [reflexivity|].
      apply (Hk acc (c :: s)).
    + apply (Hk acc (c :: s)).
Qed.

Lemma match_here_lower (r : regex) :
  forallb blind_piece r = true ->
  forall opens caps acc s,
    match_here r opens (List.map (List.map ascii_lower) caps)
      (List.map ascii_lower acc) (List.map ascii_lower s)
    = option_map lower_res (match_here r opens caps acc s).
Proof.
  induction r as [|pc r IH]; intros Hb opens caps acc s.
  - cbn. unfold lower_res. cbn. rewrite map_rev. reflexivity.
  - cbn [forallb] in Hb. apply andb_true_iff in Hb. destruct Hb as [Hpc Hr].
    specialize (IH Hr).
    destruct pc as [a|a|a| |]; cbn [match_here blind_piece] in *.
    + destruct s as [|c s]; [reflexivity|]. cbn [List.map].
      rewrite (test_blind _ c Hpc). destruct (test a c); [|reflexivity].
      apply (IH opens caps (c :: acc) s).
    + apply greedy_lower; [intros c; apply test_blind; exact Hpc|].
      intros acc' s'. apply IH.
    + destruct s as [|c s]; [reflexivity|]. cbn [List.map].
      rewrite (test_blind _ c Hpc). destruct (test a c); [|reflexivity].
      change (ascii_lower c :: List.map ascii_lower acc)
        with (List.map ascii_lower (c :: acc)).
      apply greedy_lower; [intros c'; apply test_blind; exact Hpc|].
      intros acc' s'. apply IH.
    + rewrite length_map. apply IH.
    + destruct opens as [|n opens]; [reflexivity|].
      rewrite length_map, firstn_map, <- map_rev.
      change [List.map ascii_lower (rev (firstn (List.length acc - n) acc))]
        with (List.map (List.map ascii_lower)
                [rev (firstn (List.length acc - n) acc)]).
      rewrite <- map_app. apply IH.
Qed.

Lemma match_at_lower (r : regex) :
  forallb blind_piece r = true ->
  forall s,
    match_at r (List.map ascii_lower s)
    = option_map lower_res (match_at r s).
Proof. intros Hb s. exact (match_here_lower r Hb [] [] [] s). Qed.

Lemma search_lower (r : regex) :
  forallb blind_piece r = true ->
  forall s,
    search r (List.map ascii_lower s) = option_map lower_res (search r s).
Proof.
  intros Hb. induction s as [|c s IH].
  - pose proof (match_at_lower r Hb []) as H0. cbn [List.map] in H0.
    cbn [search List.map].
    destruct (match_at r []) as [m|]; cbn in *; [exact H0|reflexivity].
  - pose proof (match_at_lower r Hb (c :: s)) as H0. cbn [List.map] in H0.
    cbn [search List.map]. rewrite H0.
    destruct (match_at r (c :: s)); [reflexivity|exact IH].
Qed.

Lemma error_patterns_blind :
  Forall (fun p => forallb blind_piece (ignorecase (compiled p)) = true)
         error_patterns.
Proof. repeat constructor. Qed.

Lemma search_i_lower (p : pattern) (s : str) :
  In p error_patterns ->
  search_i p (List.map ascii_lower s) = search_i p s.
Proof.
  intros Hin. unfold search_i.
  pose proof error_patterns_blind as Hall. rewrite Forall_forall in Hall.
  rewrite (search_lower _ (Hall p Hin)).
  destruct (search (ignorecase (compiled p)) s); reflexivity.
Qed.

Lemma first_match_lower (ps : list pattern) (s : str) :
  (forall p, In p ps -> In p error_patterns) ->
  first_match ps (List.map ascii_lower s) = first_match ps s.
Proof.
  induction ps as [|p ps IH]; intros Hsub; cbn; [reflexivity|].
  rewrite search_i_lower by (apply Hsub; left; reflexivity).
  destruct (search_i p s); [reflexivity|].
  apply IH. intros q Hq. apply Hsub. right. exact Hq.
Qed.

Lemma check_for_errors_lower (s : str) :
  check_for_errors (List.map ascii_lower s) = check_for_errors s.
Proof. apply first_match_lower. auto. Qed.

Lemma search_app (r : regex) (a b : str) :
  match_at r b <> None -> search r (a ++ b) <> None.
Proof.
  intros Hb. induction a as [|c a IH]; cbn [app].
  - destruct b; cbn; destruct (match_at r _); congruence.
  - cbn. destruct (match_at r (c :: a ++ b)); [discriminate|exact IH].
Qed.

Lemma sre_lower_of_letter (x : char) :
  is_upper x || is_lower x = true ->
  sre_lower (ascii_lower x) = ascii_lower x.
Proof.
  intros Hx. unfold sre_lower, ascii_lower.
  destruct (is_upper x) eqn:Hu.
  - unfold is_upper in *. apply andb_true_iff in Hu.
    rewrite !N.leb_le in Hu. destruct Hu. char_cases.
  - rewrite Hu. cbn [orb] in Hx. unfold is_lower in Hx.
    apply andb_true_iff in Hx. rewrite !N.leb_le in Hx. destruct Hx.
    char_cases.
Qed.

Lemma test_fold_case_lower (x : char) :
  test (fold_case (Chr x)) (ascii_lower x) = true.
Proof.
  unfold fold_case.
  destruct (is_upper x || is_lower x) eqn:Hx; cbn [test].
  - rewrite (sre_lower_of_letter x Hx), N.eqb_refl. reflexivity.
  - apply orb_false_iff in Hx. destruct Hx as [Hu _].
    unfold ascii_lower. rewrite Hu. apply N.eqb_refl.
Qed.

(** Under IGNORECASE a literal matches its own text in lower case. *)
Lemma match_here_literal_i (q : str) :
  forall opens caps acc tail,
    match_here (ignorecase (text q)) opens caps acc
      (List.map ascii_lower q ++ tail) <> None.
Proof.
  induction q as [|x q IH]; intros opens caps acc tail; [discriminate|].
  cbn [text ignorecase List.map app match_here].
  rewrite test_fold_case_lower. apply IH.
Qed.

Lemma first_match_true (content : str) (p : pattern) :
  forall ps,
    In p ps -> search_i p content = true ->
    fst (first_match ps content) = true.
Proof.
  induction ps as [|q ps IH]; intros Hin Hm; [destruct Hin|]. cbn.
  destruct (search_i q content) eqn:Hq; [reflexivity|].
  destruct Hin as [->|Hin]; [congruence|]. apply IH; assumption.
Qed.

(** The engine's test of a pattern character under IGNORECASE is the
    comparison up to case. *)
Lemma test_fold_case_nocase (x c : char) :
  test (fold_case (Chr x)) c = nocase x c.
Proof.
  unfold fold_case, nocase.
  destruct (is_upper x || is_lower x); [|reflexivity].
  cbn [test]. unfold ignorecase_fixes.
  destruct (N.eqb_spec (ascii_lower x) 105) as [H1|H1];
    destruct (N.eqb_spec (ascii_lower x) 115) as [H2|H2];
    try (exfalso; rewrite H1 in H2; discriminate H2);
    cbn [existsb andb orb];
    rewrite ?orb_false_r; reflexivity.
Qed.

Lemma strip_nocase_some (p : str) :
  forall s v r,
    strip_nocase p s = Some (v, r) ->
    s = v ++ r /\ nocase_text p v = true.
Proof.
  induction p as [|x p IH]; intros s v r; cbn.
  - intros [= <- <-]. split; reflexivity.
  - destruct s as [|c s]; [discriminate|].
    destruct (nocase x c) eqn:Hc; [|discriminate].
    destruct (strip_nocase p s) as [[v' r']|] eqn:Hs; [|discriminate].
    intros [= <- <-]. destruct (IH _ _ _ Hs) as [-> Hv].
    split; [reflexivity|]. cbn. rewrite Hc. exact Hv.
Qed.

Lemma strip_nocase_app (p : str) :
  forall v r, nocase_text p v = true -> strip_nocase p (v ++ r) = Some (v, r).
Proof.
  induction p as [|x p IH]; intros [|c v] r; cbn; try discriminate.
  - reflexivity.
  - intros H. apply andb_true_iff in H. destruct H as [Hc Hv].
    rewrite Hc, (IH _ r Hv). reflexivity.
Qed.

(** A literal under IGNORECASE followed by more pattern: the literal takes
    a text that is its own up to case, and the rest goes on after it. *)
Lemma match_here_nocase (q : str) (r : regex) :
  forall opens caps acc s,
    match_here (ignorecase (text q) ++ r) opens caps acc s
    = match strip_nocase q s with
      | Some (v, s') => match_here r opens caps (rev v ++ acc) s'
      | None => None
      end.
Proof.
  induction q as [|x q IH]; intros opens caps acc s; [reflexivity|].
  change (ignorecase (text (x :: q)) ++ r)
    with (One (fold_case (Chr x)) :: (ignorecase (text q) ++ r)).
  cbn [match_here strip_nocase].
  destruct s as [|c s]; [reflexivity|].
  rewrite test_fold_case_nocase.
  destruct (nocase x c); [|reflexivity].
  rewrite IH. destruct (strip_nocase q s) as [[v s']|]; [|reflexivity].
  cbn [rev]. rewrite <- app_assoc. reflexivity.
Qed.

(** [re.search] finds a match at some position of the text. *)
Lemma search_some (r : regex) :
  forall s m,
    search r s = Some m ->
    exists pre s', s = pre ++ s' /\ match_at r s' = Some m.
Proof.
  induction s as [|c s IH]; intros m H; cbn [search] in H.
  - destruct (match_at r []) eqn:Hm; [|discriminate].
    injection H as <-. exists [], []. split; [reflexivity|exact Hm].
  - destruct (match_at r (c :: s)) eqn:Hm.
    + injection H as <-. exists [], (c :: s). split; [reflexivity|exact Hm].
    + destruct (IH _ H) as (pre & s' & -> & Hs).
      exists (c :: pre), s'. split; [reflexivity|exact Hs].
Qed.

(** A literal pattern matches under IGNORECASE exactly when its text
    occurs in the window up to case. *)
Lemma literal_occurs (src q content : str) :
  search_i (Pat src (text q)) content = true <-> occurs (Literal q) content.
Proof.
  unfold search_i. cbn [compiled occurs]. split.
  - destruct (search (ignorecase (text q)) content) as [m|] eqn:Hs;
      [|discriminate].
    intros _. apply search_some in Hs.
    destruct Hs as (pre & s' & -> & Hm).
    unfold match_at in Hm.
    rewrite <- (app_nil_r (ignorecase (text q))), match_here_nocase in Hm.
    destruct (strip_nocase q s') as [[v r]|] eqn:Hq; [|discriminate].
    apply strip_nocase_some in Hq. destruct Hq as [-> Hv].
    exists pre, v, r. split; [reflexivity|exact Hv].
  - intros (pre & v & post & -> & Hv).
    destruct (search (ignorecase (text q)) (pre ++ v ++ post)) eqn:Hs;
      [reflexivity|].
    exfalso. revert Hs. apply search_app. unfold match_at.
    rewrite <- (app_nil_r (ignorecase (text q))), match_here_nocase,
      (@strip_nocase_app q v post Hv).
    discriminate.
Qed.

(** The pattern [a.*b] matches under IGNORECASE exactly when [a] and,
    later on the same line, [b] occur in the window up to case. *)
Lemma gap_occurs (src a b content : str) :
  search_i (Pat src (text a ++ dot_star ++ text b)) content = true
  <-> occurs (Gap a b) content.
Proof.
  unfold search_i. cbn [compiled occurs].
  assert (Hpat : ignorecase (text a ++ dot_star ++ text b)
                 = ignorecase (text a)
                     ++ Many0 Dot :: (ignorecase (text b) ++ [])).
  { unfold ignorecase. rewrite !map_app, app_nil_r. reflexivity. }
  rewrite Hpat. split.
  - destruct (search _ content) as [m|] eqn:Hs; [|discriminate].
    intros _. apply search_some in Hs.
    destruct Hs as (pre & s' & -> & Hm).
    unfold match_at in Hm. rewrite match_here_nocase in Hm.
    destruct (strip_nocase a s') as [[v s1]|] eqn:Ha; [|discriminate].
    apply strip_nocase_some in Ha. destruct Ha as [-> Hv].
    cbn [match_here] in Hm.
    destruct (greedy_some _ _ _ _ Hm) as (mid & s2 & -> & Hmid & Hk).
    rewrite match_here_nocase in Hk.
    destruct (strip_nocase b s2) as [[v' r]|] eqn:Hb; [|discriminate].
    apply strip_nocase_some in Hb. destruct Hb as [-> Hv'].
    exists pre, v, mid, v', r. repeat split; try assumption.
    intros Hin. rewrite forallb_forall in Hmid.
    specialize (Hmid _ Hin). cbn in Hmid. discriminate.
  - intros (pre & v & mid & v' & post & -> & Hv & Hmid & Hv').
    destruct (search _ (pre ++ v ++ mid ++ v' ++ post)) eqn:Hs;
      [reflexivity|].
    exfalso. revert Hs. apply search_app. unfold match_at.
    rewrite match_here_nocase, (@strip_nocase_app a v _ Hv).
    cbn [match_here]. apply greedy_complete.
    + apply forallb_forall. intros x Hx. cbn.
      destruct (N.eqb_spec x nl) as [->|_]; [contradiction|reflexivity].
    + rewrite match_here_nocase, (@strip_nocase_app b v' post Hv').
      discriminate.
Qed.

(** The list of the code is the list of shapes: every pattern has the
    listed text and matches exactly when its shape occurs. *)
Lemma patterns_look_for_their_shapes (content : str) :
  Forall2 (fun p e => source p = fst e
                      /\ (search_i p content = true
                          <-> occurs (snd e) content))
          error_patterns fatal_shapes.
Proof.
  unfold error_patterns, fatal_shapes, t.
  repeat (apply Forall2_cons;
          [split; [reflexivity|first [apply literal_occurs|apply gap_occurs]]|]).
  apply Forall2_nil.
Qed.

(** The loop over a list of patterns, told in terms of what occurs. *)
Lemma first_match_by_shapes (content : str) :
  forall ps shs,
    Forall2 (fun p e => source p = fst e
                        /\ (search_i p content = true
                            <-> occurs (snd e) content)) ps shs ->
    (forall k name sh,
        nth_error shs k = Some (name, sh) ->
        occurs sh content ->
        (forall k' name' sh',
            k' < k -> nth_error shs k' = Some (name', sh') ->
            ~ occurs sh' content) ->
        first_match ps content = (true, Some name))
    /\ ((forall name sh, In (name, sh) shs -> ~ occurs sh content) ->
        first_match ps content = (false, None))
    /\ (forall i name sh,
           nth_error shs i = Some (name, sh) ->
           occurs sh content ->
           exists k namek shk,
             k <= i /\ nth_error shs k = Some (namek, shk)
             /\ occurs shk content
             /\ (forall k' name' sh',
                    k' < k -> nth_error shs k' = Some (name', sh') ->
                    ~ occurs sh' content)).
Proof.
  induction 1 as [|p [n0 sh0] ps shs [Hsrc Hiff] Hall (IH1 & IH2 & IH3)].
  - split; [|split].
    + intros [|k] name sh Hk; discriminate.
    + reflexivity.
    + intros [|i] name sh Hi; discriminate.
  - cbn [fst snd] in Hsrc, Hiff. split; [|split].
    + intros [|k] name sh Hk Ho Hbefore; cbn [nth_error first_match] in *.
      * injection Hk as <- <-.
        rewrite (proj2 Hiff Ho), Hsrc. reflexivity.
      * destruct (search_i p content) eqn:Hp.
        -- exfalso. apply (Hbefore 0 n0 sh0); [lia|reflexivity|].
           apply Hiff. reflexivity.
        -- apply (IH1 k name sh Hk Ho).
           intros k' name' sh' Hlt Hk'.
           apply (Hbefore (S k') name' sh'); [lia|exact Hk'].
    + intros Hnone. cbn [first_match].
      destruct (search_i p content) eqn:Hp.
      * exfalso. apply (Hnone n0 sh0); [left; reflexivity|].
        apply Hiff. reflexivity.
      * apply IH2. intros name sh Hin. apply (Hnone name sh). right. exact Hin.
    + intros i name sh Hi Ho.
      destruct (search_i p content) eqn:Hp.
      * exists 0, n0, sh0. split; [lia|]. split; [reflexivity|].
        split; [apply Hiff; reflexivity|]. intros k' ? ? Hlt. lia.
      * destruct i as [|i]; cbn [nth_error] in Hi.
        -- injection Hi as <- <-. apply Hiff in Ho. congruence.
        -- destruct (IH3 i name sh Hi Ho)
             as (k & namek & shk & Hle & Hk & Hok & Hbefore).
           exists (S k), namek, shk. split; [lia|]. split; [exact Hk|].
           split; [exact Hok|].
           intros [|k'] name' sh' Hlt Hk'; cbn [nth_error] in Hk'.
           ++ injection Hk' as <- <-. intros Ho0. apply Hiff in Ho0.
              congruence.
           ++ apply (Hbefore k' name' sh'); [lia|exact Hk'].
Qed.

Lemma fatal_shape_names_distinct : NoDup (List.map fst fatal_shapes).
Proof.
  repeat (apply NoDup_cons;
          [cbn; intros H;
           repeat (destruct H as [H|H]; [discriminate H|]); exact H|]).
  apply NoDup_nil.
Qed.

(** C2: the scan does not see the case of ASCII letters (two windows that
    differ only in letter case get the same verdict, and a window that
    contains the text of a literal fatal pattern in any mix of cases is
    fatal); the verdict is fatal exactly when what some pattern of the
    list looks for occurs in the window text, up to case; and when what
    two patterns look for occurs in the window, the scan reports the
    first pattern of the list of which this is so, which is listed no
    later than the earlier of the two and is never the later one,
    wherever the occurrences are in the window. *)
Theorem fatal_scan_ignores_case_and_list_order_wins (content : str) :
  (forall content',
      same_modulo_case content' content ->
      check_for_errors content' = check_for_errors content)
  /\ (forall p pre v post,
         In p error_patterns ->
         compiled p = text (source p) ->
         same_modulo_case v (source p) ->
         content = pre ++ v ++ post ->
         fst (check_for_errors content) = true)
  /\ (fst (check_for_errors content) = true
      <-> exists name sh, In (name, sh) fatal_shapes /\ occurs sh content)
  /\ (forall i j namei shi namej shj,
         i < j ->
         nth_error fatal_shapes i = Some (namei, shi) ->
         nth_error fatal_shapes j = Some (namej, shj) ->
         occurs shi content ->
         occurs shj content ->
         exists k namek shk,
           k <= i
           /\ nth_error fatal_shapes k = Some (namek, shk)
           /\ occurs shk content
           /\ (forall k' name' sh',
                  k' < k ->
                  nth_error fatal_shapes k' = Some (name', sh') ->
                  ~ occurs sh' content)
           /\ check_for_errors content = (true, Some namek)
           /\ check_for_errors content <> (true, Some namej)).
Proof.
  destruct (@first_match_by_shapes content _ _
              (patterns_look_for_their_shapes content))
    as (Hfirst & Hnone & Hleast).
  split; [|split; [|split]].
  - intros content' Hsame.
    rewrite <- (check_for_errors_lower content'),
            <- (check_for_errors_lower content).
    unfold same_modulo_case in Hsame. rewrite Hsame. reflexivity.
  - intros p pre v post Hin Hlit Hsame ->.
    rewrite <- check_for_errors_lower.
    apply first_match_true with (p := p); [exact Hin|].
    unfold search_i. rewrite Hlit, !map_app.
    unfold same_modulo_case in Hsame. rewrite Hsame.
    destruct (search _ _) eqn:Hs; [reflexivity|].
    exfalso. revert Hs. apply search_app. apply match_here_literal_i.
  - unfold check_for_errors. split.
    + intros Hfatal.
      assert (Hex : ~ forall name sh,
                        In (name, sh) fatal_shapes -> ~ occurs sh content).
      { intros Hno. rewrite (Hnone Hno) in Hfatal. discriminate. }
      pose proof (patterns_look_for_their_shapes content) as Hall.
      clear Hfirst Hnone Hleast.
      revert Hfatal Hex. unfold check_for_errors.
      generalize error_patterns fatal_shapes Hall.
      induction 1 as [|p [n0 sh0] ps shs [Hsrc Hiff] Hall' IH];
        intros Hfatal Hex.
      * discriminate.
      * cbn [first_match] in Hfatal. cbn [snd] in Hiff.
        destruct (search_i p content) eqn:Hp.
        -- exists n0, sh0. split; [left; reflexivity|].
           apply Hiff. reflexivity.
        -- destruct IH as (name & sh & Hin & Ho); [exact Hfatal| |].
           ++ intros Hno. apply Hex. intros name sh [[= <- <-]|Hin] Ho.
              ** apply Hiff in Ho. congruence.
              ** apply (Hno name sh Hin Ho).
           ++ exists name, sh. split; [right; exact Hin|exact Ho].
    + intros (name & sh & Hin & Ho).
      apply In_nth_error in Hin. destruct Hin as (i & Hi).
      destruct (Hleast i name sh Hi Ho)
        as (k & namek & shk & _ & Hk & Hok & Hbefore).
      rewrite (Hfirst k namek shk Hk Hok Hbefore). reflexivity.
  - intros i j namei shi namej shj Hlt Hi Hj Hoi Hoj.
    destruct (Hleast i namei shi Hi Hoi)
      as (k & namek & shk & Hle & Hk & Hok & Hbefore).
    exists k, namek, shk.
    split; [exact Hle|]. split; [exact Hk|]. split; [exact Hok|].
    split; [exact Hbefore|].
    unfold check_for_errors. rewrite (Hfirst k namek shk Hk Hok Hbefore).
    split; [reflexivity|].
    intros [= Heq].
    pose proof fatal_shape_names_distinct as Hnd.
    rewrite NoDup_nth_error in Hnd.
    assert (Hkj : k = j).
    { apply Hnd.
      - rewrite length_map. apply nth_error_Some. congruence.
      - rewrite !nth_error_map, Hk, Hj. cbn. rewrite Heq. reflexivity. }
    lia.
Qed.

End FatalScan.

(** ** The report writer *)
Section WriterProperties.
Import Monitor Spec Aux.
Local Open Scope monitor_scope.

Lemma tidy_ret {A} (a : A) : tidy silent (ret a).
Proof.
  intros w. cbn. split; [reflexivity|]. split; [reflexivity|].
  left. exists a, []. rewrite app_nil_r. repeat split.
Qed.

Lemma tidy_bind {A B} (P : list event -> Prop) (c : M A) (k : A -> M B) :
  tidy silent c -> (forall a, tidy P (k a)) -> tidy P (bind c k).
Proof.
  intros Hc Hk w. unfold bind.
  destruct (Hc w) as (Hs & Hf & Ht).
  destruct (c w) as [[a|e] w']; cbn in *.
  - destruct Ht as [(a' & evs & _ & -> & Ht)|(msg & Hr & _)]; [|discriminate].
    rewrite app_nil_r in Ht. rewrite <- Hs, <- Hf, <- Ht. apply Hk.
  - destruct Ht as [(a' & evs & Hr & _)|(msg & Hr & Hm & Ht)]; [discriminate|].
    injection Hr as ->.
    split; [exact Hs|]. split; [exact Hf|].
    right. exists msg. repeat split; assumption.
Qed.

Lemma tidy_confirmation (env : CycleEnv) (it : nat) :
  tidy (confirmation env) (print (ok_line env it)).
Proof.
  intros w. cbn. split; [reflexivity|]. split; [reflexivity|].
  left. exists tt, [Print (ok_line env it)].
  repeat split. exists it. reflexivity.
Qed.

Lemma tidy_get_self : tidy silent get_self.
Proof.
  intros w. cbn. split; [reflexivity|]. split; [reflexivity|].
  left. exists (self w), []. rewrite app_nil_r. repeat split.
Qed.

Lemma tidy_report_exists : tidy silent report_exists.
Proof.
  intros w. cbn. split; [reflexivity|]. split; [reflexivity|].
  left. eexists _, []. rewrite app_nil_r. repeat split.
Qed.

Lemma tidy_report_op (f : option str -> option str) :
  tidy silent (report_op f).
Proof.
  intros [s r pf tr]. unfold report_op, fault_message.
  destruct pf as [[[|n] msg]|]; cbn;
    (split; [reflexivity|]); (split; [reflexivity|]).
  - right. exists msg. repeat split.
  - left. exists tt, []. rewrite app_nil_r. repeat split.
  - left. exists tt, []. rewrite app_nil_r. repeat split.
Qed.

Lemma tidy_write_all (chunks : list str) : tidy silent (write_all chunks).
Proof.
  induction chunks as [|c chunks IH]; cbn [write_all].
  - apply tidy_ret.
  - apply tidy_bind; [apply tidy_report_op|intros _; exact IH].
Qed.

Lemma tidy_with_close (body close_ : M unit) :
  tidy silent body -> tidy silent close_ ->
  tidy silent (with_close body close_).
Proof.
  intros Hb Hc w. unfold with_close.
  destruct (Hb w) as (Hs & Hf & Ht).
  destruct (body w) as [[a|e] w']; cbn in *;
    destruct (Hc w') as (Hs' & Hf' & Ht');
    destruct (close_ w') as [[u|e'] w'']; cbn in *;
    (split; [congruence|]); (split; [congruence|]).
  - left. exists a, [].
    destruct Ht as [(? & ? & _ & -> & Ht)|(? & ? & _)]; [|discriminate].
    destruct Ht' as [(? & ? & _ & -> & Ht')|(? & ? & _)]; [|discriminate].
    rewrite app_nil_r in *. repeat split. congruence.
  - right.
    destruct Ht as [(? & ? & _ & -> & Ht)|(? & ? & _)]; [|discriminate].
    destruct Ht' as [(? & ? & ? & _)|(msg & Hr & Hm & Ht')]; [discriminate|].
    rewrite app_nil_r in *. exists msg.
    repeat split; [exact Hr|congruence|congruence].
  - right.
    destruct Ht as [(? & ? & ? & _)|(msg & Hr & Hm & Ht)]; [discriminate|].
    destruct Ht' as [(? & ? & _ & -> & Ht')|(? & ? & _)]; [|discriminate].
    rewrite app_nil_r in *. exists msg.
    repeat split; [exact Hr|exact Hm|congruence].
  - right.
    destruct Ht as [(? & ? & ? & _)|(msg & Hr & Hm & Ht)]; [discriminate|].
    destruct Ht' as [(? & ? & ? & _)|(msg' & Hr' & Hm' & Ht')]; [discriminate|].
    exists msg'. repeat split; [exact Hr'|congruence|congruence].
Qed.

(** A tidy block that confirms, under the handler of [write_report]: one
    line either way, the confirmation or the message of the fault. *)
Lemma try_except_print (env : CycleEnv) (body : M unit) :
  tidy (confirmation env) body ->
  forall w,
  exists ln,
    fst (try_except body (fun e => print (err_line e)) w) = Ret tt
    /\ self (snd (try_except body (fun e => print (err_line e)) w)) = self w
    /\ trace (snd (try_except body (fun e => print (err_line e)) w))
       = trace w ++ [Print ln]
    /\ ((exists it, ln = ok_line env it)
        \/ (exists msg, fault_message w = Some msg /\ ln = err_line msg)).
Proof.
  intros Hbody w. unfold try_except.
  destruct (Hbody w) as (Hs & _ & Ht).
  destruct (body w) as [[[]|e] w1]; cbn in *.
  - destruct Ht as [(? & evs & _ & (it & ->) & Ht)|(? & ? & _)];
      [|discriminate].
    exists (ok_line env it). repeat split; try assumption.
    left. exists it. reflexivity.
  - destruct Ht as [(? & ? & ? & _)|(msg & [= ->] & Hm & Ht)]; [discriminate|].
    exists (err_line msg). cbn. rewrite Hs, Ht. repeat split.
    right. exists msg. split; [exact Hm|reflexivity].
Qed.

(** [write_report] never raises and never touches the monitor object; on
    the console it leaves one line: the confirmation, or the message of
    the file operation that failed. *)
Lemma write_report_returns (env : CycleEnv) (stats : Stats) (w : World) :
  exists ln,
    fst (write_report env stats w) = Ret tt
    /\ self (snd (write_report env stats w)) = self w
    /\ trace (snd (write_report env stats w))
       = trace w ++ [Call m_write_report; Print ln]
    /\ ((exists it, ln = ok_line env it)
        \/ (exists n msg,
              report_raises env = Some (n, msg) /\ ln = err_line msg)).
Proof.
  unfold write_report.
  match goal with
  | |- context [try_except ?body ?h] =>
      assert (HT : forall w0, exists ln,
                 fst (try_except body h w0) = Ret tt
                 /\ self (snd (try_except body h w0)) = self w0
                 /\ trace (snd (try_except body h w0))
                    = trace w0 ++ [Print ln]
                 /\ ((exists it, ln = ok_line env it)
                     \/ (exists msg, fault_message w0 = Some msg
                                     /\ ln = err_line msg)));
      [apply (@try_except_print env body)
      |revert HT; generalize (try_except body h)]
  end.
  - apply tidy_bind; [apply tidy_get_self|]. intros s.
    apply tidy_bind; [apply tidy_report_exists|]. intros present.
    apply tidy_bind.
    { destruct ((iteration s =? 0) || negb present); [|apply tidy_ret].
      apply tidy_bind; [apply tidy_report_op|]. intros _.
      apply tidy_with_close; [apply tidy_write_all|apply tidy_report_op]. }
    intros _.
    apply tidy_bind; [apply tidy_report_op|]. intros _.
    apply tidy_bind.
    { apply tidy_with_close; [apply tidy_write_all|apply tidy_report_op]. }
    intros _. apply tidy_confirmation.
  - intros T HT. destruct w as [s r pf tr]. cbn.
    match goal with
    | |- context [T ?w0] => destruct (HT w0) as (ln & Hr & Hs & Ht & Hln)
    end.
    exists ln. cbn in *. rewrite Hr, Hs, Ht, <- app_assoc.
    repeat split.
    destruct Hln as [Hln|(msg & Hm & Hln)]; [left; exact Hln|right].
    unfold fault_message in Hm. cbn in Hm.
    destruct (report_raises env) as [[n msg']|]; [|discriminate].
    cbn in Hm. injection Hm as ->. exists n, msg. split; [reflexivity|exact Hln].
Qed.

Lemma write_all_clean (chunks : list str) :
  forall s c tr,
    write_all chunks
      {| self := s; report := Some c; pending_fault := None; trace := tr |}
    = (Ret tt, {| self := s; report := Some (c ++ written chunks);
                  pending_fault := None; trace := tr |}).
Proof.
  induction chunks as [|x chunks IH]; intros s c tr; cbn.
  - rewrite app_nil_r. reflexivity.
  - unfold bind, write, report_op. cbn. rewrite IH, <- app_assoc.
    reflexivity.
Qed.

(** What a call of [write_report] in which no file operation fails leaves
    in the report file. *)
Lemma write_report_clean (env : CycleEnv) (stats : Stats) (w : World) :
  report_raises env = None ->
  report (snd (write_report env stats w))
  = Some ((if (iteration (self w) =? 0)
              || match report w with Some _ => false | None => true end
           then written (header (clock_started env))
           else contents (report w))
          ++ written (section (iteration (self w)) stats)).
Proof.
  intros Hok. destruct w as [[pos it] r pf tr].
  unfold write_report. rewrite Hok.
  unfold try_except, bind, with_close, call, print, emit, arm_fault, get_self,
    report_exists, open_w, open_a, close, report_op, ret.
  destruct (Nat.eqb_spec it 0) as [->|Hit]; [|destruct r as [c|]];
    cbn -[write_all section header written Nat.eqb];
    try (destruct (Nat.eqb_spec it 0) as [->|_]; [congruence|]);
    cbn -[write_all section header written];
    repeat (rewrite write_all_clean; cbn -[write_all section header written]);
    reflexivity.
Qed.
End WriterProperties.
Section CountedOps.
Import Monitor Spec Aux.
Local Open Scope monitor_scope.
Context {U : UnicodeData}.

Lemma counted_ret : counted 0 (ret tt).
Proof.
  intros [s r [[n msg]|] tr]; cbn; repeat split.
  rewrite Nat.sub_0_r. reflexivity.
Qed.

Lemma counted_report_op (f : option str -> option str) :
  counted 1 (report_op f).
Proof.
  intros [s r [[[|n] msg]|] tr]; cbn; repeat split.
  rewrite Nat.sub_0_r. reflexivity.
Qed.

Lemma counted_bind (a b : nat) (c1 c2 : M unit) :
  counted a c1 -> counted b c2 -> counted (a + b) (c1 ;; c2).
Proof.
  intros H1 H2 w. unfold bind.
  destruct (H1 w) as (Hs1 & Ht1 & Hf1).
  destruct (c1 w) as [res1 w1]. cbn [fst snd] in *.
  destruct (pending_fault w) as [[n msg]|].
  - destruct (Nat.ltb_spec n a) as [Hlt|Hge].
    + destruct Hf1 as [-> Hp1].
      replace (n <? a + b) with true by (symmetry; apply Nat.ltb_lt; lia).
      cbn. repeat split; assumption.
    + destruct Hf1 as [-> Hp1].
      destruct (H2 w1) as (Hs2 & Ht2 & Hf2). rewrite Hp1 in Hf2.
      destruct (c2 w1) as [res2 w2]. cbn [fst snd] in *.
      split; [congruence|]. split; [congruence|].
      destruct (Nat.ltb_spec (n - a) b) as [Hlt2|Hge2].
      * replace (n <? a + b) with true by (symmetry; apply Nat.ltb_lt; lia).
        exact Hf2.
      * replace (n <? a + b) with false by (symmetry; apply Nat.ltb_ge; lia).
        replace (n - (a + b)) with (n - a - b) by lia. exact Hf2.
  - destruct Hf1 as [-> Hp1].
    destruct (H2 w1) as (Hs2 & Ht2 & Hf2). rewrite Hp1 in Hf2.
    destruct (c2 w1) as [res2 w2]. cbn [fst snd] in *.
    split; [congruence|]. split; [congruence|]. exact Hf2.
Qed.

Lemma counted_write_all (chunks : list str) :
  counted (List.length chunks) (write_all chunks).
Proof.
  induction chunks as [|x chunks IH]; [exact counted_ret|].
  cbn [write_all List.length].
  change (S (List.length chunks)) with (1 + List.length chunks).
  apply counted_bind; [apply counted_report_op|exact IH].
Qed.

Lemma counted_with_close (a : nat) (body : M unit) :
  counted a body -> counted (a + 1) (with_close body close).
Proof.
  intros H w. unfold with_close.
  destruct (H w) as (Hs & Ht & Hf).
  destruct (body w) as [res w1]. cbn [fst snd] in *.
  destruct (counted_report_op (fun r => r) w1) as (Hs2 & Ht2 & Hf2).
  fold close in Hs2, Ht2, Hf2.
  destruct (pending_fault w) as [[n msg]|].
  - destruct (Nat.ltb_spec n a) as [Hlt|Hge].
    + destruct Hf as [-> Hp]. rewrite Hp in Hf2. cbn in Hf2.
      destruct Hf2 as [Hr2 Hp2].
      destruct (close w1) as [res2 w2]. cbn [fst snd] in *. subst res2.
      replace (n <? a + 1) with true by (symmetry; apply Nat.ltb_lt; lia).
      cbn. split; [congruence|]. split; [congruence|].
      split; [reflexivity|exact Hp2].
    + destruct Hf as [-> Hp]. rewrite Hp in Hf2.
      destruct (close w1) as [res2 w2]. cbn [fst snd] in *.
      destruct (Nat.ltb_spec (n - a) 1) as [Hlt2|Hge2].
      * replace (n <? a + 1) with true by (symmetry; apply Nat.ltb_lt; lia).
        destruct Hf2 as [-> Hp2]. cbn.
        split; [congruence|]. split; [congruence|].
        split; [reflexivity|exact Hp2].
      * replace (n <? a + 1) with false by (symmetry; apply Nat.ltb_ge; lia).
        destruct Hf2 as [-> Hp2]. cbn.
        replace (n - (a + 1)) with (n - a - 1) by lia.
        split; [congruence|]. split; [congruence|].
        split; [reflexivity|exact Hp2].
  - destruct Hf as [-> Hp]. rewrite Hp in Hf2. destruct Hf2 as [Hr2 Hp2].
    destruct (close w1) as [res2 w2]. cbn [fst snd] in *. subst res2.
    cbn. split; [congruence|]. split; [congruence|].
    split; [reflexivity|exact Hp2].
Qed.

(** The file operations of [write_report], header block included when it
    is due. *)
Lemma counted_file_part (now : str) (it : nat) (present : bool)
    (stats : Stats) :
  counted ((if (it =? 0) || negb present then 1 + (3 + 1) else 0)
           + (1 + (List.length (section it stats) + 1)))
    ((if (it =? 0) || negb present then
        open_w ;; with_close (write_all (header now)) close
      else ret tt) ;;
     open_a ;;
     with_close (write_all (section it stats)) close).
Proof.
  apply counted_bind.
  - destruct ((it =? 0) || negb present); [|exact counted_ret].
    apply counted_bind; [apply counted_report_op|].
    apply (counted_with_close (counted_write_all (header now))).
  - apply counted_bind; [apply counted_report_op|].
    apply counted_with_close. apply counted_write_all.
Qed.

Lemma seq_assoc (a b c d : M unit) (w : World) :
  (a ;; b ;; c ;; d) w = ((a ;; b ;; c) ;; d) w.
Proof.
  unfold bind. destruct (a w) as [[[]|e] w1]; [|reflexivity].
  destruct (b w1) as [[[]|e] w2]; reflexivity.
Qed.

(** What follows a block of file operations runs when no operation of
    the block fails. *)
Lemma counted_then (k : nat) (c g : M unit) (w : World) :
  counted k c ->
  exists w',
    self w' = self w /\ trace w' = trace w
    /\ match pending_fault w with
       | Some (n, msg) =>
           if n <? k then (c ;; g) w = (Raise (Exception msg), w')
           else (c ;; g) w = g w'
       | None => (c ;; g) w = g w'
       end.
Proof.
  intros H. destruct (H w) as (Hs & Ht & Hf). unfold bind.
  destruct (c w) as [res w']. cbn [fst snd] in *.
  exists w'. split; [exact Hs|]. split; [exact Ht|].
  destruct (pending_fault w) as [[n msg]|].
  - destruct (n <? k); destruct Hf as [-> _]; reflexivity.
  - destruct Hf as [-> _]. reflexivity.
Qed.

(** The line [write_report] leaves on the console: the message of the
    file operation that failed when one of the operations of the call
    fails, the confirmation otherwise. *)
Lemma write_report_line (env : CycleEnv) (stats : Stats) (w : World) :
  trace (snd (write_report env stats w))
  = trace w
    ++ [Call m_write_report;
        Print match report_raises env with
              | Some (n, msg) =>
                  if n <? file_operations w stats then err_line msg
                  else ok_line env (iteration (self w))
              | None => ok_line env (iteration (self w))
              end].
Proof.
  destruct w as [[pos it] r pf tr].
  unfold write_report.
  unfold bind at 1. unfold call at 1, emit at 1.
  cbn [self report pending_fault trace].
  unfold bind at 1. unfold arm_fault at 1.
  cbn [self report pending_fault trace].
  unfold try_except.
  unfold bind at 1. unfold get_self at 1.
  cbn [self report pending_fault trace].
  unfold bind at 1. unfold report_exists at 1.
  cbn [self report pending_fault trace iteration].
  rewrite seq_assoc.
  match goal with
  | |- context [(?c ;; ?g) ?w1] =>
      destruct (@counted_then _ c g w1
                  (counted_file_part (clock_started env) it
                     match r with Some _ => true | None => false end stats))
        as (w' & _ & Ht & Hc)
  end.
  cbn [pending_fault trace] in Ht, Hc.
  unfold file_operations. cbn [self report iteration].
  replace ((it =? 0) || match r with Some _ => false | None => true end)
    with ((it =? 0) || negb match r with Some _ => true | None => false end)
    by (destruct r; reflexivity).
  destruct (report_raises env) as [[n msg]|].
  - destruct (n <? _); rewrite Hc; unfold print, emit; cbn [fst snd trace];
      rewrite Ht, <- app_assoc; reflexivity.
  - rewrite Hc. unfold print, emit. cbn [fst snd trace].
    rewrite Ht, <- app_assoc. reflexivity.
Qed.

End CountedOps.

(** ** The polling driver *)
Section DriverProperties.
Import Monitor Spec Aux.
Local Open Scope monitor_scope.
Context {U : UnicodeData} {C : Codec}.

Lemma stop_server_runs (env : CycleEnv) (w : World) :
  (forall argv, spawn_raises env argv = None) ->
  stop_server env w = (Ret tt, add_events w (stop_events env)).
Proof.
  intros Hok. destruct w as [s r pf tr].
  unfold stop_server, subprocess_run, bind, call, print, emit, ret.
  cbn -[stamp lit app]. rewrite !Hok. cbn -[stamp lit app].
  unfold add_events. cbn -[stamp lit app].
  rewrite <- !app_assoc. reflexivity.
Qed.

(** Whatever the subprocesses do, [stop_server] changes neither the
    monitor object nor the report, and raises no [KeyboardInterrupt]. *)
Lemma stop_server_frame (env : CycleEnv) (w : World) :
  self (snd (stop_server env w)) = self w
  /\ report (snd (stop_server env w)) = report w
  /\ fst (stop_server env w) <> Raise KeyboardInterrupt.
Proof.
  destruct w as [s r pf tr].
  unfold stop_server, subprocess_run, bind, call, print, emit, ret, raise.
  cbn -[stamp lit app].
  destruct (spawn_raises env _); cbn -[stamp lit app];
    [repeat split; discriminate|].
  destruct (spawn_raises env _); cbn -[stamp lit app];
    repeat split; discriminate.
Qed.

(** A cycle whose window is empty: nothing but the sleep. *)
Lemma cycle_idle (env : CycleEnv) (w w1 : World) :
  read_new_logs env w = (Ret [], w1) ->
  cycle env w
  = (Ret (interrupt env),
     add_events w1 (Sleep CHECK_INTERVAL :: interrupt_events env)).
Proof.
  intros Hread. destruct w1 as [s r pf tr].
  unfold cycle, try_except2, cycle_body. unfold bind at 1. rewrite Hread.
  unfold sleep, bind, emit, print, ret, raise, add_events, interrupt_events.
  cbn -[lit app CHECK_INTERVAL].
  destruct (interrupt env); cbn -[lit app CHECK_INTERVAL];
    rewrite <- ?app_assoc; reflexivity.
Qed.

(** A cycle whose window is not empty and not fatal. *)
Lemma cycle_processed (env : CycleEnv) (w w1 : World) (content : str) :
  read_new_logs env w = (Ret content, w1) ->
  content <> [] ->
  fst (check_for_errors content) = false ->
  exists ln pf2,
    cycle env w
    = (Ret (interrupt env),
       {| self := {| last_position := last_position (self w1);
                     iteration := iteration (self w1) + 1 |};
          report :=
            report (snd (write_report env (analyze_logs (clock env) content)
                           (add_events w1 [Call m_check_for_errors;
                                           Call m_analyze_logs])));
          pending_fault := pf2;
          trace :=
            trace w1 ++ [Call m_check_for_errors; Call m_analyze_logs;
                         Call m_write_report; Print ln; Sleep CHECK_INTERVAL]
                     ++ interrupt_events env |}).
Proof.
  intros Hread Hne Hcheck. destruct w1 as [s r pf tr].
  destruct content as [|c0 content]; [congruence|].
  unfold cycle, try_except2, cycle_body. unfold bind at 1. rewrite Hread.
  destruct (check_for_errors (c0 :: content)) as [has_error pat].
  cbn [fst] in Hcheck. subst has_error.
  unfold call. unfold bind at 1. unfold emit at 1.
  cbn [self report pending_fault trace].
  unfold bind at 1. unfold emit at 1.
  cbn [self report pending_fault trace].
  unfold bind at 1.
  set (w0 := add_events {| self := s; report := r;
                           pending_fault := pf; trace := tr |}
               [Call m_check_for_errors; Call m_analyze_logs]).
  replace {| self := s; report := r; pending_fault := pf;
             trace := (tr ++ [Call m_check_for_errors])
                      ++ [Call m_analyze_logs] |}
    with w0
    by (unfold w0, add_events; cbn [self report pending_fault trace];
        rewrite <- app_assoc; reflexivity).
  destruct (write_report_returns env
              (analyze_logs (clock env) (c0 :: content)) w0)
    as (ln & Hr & Hs & Ht & _).
  destruct (write_report env (analyze_logs (clock env) (c0 :: content)) w0)
    as [res w2].
  cbn [fst snd] in Hr, Hs, Ht. subst res. destruct w2 as [s2 r2 pf2 tr2].
  unfold w0 in Hs, Ht. cbn [self trace add_events] in Hs, Ht. subst s2 tr2.
  exists ln, pf2.
  unfold sleep, bind, get_self, set_self, emit, print, ret, raise,
    interrupt_events.
  cbn -[lit app CHECK_INTERVAL].
  destruct (interrupt env); cbn -[lit app CHECK_INTERVAL];
    rewrite <- ?app_assoc; reflexivity.
Qed.

(** A cycle whose window is fatal, when the two subprocesses can be
    started. *)
Lemma cycle_fatal (env : CycleEnv) (w w1 : World) (content : str)
    (pat : option str) :
  read_new_logs env w = (Ret content, w1) ->
  content <> [] ->
  check_for_errors content = (true, pat) ->
  (forall argv, spawn_raises env argv = None) ->
  exists ln1 ln2,
    cycle env w
    = (Ret true,
       add_events w1 ([Call m_check_for_errors; Print ln1]
                        ++ stop_events env ++ [Print ln2])).
Proof.
  intros Hread Hne Hcheck Hok. destruct w1 as [s r pf tr].
  destruct content as [|c0 content]; [congruence|].
  unfold cycle, try_except2, cycle_body. unfold bind at 1. rewrite Hread.
  rewrite Hcheck.
  unfold call, print. unfold bind at 1. unfold emit at 1.
  unfold bind at 1. unfold emit at 1.
  unfold bind at 1. rewrite stop_server_runs by exact Hok.
  unfold bind, emit, ret, add_events.
  cbn -[lit app stop_events].
  eexists _, _. rewrite <- !app_assoc. reflexivity.
Qed.

(** A cycle whose window is fatal, whatever the subprocesses do: the loop
    is not continued, the report and the iteration count are untouched,
    and neither [analyze_logs] nor [write_report] is entered. *)
Lemma cycle_fatal_any (env : CycleEnv) (w w1 : World) (content : str)
    (pat : option str) :
  read_new_logs env w = (Ret content, w1) ->
  content <> [] ->
  check_for_errors content = (true, pat) ->
  exists res evs,
    cycle env w = (res, add_events w1 (Call m_check_for_errors :: evs))
    /\ res <> Ret false
    /\ calls m_analyze_logs evs = 0
    /\ calls m_write_report evs = 0
    /\ calls m_check_for_errors evs = 0.
Proof.
  intros Hread Hne Hcheck. destruct w1 as [s r pf tr].
  destruct content as [|c0 content]; [congruence|].
  unfold cycle, try_except2, cycle_body. unfold bind at 1. rewrite Hread.
  rewrite Hcheck.
  unfold stop_server, subprocess_run, bind, call, print, emit, ret, raise,
    add_events.
  cbn -[lit app stamp].
  destruct (spawn_raises env [lit "pkill"; lit "-f"; lit "node.*dual-strategy"]);
    cbn -[lit app stamp];
    [|destruct (spawn_raises env [lit "lsof"; lit "-ti:3031"]);
      cbn -[lit app stamp]];
    eexists _, _; rewrite <- !app_assoc;
    (split; [reflexivity|]); repeat split; discriminate.
Qed.

(** The same, counting the entries into [stop_server]: at least one. *)
Lemma cycle_fatal_enters_stop_server (env : CycleEnv) (w w1 : World)
    (content : str) (pat : option str) :
  read_new_logs env w = (Ret content, w1) ->
  content <> [] ->
  check_for_errors content = (true, pat) ->
  exists res evs,
    cycle env w = (res, add_events w1 (Call m_check_for_errors :: evs))
    /\ res <> Ret false
    /\ calls m_analyze_logs evs = 0
    /\ calls m_write_report evs = 0
    /\ calls m_read_new_logs evs = 0
    /\ 1 <= calls m_stop_server evs.
Proof.
  intros Hread Hne Hcheck. destruct w1 as [s r pf tr].
  destruct content as [|c0 content]; [congruence|].
  unfold cycle, try_except2, cycle_body. unfold bind at 1. rewrite Hread.
  rewrite Hcheck.
  unfold stop_server, subprocess_run, bind, call, print, emit, ret, raise,
    add_events.
  cbn -[lit app stamp].
  destruct (spawn_raises env [lit "pkill"; lit "-f"; lit "node.*dual-strategy"]);
    cbn -[lit app stamp];
    [|destruct (spawn_raises env [lit "lsof"; lit "-ti:3031"]);
      cbn -[lit app stamp]];
    eexists _, _; rewrite <- !app_assoc;
    (split; [reflexivity|]);
    (split; [discriminate|]);
    (split; [reflexivity|]); (split; [reflexivity|]);
    (split; [reflexivity|]); cbn; lia.
Qed.

Lemma events_of_eq {A} (c : M A) (w : World) (evs : list event) :
  trace (snd (c w)) = trace w ++ evs -> events_of c w = evs.
Proof.
  intros H. unfold events_of. rewrite H, skipn_app, skipn_all, Nat.sub_diag.
  reflexivity.
Qed.

Lemma calls_app (m : method) (a b : list event) :
  calls m (a ++ b) = calls m a + calls m b.
Proof. unfold calls. rewrite filter_app, length_app. reflexivity. Qed.

Lemma calls_prints (m : method) (lines : list str) :
  calls m (List.map Print lines) = 0.
Proof. induction lines as [|l lines IH]; [reflexivity|exact IH]. Qed.

Lemma spawned_app (a b : list event) :
  spawned (a ++ b) = spawned a ++ spawned b.
Proof. unfold spawned. apply flat_map_app. Qed.

Lemma spawned_prints (lines : list str) : spawned (List.map Print lines) = [].
Proof. induction lines as [|l lines IH]; [reflexivity|exact IH]. Qed.

Lemma scan_first_prints (seen : bool) (lines : list str) (evs : list event) :
  scan_first seen (List.map Print lines ++ evs) = scan_first seen evs.
Proof. induction lines as [|l lines IH]; [reflexivity|exact IH]. Qed.

Lemma calls_interrupt_events (m : method) (env : CycleEnv) :
  calls m (interrupt_events env) = 0.
Proof. unfold interrupt_events. destruct (interrupt env); reflexivity. Qed.

Lemma spawned_interrupt_events (env : CycleEnv) :
  spawned (interrupt_events env) = [].
Proof. unfold interrupt_events. destruct (interrupt env); reflexivity. Qed.

Lemma scan_first_interrupt_events (seen : bool) (env : CycleEnv) :
  scan_first seen (interrupt_events env) = true.
Proof. unfold interrupt_events. destruct (interrupt env); reflexivity. Qed.

(** When no [analyze_logs] is entered the order holds trivially. *)
Lemma scan_first_no_analysis (evs : list event) :
  calls m_analyze_logs evs = 0 -> forall seen, scan_first seen evs = true.
Proof.
  induction evs as [|e evs IH]; intros H seen; [reflexivity|].
  destruct e as [[]| | |]; cbn in *; try discriminate; apply IH; exact H.
Qed.

(** The outcome of [read_new_logs] as the pair it is. *)
Lemma read_new_logs_pair (env : CycleEnv) (w : World) (content : str) :
  fst (read_new_logs env w) = Ret content ->
  exists pos lines,
    read_new_logs env w
    = (Ret content,
       {| self := {| last_position := pos; iteration := iteration (self w) |};
          report := report w; pending_fault := pending_fault w;
          trace := trace w ++ Call m_read_new_logs :: List.map Print lines |}).
Proof.
  intros H.
  destruct (read_new_logs_returns env w) as (c & pos & lines & Heq & _).
  rewrite Heq in H. cbn in H. injection H as ->.
  exists pos, lines. exact Heq.
Qed.

(** One turn of [while True]: the loop is left when the cycle says
    [break] or raises, and goes on with the next cycle otherwise. *)
Lemma loop_step (env : CycleEnv) (envs : list CycleEnv) (w0 : World) :
  loop (env :: envs) w0
  = match cycle env (snd (outside env w0)) with
    | (Ret true, w') => (Ret Stopped, w')
    | (Ret false, w') => loop envs w'
    | (Raise e, w') => (Raise e, w')
    end.
Proof.
  cbn [loop]. unfold bind at 1. unfold outside at 1. cbn [snd].
  unfold bind at 1.
  destruct (cycle env _) as [[[|]|e] w']; reflexivity.
Qed.

(** X20. When [pkill] cannot be started, the exception of the first
    [stop_server] reaches the catch-all of [run], which enters
    [stop_server] again; the second exception leaves [run]. *)
Lemma catch_all_enters_stop_server_again
    (env : CycleEnv) (w : World) (content : str) (pat : option str)
    (msg : str) :
  fst (read_new_logs env w) = Ret content ->
  content <> [] ->
  check_for_errors content = (true, pat) ->
  spawn_raises env [lit "pkill"; lit "-f"; lit "node.*dual-strategy"]
  = Some msg ->
  fst (cycle env w) = Raise (Exception msg)
  /\ calls m_stop_server (events_of (cycle env) w) = 2.
Proof.
  intros Hread Hne Hcheck Hspawn.
  destruct (read_new_logs_pair env w Hread) as (pos & lines & Heq).
  destruct content as [|c0 content]; [congruence|].
  assert (Hcycle : exists evs w',
             cycle env w = (Raise (Exception msg), w')
             /\ trace w'
                = trace w ++ Call m_read_new_logs :: List.map Print lines
                          ++ evs
             /\ calls m_stop_server evs = 2).
  { destruct w as [s r pf tr]. cbn [self report pending_fault trace] in Heq.
    unfold cycle, try_except2, cycle_body. unfold bind at 1. rewrite Heq.
    rewrite Hcheck.
    unfold stop_server, subprocess_run, bind, call, print, emit, ret, raise,
      add_events.
    cbn -[lit app stamp List.map]. rewrite Hspawn.
    cbn -[lit app stamp List.map]. rewrite ?Hspawn.
    cbn -[lit app stamp List.map].
    eexists _, _. split; [reflexivity|]. cbn [trace]. split.
    - repeat rewrite <- app_assoc. cbn [app]. reflexivity.
    - reflexivity. }
  destruct Hcycle as (evs & w' & Hcycle & Htrace & Hcalls).
  rewrite Hcycle. split; [reflexivity|].
  rewrite (events_of_eq (cycle env) w
             (Call m_read_new_logs :: List.map Print lines ++ evs))
    by (rewrite Hcycle; exact Htrace).
  change (Call m_read_new_logs :: List.map Print lines ++ evs)
    with ([Call m_read_new_logs] ++ List.map Print lines ++ evs).
  rewrite !calls_app, calls_prints, Hcalls. reflexivity.
Qed.

End DriverProperties.
Section DriverClaims.
Import Monitor Spec Aux.
Local Open Scope monitor_scope.
Context {U : UnicodeData} {C : Codec}.

(** In every cycle, whatever the environment does, [analyze_logs] is
    entered only after [check_for_errors]. *)
Lemma cycle_scans_first (env : CycleEnv) (w : World) :
  scan_first false (events_of (cycle env) w) = true.
Proof.
  destruct (read_new_logs_returns env w) as (content & pos & lines & Hread & _).
  destruct content as [|c0 content].
  - assert (Hev : events_of (cycle env) w
                  = Call m_read_new_logs :: List.map Print lines
                      ++ Sleep CHECK_INTERVAL :: interrupt_events env).
    { apply events_of_eq. rewrite (cycle_idle env w Hread).
      cbn -[CHECK_INTERVAL]. rewrite <- app_assoc. reflexivity. }
    rewrite Hev. cbn -[CHECK_INTERVAL]. rewrite scan_first_prints.
    cbn -[CHECK_INTERVAL]. apply scan_first_interrupt_events.
  - destruct (check_for_errors (c0 :: content)) as [[|] pat] eqn:Hcheck.
    + destruct (cycle_fatal_any env w Hread ltac:(discriminate) Hcheck)
        as (res & evs & Heq & _ & Hna & _ & _).
      assert (Hev : events_of (cycle env) w
                    = Call m_read_new_logs :: List.map Print lines
                        ++ Call m_check_for_errors :: evs).
      { apply events_of_eq. rewrite Heq. cbn. rewrite <- app_assoc.
        reflexivity. }
      rewrite Hev. cbn. rewrite scan_first_prints. cbn.
      apply scan_first_no_analysis. exact Hna.
    + destruct (cycle_processed env w Hread ltac:(discriminate)
                  ltac:(rewrite Hcheck; reflexivity))
        as (ln & pf2 & Heq).
      assert (Hev : events_of (cycle env) w
                    = Call m_read_new_logs :: List.map Print lines
                        ++ [Call m_check_for_errors; Call m_analyze_logs;
                            Call m_write_report; Print ln;
                            Sleep CHECK_INTERVAL]
                        ++ interrupt_events env).
      { apply events_of_eq. rewrite Heq. cbn -[CHECK_INTERVAL].
        rewrite <- app_assoc. reflexivity. }
      rewrite Hev. cbn -[CHECK_INTERVAL]. rewrite scan_first_prints.
      cbn -[CHECK_INTERVAL]. apply scan_first_interrupt_events.
Qed.

(** C1, amended: in a cycle whose window is not empty and matches a
    fatal pattern, [analyze_logs] and [write_report] are not entered, the
    report file and the iteration count stay as they were, [stop_server]
    is entered, and the loop is left without looking at later cycles; in
    every cycle the scan is entered before any aggregation; and when the
    termination commands can be started, [stop_server] is entered exactly
    once, runs its two commands once each, and the loop ends normally. *)
Theorem fatal_window_stops_without_report
    (env : CycleEnv) (w : World) (content : str) (pat : option str) :
  fst (read_new_logs env w) = Ret content ->
  content <> [] ->
  check_for_errors content = (true, pat) ->
  calls m_analyze_logs (events_of (cycle env) w) = 0
  /\ calls m_write_report (events_of (cycle env) w) = 0
  /\ report (snd (cycle env w)) = report w
  /\ iteration (self (snd (cycle env w))) = iteration (self w)
  /\ 1 <= calls m_stop_server (events_of (cycle env) w)
  /\ (forall env' w', scan_first false (events_of (cycle env') w') = true)
  /\ (forall envs w0,
         snd (outside env w0) = w ->
         loop (env :: envs) w0
         = (match fst (cycle env w) with
            | Ret _ => Ret Stopped
            | Raise e => Raise e
            end, snd (cycle env w)))
  /\ ((forall argv, spawn_raises env argv = None) ->
      fst (cycle env w) = Ret true
      /\ calls m_stop_server (events_of (cycle env) w) = 1
      /\ spawned (events_of (cycle env) w)
         = [[lit "pkill"; lit "-f"; lit "node.*dual-strategy"];
            [lit "lsof"; lit "-ti:3031"]]
      /\ (forall envs w0,
             snd (outside env w0) = w ->
             loop (env :: envs) w0 = (Ret Stopped, snd (cycle env w)))).
Proof.
  intros Hread Hne Hcheck.
  destruct (read_new_logs_pair env w Hread) as (pos & lines & Heq).
  destruct (cycle_fatal_enters_stop_server env w Heq Hne Hcheck)
    as (res & evs & Hany & Hres & Hna & Hnw & Hnr & Hstop).
  assert (Hevs : events_of (cycle env) w
                 = [Call m_read_new_logs] ++ List.map Print lines
                     ++ [Call m_check_for_errors] ++ evs).
  { apply events_of_eq. rewrite Hany. cbn. rewrite <- app_assoc.
    reflexivity. }
  assert (Hleft : forall envs w0,
             snd (outside env w0) = w ->
             loop (env :: envs) w0
             = (match fst (cycle env w) with
                | Ret _ => Ret Stopped
                | Raise e => Raise e
                end, snd (cycle env w))).
  { intros envs w0 <-. rewrite loop_step. rewrite Hany in *.
    destruct res as [[|]|e]; [reflexivity|congruence|reflexivity]. }
  split; [rewrite Hevs, !calls_app, calls_prints, Hna; reflexivity|].
  split; [rewrite Hevs, !calls_app, calls_prints, Hnw; reflexivity|].
  split; [rewrite Hany; reflexivity|].
  split; [rewrite Hany; reflexivity|].
  split; [rewrite Hevs, !calls_app, calls_prints; cbn; lia|].
  split; [intros env' w'; apply cycle_scans_first|].
  split; [exact Hleft|].
  intros Hok.
  destruct (cycle_fatal env w Heq Hne Hcheck Hok) as (ln1 & ln2 & Hcycle).
  assert (Hev : events_of (cycle env) w
                = [Call m_read_new_logs] ++ List.map Print lines
                    ++ [Call m_check_for_errors; Print ln1]
                    ++ stop_events env ++ [Print ln2]).
  { apply events_of_eq. rewrite Hcycle. cbn -[stop_events].
    rewrite <- app_assoc. reflexivity. }
  assert (Hend : fst (cycle env w) = Ret true)
    by (rewrite Hcycle; reflexivity).
  split; [exact Hend|].
  rewrite Hev, !calls_app, !spawned_app, !calls_prints, !spawned_prints.
  do 2 (split; [reflexivity|]).
  intros envs w0 Hw0. rewrite (Hleft envs w0 Hw0), Hend. reflexivity.
Qed.

(** A failed read: the empty string, one line on the console. *)
Lemma read_new_logs_failure (env : CycleEnv) (w : World)
    (st : log_stage) (msg : str) :
  log_raises (log env) = Some (st, msg) ->
  exists pos,
    read_new_logs env w
    = (Ret [],
       {| self := {| last_position := pos; iteration := iteration (self w) |};
          report := report w; pending_fault := pending_fault w;
          trace := trace w
                   ++ [Call m_read_new_logs;
                       Print (Emoji.cross_mark
                                :: lit " Error reading log: " ++ msg)] |}).
Proof.
  intros Hf. destruct w as [[pos it] r pf tr].
  destruct env as [[bytes raises] ? ? ? ? ? ? ? ? ?]. cbn in Hf. subst raises.
  unfold read_new_logs, try_except, with_close, log_step, bind, call, print,
    emit, get_self, set_self, ret, raise.
  destruct st; cbn -[lit app]; rewrite <- ?app_assoc; eexists; reflexivity.
Qed.

(** When the first operation on the report file fails, the file is left
    as it was and the error is printed. *)
Lemma write_report_first_op_fails (env : CycleEnv) (stats : Stats)
    (w : World) (msg : str) :
  report_raises env = Some (0, msg) ->
  fst (write_report env stats w) = Ret tt
  /\ report (snd (write_report env stats w)) = report w
  /\ events_of (write_report env stats) w
     = [Call m_write_report; Print (err_line msg)].
Proof.
  intros Hf. destruct w as [[pos it] r pf tr].
  assert (Heq : write_report env stats
                  {| self := {| last_position := pos; iteration := it |};
                     report := r; pending_fault := pf; trace := tr |}
                = (Ret tt,
                   {| self := {| last_position := pos; iteration := it |};
                      report := r; pending_fault := Some (0, msg);
                      trace := tr ++ [Call m_write_report;
                                      Print (Emoji.cross_mark
                                               :: lit " Error writing report: "
                                               ++ msg)] |})).
  { unfold write_report. rewrite Hf.
    unfold try_except, bind, with_close, call, print, emit, arm_fault,
      get_self, report_exists, open_w, open_a, close, report_op, ret.
    cbn -[write_all section header lit app].
    destruct ((it =? 0) || negb match r with Some _ => true | None => false end);
      cbn -[write_all section header lit app];
      rewrite <- app_assoc; reflexivity. }
  rewrite Heq. repeat split.
  apply events_of_eq. rewrite Heq. reflexivity.
Qed.

(** C7: a failed log read makes [read_new_logs] return the empty string
    and print the error, and the cycle then only sleeps; [write_report]
    never raises, whichever of its file operations fails: it prints one
    line, which is the message of the operation that failed whenever one
    of the operations of the call fails (the first or any later one), and
    the confirmation only when none fails; with either failure the cycle
    starts no subprocess, does not enter [stop_server] and, unless the
    user interrupts the sleep, returns to the loop, which goes on with
    the next cycle. *)
Theorem io_failures_do_not_stop_the_loop (env : CycleEnv) (w : World) :
  (forall st msg,
      log_raises (log env) = Some (st, msg) ->
      fst (read_new_logs env w) = Ret []
      /\ events_of (cycle env) w
         = [Call m_read_new_logs;
            Print (Emoji.cross_mark :: lit " Error reading log: " ++ msg);
            Sleep CHECK_INTERVAL] ++ interrupt_events env
      /\ calls m_stop_server (events_of (cycle env) w) = 0
      /\ spawned (events_of (cycle env) w) = []
      /\ fst (cycle env w) = Ret (interrupt env))
  /\ (forall stats w0,
         fst (write_report env stats w0) = Ret tt
         /\ exists ln,
              events_of (write_report env stats) w0
              = [Call m_write_report; Print ln]
              /\ ((exists it, ln = ok_line env it)
                  \/ (exists n msg, report_raises env = Some (n, msg)
                                    /\ ln = err_line msg)))
  /\ (forall stats w0 msg,
         report_raises env = Some (0, msg) ->
         events_of (write_report env stats) w0
         = [Call m_write_report; Print (err_line msg)])
  /\ (forall content,
         fst (read_new_logs env w) = Ret content ->
         content <> [] ->
         fst (check_for_errors content) = false ->
         calls m_stop_server (events_of (cycle env) w) = 0
         /\ spawned (events_of (cycle env) w) = []
         /\ In (Sleep CHECK_INTERVAL) (events_of (cycle env) w)
         /\ fst (cycle env w) = Ret (interrupt env))
  /\ (fst (cycle env w) = Ret false ->
      forall envs w0,
        snd (outside env w0) = w ->
        loop (env :: envs) w0 = loop envs (snd (cycle env w)))
  /\ (forall stats w0 n msg,
         report_raises env = Some (n, msg) ->
         (n < file_operations w0 stats ->
          events_of (write_report env stats) w0
          = [Call m_write_report; Print (err_line msg)])
         /\ (file_operations w0 stats <= n ->
             events_of (write_report env stats) w0
             = [Call m_write_report;
                Print (ok_line env (iteration (self w0)))])).
Proof.
  split; [|split; [|split; [|split; [|split]]]].
  - intros st msg Hf.
    destruct (read_new_logs_failure env w Hf) as (pos & Hread).
    rewrite Hread. split; [reflexivity|].
    assert (Hev : events_of (cycle env) w
                  = [Call m_read_new_logs;
                     Print (Emoji.cross_mark
                              :: lit " Error reading log: " ++ msg);
                     Sleep CHECK_INTERVAL] ++ interrupt_events env).
    { apply events_of_eq. rewrite (cycle_idle env w Hread).
      cbn -[CHECK_INTERVAL lit app]. rewrite <- app_assoc. reflexivity. }
    rewrite Hev, (cycle_idle env w Hread).
    rewrite calls_app, spawned_app, calls_interrupt_events,
      spawned_interrupt_events.
    repeat split.
  - intros stats w0.
    destruct (write_report_returns env stats w0) as (ln & Hr & _ & Ht & Hln).
    split; [exact Hr|]. exists ln. split; [|exact Hln].
    apply events_of_eq. exact Ht.
  - intros stats w0 msg Hf.
    apply (write_report_first_op_fails env stats w0 Hf).
  - intros content Hread Hne Hcheck.
    destruct (read_new_logs_pair env w Hread) as (pos & lines & Heq).
    destruct (cycle_processed env w Heq Hne Hcheck) as (ln & pf2 & Hcycle).
    assert (Hev : events_of (cycle env) w
                  = [Call m_read_new_logs] ++ List.map Print lines
                      ++ [Call m_check_for_errors; Call m_analyze_logs;
                          Call m_write_report; Print ln;
                          Sleep CHECK_INTERVAL]
                      ++ interrupt_events env).
    { apply events_of_eq. rewrite Hcycle. cbn -[CHECK_INTERVAL].
      rewrite <- app_assoc. reflexivity. }
    rewrite Hev, Hcycle.
    rewrite !calls_app, !spawned_app, calls_prints, spawned_prints,
      calls_interrupt_events, spawned_interrupt_events.
    repeat split.
    apply in_or_app. right. apply in_or_app. right.
    apply in_or_app. left. cbn -[CHECK_INTERVAL]. tauto.
  - intros Hgo envs w0 <-. rewrite loop_step.
    destruct (cycle env (snd (outside env w0))) as [[[|]|e] w'];
      cbn in Hgo; try discriminate. reflexivity.
  - intros stats w0 n msg Hf.
    pose proof (write_report_line env stats w0) as Hline.
    rewrite Hf in Hline. split; intros Hn; apply events_of_eq.
    + replace (n <? file_operations w0 stats) with true in Hline
        by (symmetry; apply Nat.ltb_lt; exact Hn).
      exact Hline.
    + replace (n <? file_operations w0 stats) with false in Hline
        by (symmetry; apply Nat.ltb_ge; exact Hn).
      exact Hline.
Qed.

(** C10: a cycle whose window is not empty and not fatal adds exactly one
    to the iteration count, also when the report write fails and when the
    sleep is interrupted; a cycle whose window is empty leaves the count
    alone; and the section such a cycle writes, when it can, is numbered
    with the count of windows processed so far plus one. *)
Theorem iteration_counts_processed_windows
    (env : CycleEnv) (w : World) (content : str) :
  fst (read_new_logs env w) = Ret content ->
  (content = [] ->
   iteration (self (snd (cycle env w))) = iteration (self w))
  /\ (content <> [] ->
      fst (check_for_errors content) = false ->
      iteration (self (snd (cycle env w))) = iteration (self w) + 1
      /\ (report_raises env = None ->
          exists before after,
            report (snd (cycle env w))
            = Some (before
                    ++ line (line (lit "## Scan #"
                                     ++ str_of_nat (iteration (self w) + 1)
                                     ++ lit " - " ++ clock env))
                    ++ after))).
Proof.
  intros Hread.
  destruct (read_new_logs_pair env w Hread) as (pos & lines & Heq).
  split.
  - intros ->. rewrite (cycle_idle env w Heq). reflexivity.
  - intros Hne Hcheck.
    destruct (cycle_processed env w Heq Hne Hcheck) as (ln & pf2 & Hcycle).
    rewrite Hcycle. split; [reflexivity|].
    intros Hok. cbn [snd report].
    rewrite (write_report_clean env _ _ Hok).
    eexists _, (written (List.tl (section (iteration (self w))
                                    (analyze_logs (clock env) content)))).
    apply f_equal. apply f_equal2; reflexivity.
Qed.

End DriverClaims.
Section ReportClaims.
Import Monitor Spec Aux.
Local Open Scope monitor_scope.
Context {U : UnicodeData} {C : Codec}.

Lemma outside_kept (env : CycleEnv) (w : World) :
  report_removed env = false -> outside env w = (Ret tt, w).
Proof.
  intros H. destruct w. unfold outside. cbn. rewrite H. reflexivity.
Qed.






(** C6 does not hold of the code: the count of cancelled orders is in the
    snapshot but no line of the section depends on it. The window
    ["Order cancelled BTCUSDT"] is counted as one cancelled order and its
    trading-activity block is the block of an empty window. *)
Theorem cancelled_orders_are_not_rendered :
  (forall it stats n, section it (with_cancelled n stats) = section it stats)
  /\ orders_cancelled (analyze_orders (lit "Order cancelled BTCUSDT")) = 1
  /\ orders_block (analyze_orders (lit "Order cancelled BTCUSDT"))
     = orders_block (analyze_orders []).
Proof.
  split; [intros it stats n; reflexivity|].
  split; reflexivity.
Qed.

End ReportClaims.

(** ** The properties on concrete runs *)

Lemma failure_filters_count_occurrences_witness :
  Dict.get (lit "Not near POC")
    (Sample.distribution_map
       (Monitor.analyze_logs (U := Ascii.tables) [] Sample.three_rejections))
  = Some 3
  /\ Dict.get (lit "Volume spike")
       (Sample.distribution_map
          (Monitor.analyze_logs (U := Ascii.tables) [] Sample.three_rejections))
     = None.
Proof.
  split.
  - refine (proj1 (@failure_filters_count_occurrences Ascii.tables
                     Monitor.distribution_filters Sample.distribution_map
                     (or_introl eq_refl)
                     (Re.t "Not in distribution (price not near POC)")
                     (lit "Not near POC") (or_introl eq_refl)
                     [] Sample.three_rejections 3 _) (Nat.lt_0_succ 2)).
    exact (@count_text_has_exactly Ascii.tables
             (lit "Not in distribution (price not near POC)")
             Sample.three_rejections ltac:(discriminate)).
  - refine (proj2 (@failure_filters_count_occurrences Ascii.tables
                     Monitor.distribution_filters Sample.distribution_map
                     (or_introl eq_refl)
                     (Re.t "Volume spike too strong")
                     (lit "Volume spike") (or_intror (or_introl eq_refl))
                     [] Sample.three_rejections 0 _) eq_refl).
    exact (@count_text_has_exactly Ascii.tables
             (lit "Volume spike too strong")
             Sample.three_rejections ltac:(discriminate)).
Defined.

Lemma fatal_scan_ignores_case_and_list_order_wins_witness :
  Monitor.check_for_errors (U := Ascii.tables) Sample.two_fatal
  = (true, Some (lit "ECONNREFUSED")).
Proof.
  assert (Hfirst : Spec.occurs (U := Ascii.tables)
                     (Spec.Literal (lit "ECONNREFUSED")) Sample.two_fatal).
  { exists (lit "sigkill sent after "), (lit "econnrefused"), [].
    split; reflexivity. }
  assert (Hlast : Spec.occurs (U := Ascii.tables)
                    (Spec.Literal (lit "SIGKILL")) Sample.two_fatal).
  { exists [], (lit "sigkill"), (lit " sent after econnrefused").
    split; reflexivity. }
  destruct (proj2 (proj2 (proj2 (@fatal_scan_ignores_case_and_list_order_wins
                                   Ascii.tables Sample.two_fatal)))
              0 7
              (lit "ECONNREFUSED") (Spec.Literal (lit "ECONNREFUSED"))
              (lit "SIGKILL") (Spec.Literal (lit "SIGKILL"))
              ltac:(repeat constructor) eq_refl eq_refl Hfirst Hlast)
    as (k & namek & shk & Hle & Hk & _ & _ & Hres & _).
  rewrite Hres.
  destruct k as [|k]; [|exfalso; inversion Hle].
  injection Hk as <- _. reflexivity.
Defined.

Lemma fatal_window_stops_without_report_witness :
  Spec.calls Monitor.m_stop_server
    (Spec.events_of
       (Monitor.cycle (U := Ascii.tables) (C := Ascii.codec)
          (Ascii.quiet_env Sample.fatal_log))
       (Monitor.boot None))
  = 1.
Proof.
  refine (proj1 (proj2
            (proj2 (proj2 (proj2 (proj2 (proj2 (proj2 (proj2
               (@fatal_window_stops_without_report
                  Ascii.tables Ascii.codec
                  (Ascii.quiet_env Sample.fatal_log)
                  (Monitor.boot None)
                  (lit Sample.fatal_log)
                  (Some (lit "ECONNREFUSED"))
                  eq_refl _ eq_refl)))))))
               (fun _ => eq_refl)))).
  discriminate.
Defined.

(** C1 as written fails when the termination command cannot be started:
    the window is fatal, [stop_server] raises at [pkill], the catch-all
    handler of [run] enters [stop_server] a second time, and the second
    exception leaves the cycle. *)
Lemma stop_server_entered_twice_when_pkill_is_missing :
  fst (Monitor.read_new_logs (C := Ascii.codec) Cases.no_pkill_env
         (Monitor.boot None))
  = Monitor.Ret (lit Sample.fatal_log)
  /\ lit Sample.fatal_log <> []
  /\ fst (Monitor.check_for_errors (U := Ascii.tables) (lit Sample.fatal_log))
     = true
  /\ Spec.calls Monitor.m_stop_server
       (Spec.events_of
          (Monitor.cycle (U := Ascii.tables) (C := Ascii.codec)
             Cases.no_pkill_env)
          (Monitor.boot None))
     = 2
  /\ Spec.calls Monitor.m_stop_server
       (Spec.events_of
          (Monitor.cycle (U := Ascii.tables) (C := Ascii.codec)
             Cases.no_pkill_env)
          (Monitor.boot None))
     <> 1
  /\ fst (Monitor.cycle (U := Ascii.tables) (C := Ascii.codec)
            Cases.no_pkill_env (Monitor.boot None))
     = Monitor.Raise (Monitor.Exception (lit "No such file or directory")).
Proof.
  split; [reflexivity|]. split; [discriminate|]. split; [reflexivity|].
  split; [reflexivity|]. split; [discriminate|reflexivity].
Qed.

Lemma io_failures_do_not_stop_the_loop_witness :
  fst (Monitor.cycle (U := Ascii.tables) (C := Ascii.codec)
         Sample.unreadable_env (Monitor.boot None))
  = Monitor.Ret false
  /\ fst (Monitor.cycle (U := Ascii.tables) (C := Ascii.codec)
            Sample.unwritable_env (Monitor.boot None))
     = Monitor.Ret false
  /\ Spec.events_of
       (Monitor.write_report Cases.header_write_fails_env
          (Monitor.analyze_logs (U := Ascii.tables) []
             (lit Sample.one_line_log)))
       (Monitor.boot None)
     = [Monitor.Call Monitor.m_write_report;
        Monitor.Print (Aux.err_line (lit "No space left on device"))].
Proof.
  split; [|split].
  - apply (proj1 (@io_failures_do_not_stop_the_loop
                    Ascii.tables Ascii.codec
                    Sample.unreadable_env (Monitor.boot None))
             Monitor.AtOpen (lit "Permission denied") eq_refl).
  - apply (proj1 (proj2 (proj2 (proj2 (@io_failures_do_not_stop_the_loop
                                         Ascii.tables Ascii.codec
                                         Sample.unwritable_env
                                         (Monitor.boot None)))))
             (lit Sample.one_line_log) eq_refl).
    + discriminate.
    + reflexivity.
  - apply (proj1 (proj2 (proj2 (proj2 (proj2
                   (proj2 (@io_failures_do_not_stop_the_loop
                             Ascii.tables Ascii.codec
                             Cases.header_write_fails_env
                             (Monitor.boot None))))))
                   (Monitor.analyze_logs (U := Ascii.tables) []
                      (lit Sample.one_line_log))
                   (Monitor.boot None) 1 (lit "No space left on device")
                   eq_refl)).
    vm_compute. lia.
Defined.

Lemma iteration_counts_processed_windows_witness :
  Monitor.iteration
    (Monitor.self (snd (Monitor.cycle (U := Ascii.tables) (C := Ascii.codec)
                          Sample.unwritable_env (Monitor.boot None))))
  = 0 + 1.
Proof.
  apply (proj2 (@iteration_counts_processed_windows
                  Ascii.tables Ascii.codec
                  Sample.unwritable_env (Monitor.boot None)
                  (lit Sample.one_line_log) eq_refl)).
  - discriminate.
  - reflexivity.
Defined.



(** A first cycle whose report write fails and a second one that writes:
    the only section of the report is scan number 2. *)
Example scan_number_counts_the_failed_write :
  Monitor.report
    (snd (Monitor.loop (U := Ascii.tables) (C := Ascii.codec)
            [Sample.unwritable_env; Sample.grown_env] (Monitor.boot None)))
  = Some (Spec.header_block (lit "2025-01-01 09:00:01")
          ++ Spec.written
               (Monitor.section 1
                  (Monitor.analyze_logs (U := Ascii.tables)
                     (lit "2025-01-01 09:00:00") (lit " and ETHUSDT")))).
Proof. vm_compute. reflexivity. Qed.

(** The same window in upper and in lower case is fatal either way. *)
Example fatal_in_any_case :
  Monitor.check_for_errors (U := Ascii.tables) (lit "econnrefused")
  = (true, Some (lit "ECONNREFUSED"))
  /\ Monitor.check_for_errors (U := Ascii.tables)
       (lit "cannot CONNECT to the Database")
     = (true, Some (lit "Cannot connect to.*database"))
  /\ Monitor.check_for_errors (U := Ascii.tables) (lit "all quiet")
     = (false, None).
Proof. repeat split. Qed.

(** One analysis and one detection, no failed filter. *)
Example distribution_detected_once :
  Monitor.distribution
    (Monitor.analyze_cycle_rider (U := Ascii.tables) Sample.one_detection)
  = {| Monitor.analyzed := 1; Monitor.detected := 1;
       Monitor.failed_filters := [] |}.
Proof. reflexivity. Qed.

(** Three rejections are counted under their label. *)
Example three_rejections_counted :
  Sample.distribution_map
    (Monitor.analyze_logs (U := Ascii.tables) [] Sample.three_rejections)
  = [(lit "Not near POC", 3)].
Proof. reflexivity. Qed.

(** A window without any known pattern: every count is zero, every map
    is empty, and the section is written all the same. *)
Example unknown_window_renders_zeros :
  let stats := Monitor.analyze_logs (U := Ascii.tables) [] (lit "hello") in
  Monitor.orders stats
  = {| Monitor.orders_placed := 0; Monitor.orders_filled := 0;
       Monitor.orders_cancelled := 0; Monitor.positions_opened := 0;
       Monitor.positions_closed := 0 |}
  /\ Monitor.box_grades (Monitor.box_range stats) = []
  /\ Monitor.errors_block (Monitor.errs stats) = []
  /\ List.length (Monitor.section 0 stats) = 21.
Proof. repeat split. Qed.

(** * Further properties of the code *)

(** ** [read_new_logs] over several calls *)
Section ReaderComposition.
Import Monitor.
Context {C : Codec}.

(** X1. On a log that only grows, two successive reads deliver the file in
    order: the second read returns exactly the bytes appended since the
    first, decoded, and leaves the cursor at the new end. *)
Theorem reads_compose_over_growth
    (env1 env2 : CycleEnv) (w : World) (extra : list byte) :
  log_raises (log env1) = None ->
  log_raises (log env2) = None ->
  last_position (self w) <= List.length (log_bytes (log env1)) ->
  log_bytes (log env2) = log_bytes (log env1) ++ extra ->
  fst (read_new_logs env2 (snd (read_new_logs env1 w))) = Ret (decode extra)
  /\ last_position
       (self (snd (read_new_logs env2 (snd (read_new_logs env1 w)))))
     = List.length (log_bytes (log env2)).
Proof.
  intros Hok1 Hok2 Hle Hgrow.
  destruct w as [[pos it] r pf tr].
  destruct env1 as [[bytes1 raises1] ? ? ? ? ? ? ? ? ?].
  destruct env2 as [[bytes2 raises2] ? ? ? ? ? ? ? ? ?].
  cbn in Hok1, Hok2, Hle, Hgrow. subst raises1 raises2 bytes2. cbn.
  rewrite length_skipn.
  replace (pos + (List.length bytes1 - pos)) with (List.length bytes1 + 0)
    by lia.
  rewrite skipn_app, skipn_all2 by lia.
  replace (List.length bytes1 + 0 - List.length bytes1) with 0 by lia.
  cbn. rewrite length_app. split; [reflexivity|lia].
Qed.

(** X2. A log that is not longer than the cursor (truncated or rotated)
    is not read at all: the call returns the empty string and leaves the
    cursor where it was, whatever the file now holds. *)
Theorem shrunk_log_is_not_read (env : CycleEnv) (w : World) :
  List.length (log_bytes (log env)) <= last_position (self w) ->
  fst (read_new_logs env w) = Ret []
  /\ last_position (self (snd (read_new_logs env w)))
     = last_position (self w).
Proof. apply read_past_the_end. Qed.

(** X3. When closing the file raises, the window is lost: the call returns the
    empty string although the cursor has moved past the bytes read, and a
    later read of the same file returns nothing either. *)
Theorem close_failure_loses_the_window
    (env1 env2 : CycleEnv) (w : World) (msg : str) :
  log_raises (log env1) = Some (AtClose, msg) ->
  log_bytes (log env2) = log_bytes (log env1) ->
  fst (read_new_logs env1 w) = Ret []
  /\ last_position (self (snd (read_new_logs env1 w)))
     = last_position (self w)
       + List.length (skipn (last_position (self w)) (log_bytes (log env1)))
  /\ fst (read_new_logs env2 (snd (read_new_logs env1 w))) = Ret [].
Proof.
  intros Hf Hsame.
  destruct (@read_past_the_end C env2 (snd (read_new_logs env1 w)))
    as [Hnil _].
  - rewrite Hsame.
    destruct w as [[pos it] r pf tr].
    destruct env1 as [[bytes1 raises1] ? ? ? ? ? ? ? ? ?].
    cbn in Hf. subst raises1. cbn. rewrite length_skipn. lia.
  - split; [|split; [|exact Hnil]].
    + destruct w as [[pos it] r pf tr].
      destruct env1 as [[bytes1 raises1] ? ? ? ? ? ? ? ? ?].
      cbn in Hf. subst raises1. reflexivity.
    + destruct w as [[pos it] r pf tr].
      destruct env1 as [[bytes1 raises1] ? ? ? ? ? ? ? ? ?].
      cbn in Hf. subst raises1. reflexivity.
Qed.

End ReaderComposition.

(** ** [check_for_errors]: what the verdict means *)
Section VerdictProperties.
Import Re Monitor Spec Aux.
Context {U : UnicodeData}.

Lemma first_match_verdict (content : str) :
  forall ps,
    (fst (first_match ps content) = true
     <-> exists p, In p ps /\ search_i p content = true)
    /\ (forall s,
           snd (first_match ps content) = Some s ->
           exists p, In p ps /\ source p = s /\ search_i p content = true)
    /\ (snd (first_match ps content) = None
        <-> fst (first_match ps content) = false).
Proof.
  induction ps as [|q ps (IH1 & IH2 & IH3)]; cbn.
  - split; [|split].
    + split; [discriminate|intros (p & [] & _)].
    + intros s H. discriminate.
    + split; reflexivity.
  - destruct (search_i q content) eqn:Hq; cbn.
    + split; [|split].
      * split; [|reflexivity].
        intros _. exists q. split; [left; reflexivity|exact Hq].
      * intros s [= <-]. exists q.
        split; [left; reflexivity|]. split; [reflexivity|exact Hq].
      * split; discriminate.
    + split; [|split].
      * rewrite IH1. split.
        -- intros (p & Hin & Hp). exists p. split; [right; exact Hin|exact Hp].
        -- intros (p & [->|Hin] & Hp); [congruence|]. exists p. split; assumption.
      * intros s Hs. destruct (IH2 s Hs) as (p & Hin & Hsrc & Hp).
        exists p. repeat split; [right; exact Hin|exact Hsrc|exact Hp].
      * exact IH3.
Qed.

(** X4. The verdict is fatal exactly when some pattern of the list matches
    the window; the pattern reported is then the text of a listed pattern
    that matches; and a pattern is reported exactly with a fatal verdict. *)
Theorem verdict_names_a_matching_pattern (content : str) :
  (fst (check_for_errors content) = true
   <-> exists p, In p error_patterns /\ search_i p content = true)
  /\ (forall s,
         snd (check_for_errors content) = Some s ->
         exists p, In p error_patterns /\ source p = s
                   /\ search_i p content = true)
  /\ (snd (check_for_errors content) = None
      <-> fst (check_for_errors content) = false).
Proof. apply first_match_verdict. Qed.

Lemma greedy_extends (p : char -> bool) (k : str -> str -> option mres)
    (post : str) :
  (forall acc s, k acc s <> None -> k acc (s ++ post) <> None) ->
  forall s acc,
    greedy p k acc s <> None -> greedy p k acc (s ++ post) <> None.
Proof.
  intros Hk. induction s as [|c s IH]; intros acc H.
  - cbn in H. cbn [app]. apply greedy_falls_back. apply (Hk acc []). exact H.
  - cbn in H. cbn [app greedy]. destruct (p c).
    + destruct (greedy p k (c :: acc) s) eqn:Hg.
      * assert (Hext : greedy p k (c :: acc) (s ++ post) <> None)
          by (apply IH; congruence).
        destruct (greedy p k (c :: acc) (s ++ post)); [discriminate|].
        congruence.
      * destruct (greedy p k (c :: acc) (s ++ post)); [discriminate|].
        apply (Hk acc (c :: s)). exact H.
    + apply (Hk acc (c :: s)). exact H.
Qed.

(** A match at the start of a text is still a match (perhaps a longer
    one) when more text follows. *)
Lemma match_here_extends (post : str) :
  forall r opens caps acc s,
    match_here r opens caps acc s <> None ->
    match_here r opens caps acc (s ++ post) <> None.
Proof.
  induction r as [|pc r IH]; intros opens caps acc s H; [discriminate|].
  destruct pc as [a|a|a| |]; cbn [match_here] in *.
  - destruct s as [|c s]; [congruence|]. cbn [app].
    destruct (test a c); [apply IH; exact H|congruence].
  - apply greedy_extends; [|exact H]. intros acc' s'. apply IH.
  - destruct s as [|c s]; [congruence|]. cbn [app].
    destruct (test a c); [|congruence].
    apply greedy_extends; [|exact H]. intros acc' s'. apply IH.
  - apply IH. exact H.
  - destruct opens as [|n opens]; [congruence|]. apply IH. exact H.
Qed.

Lemma search_extends (r : regex) (post : str) :
  forall s, search r s <> None -> search r (s ++ post) <> None.
Proof.
  induction s as [|c s IH]; intros H.
  - cbn in H. destruct (match_at r []) eqn:Hm; [|congruence].
    change ([] ++ post) with post.
    apply (search_app r []). unfold match_at in *.
    apply (match_here_extends post r [] [] [] []). congruence.
  - cbn [search] in H. cbn [app search].
    destruct (match_at r (c :: s)) eqn:Hm.
    + pose proof (match_here_extends post r [] [] [] (c :: s)) as He.
      unfold match_at in *. cbn [app] in He.
      destruct (match_here r [] [] [] (c :: s ++ post));
        [discriminate|]. exfalso. apply He; congruence.
    + destruct (match_at r (c :: s ++ post)); [discriminate|].
      apply IH. exact H.
Qed.

Lemma search_prepends (r : regex) (pre s : str) :
  search r s <> None -> search r (pre ++ s) <> None.
Proof.
  intros H. induction pre as [|c pre IH]; [exact H|].
  cbn [app search]. destruct (match_at r (c :: pre ++ s)); [discriminate|].
  exact IH.
Qed.

(** X5. A fatal window stays fatal in any context: log text written before
    or after it in the same window cannot hide it. *)
Theorem fatal_window_stays_fatal_in_context (pre content post : str) :
  fst (check_for_errors content) = true ->
  fst (check_for_errors (pre ++ content ++ post)) = true.
Proof.
  intros H.
  apply (proj1 (first_match_verdict content error_patterns)) in H.
  destruct H as (p & Hin & Hp).
  apply (proj1 (first_match_verdict (pre ++ content ++ post) error_patterns)).
  exists p. split; [exact Hin|].
  unfold search_i in *.
  destruct (search (ignorecase (compiled p)) content) eqn:Hs; [|discriminate].
  destruct (search (ignorecase (compiled p)) (pre ++ content ++ post)) eqn:Hs';
    [reflexivity|].
  exfalso. revert Hs'. apply search_prepends. apply search_extends.
  congruence.
Qed.

End VerdictProperties.

(** ** The failure maps, entry by entry *)
Section FailureMapShape.
Import Re Monitor Spec Aux More.
Context {U : UnicodeData}.

Lemma set_fresh (k : str) (v : nat) (d : Dict.dict) :
  ~ In k (keys d) -> Dict.set k v d = d ++ [(k, v)].
Proof.
  induction d as [|[k' v'] d IH]; intros Hnin; [reflexivity|].
  cbn in Hnin. cbn [Dict.set].
  rewrite str_eqb_neq by (intros ->; tauto).
  rewrite IH by tauto. reflexivity.
Qed.

Lemma record_failures_stored (content : str) :
  forall tab d,
    NoDup (List.map snd tab) ->
    (forall k, In k (keys d) -> ~ In k (List.map snd tab)) ->
    record_failures tab content d = d ++ stored tab content.
Proof.
  unfold stored.
  induction tab as [|[p l] tab IH]; intros d Hnd Hfresh.
  - cbn. rewrite app_nil_r. reflexivity.
  - rewrite record_failures_cons. cbn [List.map snd] in Hnd, Hfresh.
    inversion Hnd as [|? ? Hnin Hnd']; subst.
    cbn [filter fst snd].
    destruct (0 <? count p content).
    + rewrite IH.
      * rewrite set_fresh.
        -- rewrite <- app_assoc. reflexivity.
        -- intros Hin. apply (Hfresh l Hin). left. reflexivity.
      * exact Hnd'.
      * intros k Hin Hk. rewrite set_fresh in Hin.
        -- unfold keys in Hin. rewrite map_app in Hin.
           apply in_app_or in Hin. destruct Hin as [Hin|[<-|[]]].
           ++ apply (Hfresh k Hin). right. exact Hk.
           ++ contradiction.
        -- intros Hin'. apply (Hfresh l Hin'). left. reflexivity.
    + apply IH; [exact Hnd'|].
      intros k Hin Hk. apply (Hfresh k Hin). right. exact Hk.
Qed.

Lemma failure_map_stored :
  forall tab proj, In (tab, proj) failure_extractors ->
  forall now content,
    proj (analyze_logs now content) = stored tab content.
Proof.
  intros tab proj Htab now content.
  destruct (failure_tables_literal Htab) as [_ Hnd].
  assert (Hmap : proj (analyze_logs now content)
                 = record_failures tab content []).
  { repeat (destruct Htab as [[= <- <-]|Htab]); [..|destruct Htab];
      reflexivity. }
  rewrite Hmap. apply (record_failures_stored content tab [] Hnd).
  intros k [].
Qed.

(** X6. Every failure map of the snapshot is the list of the labels of
    its table whose pattern occurs in the window, each with its count, in
    the order of the table: no zero is stored, no label comes twice, and
    the order in the report is the order of the table, not of the log. *)
Theorem failure_map_is_the_table_filtered :
  forall tab proj, In (tab, proj) failure_extractors ->
  forall now content,
    proj (analyze_logs now content) = stored tab content.
Proof. exact failure_map_stored. Qed.

Lemma occurs_at_fits (p w : str) (i : nat) :
  p <> [] -> occurs_at p w i -> i + List.length p <= List.length w.
Proof.
  unfold occurs_at. intros Hp H.
  apply (f_equal (@List.length char)) in H.
  rewrite length_firstn, length_skipn in H.
  destruct p as [|c p]; [congruence|]. cbn [List.length] in *. lia.
Qed.

Lemma disjoint_occurrences_fit (p w : str) :
  p <> [] ->
  forall ps from,
    disjoint_occurrences p w from ps ->
    ps = [] \/ from + List.length ps * List.length p <= List.length w.
Proof.
  intros Hp. induction ps as [|i ps IH]; intros from Hd; [left; reflexivity|].
  right. destruct Hd as (Hi & Ho & Hd).
  pose proof (occurs_at_fits Hp Ho) as Hfit.
  destruct (IH _ Hd) as [->|Hrest]; cbn [List.length Nat.mul]; lia.
Qed.

(** X7. Every entry of a failure map is a label of its table with a positive
    count, and the occurrences counted fit in the window side by side:
    the count times the length of the trigger text is at most the length
    of the window. *)
Theorem failure_counts_are_positive_and_fit :
  forall tab proj, In (tab, proj) failure_extractors ->
  forall now content label n,
    In (label, n) (proj (analyze_logs now content)) ->
    0 < n
    /\ exists pat,
         In (pat, label) tab
         /\ n = count pat content
         /\ n * List.length (trigger pat) <= List.length content.
Proof.
  intros tab proj Htab now content label n Hin.
  rewrite (failure_map_stored Htab) in Hin.
  unfold stored in Hin. apply in_map_iff in Hin.
  destruct Hin as ([pat l] & [= <- <-] & Hf).
  apply filter_In in Hf. destruct Hf as [Hin Hpos]. cbn [fst snd] in *.
  apply Nat.ltb_lt in Hpos. split; [exact Hpos|].
  exists pat. split; [exact Hin|]. split; [reflexivity|].
  destruct (failure_tables_literal Htab) as [Hlit _].
  rewrite Forall_forall in Hlit.
  destruct (Hlit _ Hin) as [Hpat Hne]. cbn [fst] in Hpat, Hne.
  rewrite Hpat at 1.
  destruct (findall_text_some Hne content 0) as (ps & Hd & Hl).
  unfold count, findall. rewrite <- Hl.
  destruct (@disjoint_occurrences_fit (trigger pat) content Hne ps 0 Hd)
    as [->|Hfit];
    cbn in *; lia.
Qed.

End FailureMapShape.

(** ** What a match object holds *)
Section MatchObjects.
Import Re Monitor Spec Aux More.
Context {U : UnicodeData}.

(** A match consumed a prefix of the text: the matched text is what was
    consumed, the rest is what follows, at least [min_len] characters
    were consumed, and one group was captured per closing parenthesis. *)
Lemma match_here_sound :
  forall r opens caps acc s m,
    match_here r opens caps acc s = Some m ->
    exists taken,
      s = taken ++ rest m
      /\ whole m = rev acc ++ taken
      /\ min_len r <= List.length taken
      /\ List.length (groups m) = List.length caps + closes_in r.
Proof.
  induction r as [|pc r IH]; intros opens caps acc s m H.
  - cbn in H. injection H as <-. exists []. cbn.
    rewrite app_nil_r. repeat split; lia.
  - destruct pc as [a|a|a| |]; cbn [match_here] in H.
    + destruct s as [|c s]; [discriminate|].
      destruct (test a c); [|discriminate].
      destruct (IH _ _ _ _ _ H) as (taken & -> & Hw & Hlen & Hg).
      exists (c :: taken).
      change (min_len (One a :: r)) with (S (min_len r)).
      change (closes_in (One a :: r)) with (closes_in r).
      cbn [rev] in Hw. rewrite <- app_assoc in Hw.
      cbn [List.length]. repeat split; [exact Hw|lia|exact Hg].
    + destruct (greedy_some _ _ _ _ H) as (tk & s' & -> & _ & Hk).
      destruct (IH _ _ _ _ _ Hk) as (taken & -> & Hw & Hlen & Hg).
      exists (tk ++ taken).
      change (min_len (Many0 a :: r)) with (min_len r).
      change (closes_in (Many0 a :: r)) with (closes_in r).
      rewrite rev_app_distr, rev_involutive, <- app_assoc in Hw.
      rewrite <- app_assoc, length_app.
      repeat split; [exact Hw|lia|exact Hg].
    + destruct s as [|c s]; [discriminate|].
      destruct (test a c); [|discriminate].
      destruct (greedy_some _ _ _ _ H) as (tk & s' & -> & _ & Hk).
      destruct (IH _ _ _ _ _ Hk) as (taken & -> & Hw & Hlen & Hg).
      exists (c :: tk ++ taken).
      change (min_len (Many1 a :: r)) with (S (min_len r)).
      change (closes_in (Many1 a :: r)) with (closes_in r).
      rewrite rev_app_distr, rev_involutive in Hw. cbn [rev] in Hw.
      rewrite <- !app_assoc in Hw.
      cbn [List.length app]. rewrite <- app_assoc, length_app.
      repeat split; [exact Hw|lia|exact Hg].
    + destruct (IH _ _ _ _ _ H) as (taken & -> & Hw & Hlen & Hg).
      exists taken.
      change (min_len (GOpen :: r)) with (min_len r).
      change (closes_in (GOpen :: r)) with (closes_in r).
      repeat split; assumption.
    + destruct opens as [|n opens]; [discriminate|].
      destruct (IH _ _ _ _ _ H) as (taken & -> & Hw & Hlen & Hg).
      exists taken. rewrite length_app in Hg.
      change (min_len (GClose :: r)) with (min_len r).
      change (closes_in (GClose :: r)) with (S (closes_in r)).
      cbn [List.length] in Hg.
      repeat split; [exact Hw|exact Hlen|lia].
Qed.

(** Matching a pattern in two parts: when the whole matches, the second
    part matched from the state the first part left. *)
Lemma match_here_app (r2 : regex) :
  forall r1 opens caps acc s m,
    match_here (r1 ++ r2) opens caps acc s = Some m ->
    exists opens' caps' acc' s',
      match_here r2 opens' caps' acc' s' = Some m
      /\ List.length caps' = List.length caps + closes_in r1
      /\ List.length opens' + closes_in r1
         = List.length opens + opens_in r1.
Proof.
  assert (Hend : forall (pc : piece) (r1 : regex) (opens : list nat)
      (caps : list str) (opens0 : list nat) (caps0 : list str) (m : mres),
    (exists opens' caps' acc' s',
      match_here r2 opens' caps' acc' s' = Some m
      /\ List.length caps' = List.length caps0 + closes_in r1
      /\ List.length opens' + closes_in r1
         = List.length opens0 + opens_in r1) ->
    List.length caps0 + closes_in r1
      = List.length caps + closes_in (pc :: r1) ->
    List.length opens0 + opens_in r1 + closes_in (pc :: r1)
      = List.length opens + opens_in (pc :: r1) + closes_in r1 ->
    exists opens' caps' acc' s',
      match_here r2 opens' caps' acc' s' = Some m
      /\ List.length caps' = List.length caps + closes_in (pc :: r1)
      /\ List.length opens' + closes_in (pc :: r1)
         = List.length opens + opens_in (pc :: r1)).
  { intros pc r1 opens caps opens0 caps0 m
      (o' & c' & a' & s' & Hm & Hc & Ho) H1 H2.
    exists o', c', a', s'. split; [exact Hm|split; lia]. }
  induction r1 as [|pc r1 IH]; intros opens caps acc s m H.
  - exists opens, caps, acc, s. cbn. split; [exact H|split; lia].
  - destruct pc as [a|a|a| |]; cbn [app match_here] in H.
    + destruct s as [|c s]; [discriminate|].
      destruct (test a c); [|discriminate].
      apply (Hend _ _ _ _ _ _ _ (IH _ _ _ _ _ H)); reflexivity.
    + destruct (greedy_some _ _ _ _ H) as (tk & s1 & -> & _ & Hk).
      apply (Hend _ _ _ _ _ _ _ (IH _ _ _ _ _ Hk)); reflexivity.
    + destruct s as [|c s]; [discriminate|].
      destruct (test a c); [|discriminate].
      destruct (greedy_some _ _ _ _ H) as (tk & s1 & -> & _ & Hk).
      apply (Hend _ _ _ _ _ _ _ (IH _ _ _ _ _ Hk)); reflexivity.
    + apply (Hend _ _ _ _ _ _ _ (IH _ _ _ _ _ H)).
      * reflexivity.
      * change (opens_in (GOpen :: r1)) with (S (opens_in r1)).
        change (closes_in (GOpen :: r1)) with (closes_in r1).
        cbn [List.length]. lia.
    + destruct opens as [|n opens]; [discriminate|].
      apply (Hend _ _ _ _ _ _ _ (IH _ _ _ _ _ H)).
      * change (closes_in (GClose :: r1)) with (S (closes_in r1)).
        rewrite length_app. cbn [List.length]. lia.
      * change (opens_in (GClose :: r1)) with (opens_in r1).
        change (closes_in (GClose :: r1)) with (S (closes_in r1)).
        cbn [List.length]. lia.
Qed.

(** The group [(a)] at the end of a pattern captures one character of
    the class [a], after the groups captured before. *)
Lemma final_group_one (a : cset) (opens : list nat) (caps : list str)
    (acc s : str) (m : mres) :
  match_here (group [One a]) opens caps acc s = Some m ->
  exists x, test a x = true /\ groups m = caps ++ [[x]].
Proof.
  unfold group. cbn. destruct s as [|x s]; [discriminate|].
  destruct (test a x) eqn:Hx; [|discriminate].
  intros [= <-]. exists x. split; [exact Hx|]. cbn.
  replace (match List.length acc with
           | 0 => S (List.length acc)
           | S l => List.length acc - l
           end) with 1 by (destruct (List.length acc); lia).
  reflexivity.
Qed.

(** Every match [findall] returns is a match of the pattern at some
    position of the text. *)
Lemma findall_members (r : regex) (m : mres) :
  forall s skip,
    In m (findall_from r skip s) ->
    exists before s', s = before ++ s' /\ match_at r s' = Some m.
Proof.
  assert (Hcons : forall (c : char) (s : str),
             (exists before s', s = before ++ s' /\ match_at r s' = Some m) ->
             exists before s',
               c :: s = before ++ s' /\ match_at r s' = Some m).
  { intros c s (before & s' & -> & Hm). exists (c :: before), s'.
    split; [reflexivity|exact Hm]. }
  induction s as [|c s IH]; intros skip Hin.
  - destruct skip; cbn in Hin; [|destruct Hin].
    destruct (match_at r []) eqn:Hm; cbn in Hin; [|destruct Hin].
    destruct Hin as [<-|[]]. exists [], []. split; [reflexivity|exact Hm].
  - destruct skip as [|k]; cbn [findall_from] in Hin.
    + destruct (match_at r (c :: s)) eqn:Hm.
      * destruct Hin as [<-|Hin].
        -- exists [], (c :: s). split; [reflexivity|exact Hm].
        -- apply Hcons, (IH _ Hin).
      * apply Hcons, (IH _ Hin).
    + apply Hcons, (IH _ Hin).
Qed.

(** The matches of a pattern that cannot match the empty text lie side
    by side in the text. *)
Lemma findall_fits (r : regex) :
  0 < min_len r ->
  forall s skip,
    findall_from r skip s = []
    \/ skip + List.length (findall_from r skip s) * min_len r
       <= List.length s.
Proof.
  intros Hpos. induction s as [|c s IH]; intros skip.
  - left. destruct skip; [|reflexivity]. cbn.
    destruct (match_at r []) eqn:Hm; [|reflexivity].
    destruct (match_here_sound _ _ _ _ _ Hm) as (taken & Hs & _ & Hlen & _).
    destruct taken; [cbn in Hlen; lia|discriminate].
  - destruct skip as [|k]; cbn [findall_from].
    + destruct (match_at r (c :: s)) eqn:Hm.
      * right.
        destruct (match_here_sound _ _ _ _ _ Hm) as (taken & Hs & Hw & Hlen & _).
        cbn in Hw. rewrite Hw.
        apply (f_equal (@List.length char)) in Hs.
        rewrite length_app in Hs. cbn [List.length] in Hs |- *.
        destruct (IH (pred (List.length taken))) as [->|Hfit];
          cbn [List.length Nat.mul]; lia.
      * destruct (IH 0) as [->|Hfit]; [left; reflexivity|right].
        cbn [List.length]. lia.
    + destruct (IH k) as [->|Hfit]; [left; reflexivity|right].
      cbn [List.length]. lia.
Qed.

(** A pattern that cannot match the empty text is found at most once per
    character of the window. *)
Lemma findall_short (r : regex) (s : str) :
  0 < min_len r -> List.length (findall r s) <= List.length s.
Proof.
  intros Hpos. unfold findall.
  destruct (@findall_fits r Hpos s 0) as [->|Hfit]; [cbn; lia|].
  destruct (min_len r) as [|n]; [lia|]. nia.
Qed.

End MatchObjects.

(** ** What the extractors of [analyze_logs] return *)
Section AnalysisProperties.
Import Re Monitor Spec Aux More.
Context {U : UnicodeData}.

Lemma total_set (k : str) (v : nat) (d : Dict.dict) :
  total (Dict.set k v d)
  + match Dict.get k d with Some v0 => v0 | None => 0 end
  = total d + v.
Proof.
  induction d as [|[k' v'] d IH]; cbn.
  - lia.
  - destruct (str_eqb k k'); cbn; [lia|].
    unfold total in IH. lia.
Qed.

Lemma total_incr (k : str) (d : Dict.dict) :
  total (Dict.incr k d) = S (total d).
Proof.
  unfold Dict.incr.
  pose proof (total_set k (S match Dict.get k d with
                             | Some v => v
                             | None => 0
                             end) d) as H.
  lia.
Qed.

Lemma in_set (k : str) (v : nat) (d : Dict.dict) (e : str * nat) :
  In e (Dict.set k v d) -> e = (k, v) \/ In e d.
Proof.
  induction d as [|[k' v'] d IH]; cbn.
  - intros [<-|[]]. left. reflexivity.
  - destruct (str_eqb k k'); cbn.
    + intros [<-|H]; [left; reflexivity|right; right; exact H].
    + intros [<-|H]; [right; left; reflexivity|].
      destruct (IH H) as [->|H']; [left; reflexivity|right; right; exact H'].
Qed.

(** Assigning to a key keeps the keys of a dictionary distinct. *)
Lemma keys_set (k : str) (v : nat) (d : Dict.dict) :
  keys (Dict.set k v d) = keys d
  \/ (~ In k (keys d) /\ keys (Dict.set k v d) = keys d ++ [k]).
Proof.
  unfold keys. induction d as [|[k' v'] d IH]; cbn.
  - right. split; [tauto|reflexivity].
  - destruct (str_eqb k k') eqn:E; cbn.
    + apply str_eqb_eq in E. subst k'. left. reflexivity.
    + destruct IH as [IH|[Hn IH]]; rewrite IH; [left; reflexivity|right].
      split; [|reflexivity].
      intros [Hk|Hk]; [|exact (Hn Hk)].
      subst k'. rewrite str_eqb_refl in E. discriminate.
Qed.

Lemma nodup_set (k : str) (v : nat) (d : Dict.dict) :
  NoDup (keys d) -> NoDup (keys (Dict.set k v d)).
Proof.
  intros Hd. destruct (keys_set k v d) as [->|[Hn ->]]; [exact Hd|].
  apply NoDup_app; [exact Hd|repeat constructor; intros []|].
  intros x Hx [<-|[]]. exact (Hn Hx).
Qed.

(** What the loop over the boxes builds: one unit per box, on keys that
    are second groups of the boxes. *)
Lemma tally_from (P : str -> Prop) (boxes : list mres) :
  (forall m, In m boxes -> P (nth 1 (groups m) [])) ->
  forall d,
    NoDup (keys d) ->
    (forall k n, In (k, n) d -> 0 < n /\ P k) ->
    let d' := fold_left (fun d m => Dict.incr (nth 1 (groups m) []) d)
                boxes d in
    total d' = List.length boxes + total d
    /\ NoDup (keys d')
    /\ (forall k n, In (k, n) d' -> 0 < n /\ P k).
Proof.
  induction boxes as [|m boxes IH]; intros HP d Hnd Hd;
    cbn zeta; cbn [fold_left List.length].
  - split; [reflexivity|]. split; [exact Hnd|exact Hd].
  - destruct (IH (fun m' Hm' => HP m' (or_intror Hm'))
                (Dict.incr (nth 1 (groups m) []) d)) as (Ht & Hn & He).
    + apply nodup_set. exact Hnd.
    + intros k n Hin. apply in_set in Hin.
      destruct Hin as [[= -> ->]|Hin]; [|exact (Hd _ _ Hin)].
      split; [lia|apply HP; left; reflexivity].
    + rewrite total_incr in Ht. split; [lia|]. split; [exact Hn|exact He].
Qed.

(** A match of the box pattern has the grade letter as its second group. *)
Lemma box_grade_captured (s : str) (m : mres) :
  match_at (box_prefix ++ group [One (OneOf (lit "ABC"))]) s = Some m ->
  In (nth 1 (groups m) []) [lit "A"; lit "B"; lit "C"].
Proof.
  unfold match_at. intros H.
  destruct (match_here_app _ _ _ _ _ _ H)
    as (opens' & caps' & acc' & s' & Hm & Hc & _).
  destruct (final_group_one _ _ _ _ _ Hm) as (x & Hx & Hg).
  rewrite Hg.
  change (closes_in box_prefix) with 1 in Hc. cbn [List.length] in Hc.
  destruct caps' as [|g [|g' caps']]; try discriminate. cbn [app nth].
  cbn in Hx. rewrite !orb_true_iff, !N.eqb_eq in Hx. cbn.
  destruct Hx as [->|[->|[->|Hx]]]; [tauto|tauto|tauto|discriminate].
Qed.

(** X8. [analyze_box_range]: the grade counts add up to the number of
    boxes detected, every grade in the map is A, B or C and was seen at
    least once, and no grade appears twice. *)
Theorem box_grades_partition_the_boxes (content : str) :
  let br := analyze_box_range content in
  total (box_grades br) = boxes_detected br
  /\ NoDup (keys (box_grades br))
  /\ forall grade n,
       In (grade, n) (box_grades br) ->
       0 < n /\ In grade [lit "A"; lit "B"; lit "C"].
Proof.
  cbn zeta. unfold analyze_box_range. cbn [box_grades boxes_detected].
  unfold tally_grades.
  match goal with
  | |- context [fold_left _ ?bs []] => set (boxes := bs)
  end.
  destruct (@tally_from (fun k => In k [lit "A"; lit "B"; lit "C"]) boxes)
    with (d := @nil (str * nat)) as (Ht & Hn & He).
  - intros m Hm. unfold boxes, findall in Hm.
    apply findall_members in Hm. destruct Hm as (before & s' & _ & Hm).
    apply (@box_grade_captured s' m). exact Hm.
  - constructor.
  - intros k n [].
  - cbn in Ht. split; [lia|]. split; [exact Hn|exact He].
Qed.

(** A literal followed by more pattern: the literal is stripped and the
    rest goes on after it. *)
Lemma match_here_text_then (p : str) (r : regex) :
  forall opens caps acc s,
    match_here (text p ++ r) opens caps acc s
    = match strip_prefix p s with
      | Some s' => match_here r opens caps (rev p ++ acc) s'
      | None => None
      end.
Proof.
  induction p as [|c p IH]; intros opens caps acc s; cbn; [reflexivity|].
  destruct s as [|d s]; [reflexivity|]. cbn.
  destruct (d =? c)%N eqn:E; [|reflexivity].
  apply N.eqb_eq in E. subst d.
  unfold text in IH. rewrite IH, <- app_assoc. reflexivity.
Qed.

Lemma strip_prefix_some (p : str) :
  forall s s', strip_prefix p s = Some s' -> s = p ++ s'.
Proof.
  induction p as [|c p IH]; intros s s'; cbn.
  - intros [= ->]. reflexivity.
  - destruct s as [|d s]; [discriminate|].
    destruct (d =? c)%N eqn:E; [|discriminate].
    apply N.eqb_eq in E. subst d. intros H. rewrite (IH _ _ H). reflexivity.
Qed.

(** A repetition at the end of a pattern takes every character of the
    class it finds. *)
Lemma greedy_to_end (p : char -> bool) (opens : list nat) (caps : list str) :
  forall s acc,
    exists taken after,
      s = taken ++ after
      /\ forallb p taken = true
      /\ match after with [] => True | c :: _ => p c = false end
      /\ greedy p (match_here [] opens caps) acc s
         = Some (MRes (rev acc ++ taken) caps after).
Proof.
  induction s as [|c s IH]; intros acc.
  - exists [], []. cbn. rewrite app_nil_r. repeat split.
  - cbn [greedy]. destruct (p c) eqn:Hc.
    + destruct (IH (c :: acc)) as (taken & after & -> & Hall & Hstop & ->).
      exists (c :: taken), after. cbn. rewrite Hc, Hall, <- app_assoc.
      repeat split. exact Hstop.
    + exists [], (c :: s). cbn. rewrite app_nil_r. repeat split. exact Hc.
Qed.

(** A match of [marker.*]: from the marker to the end of the line. *)
Lemma marker_line_match (marker s : str) (m : mres) :
  match_at (text marker ++ dot_star) s = Some m ->
  s = whole m ++ rest m
  /\ exists tail,
       whole m = marker ++ tail
       /\ ~ In nl tail
       /\ (rest m = [] \/ exists after', rest m = nl :: after').
Proof.
  unfold match_at. rewrite match_here_text_then.
  destruct (strip_prefix marker s) as [s'|] eqn:Hs; [|discriminate].
  apply strip_prefix_some in Hs. subst s.
  change (match_here dot_star [] [] (rev marker ++ []) s')
    with (greedy (test Dot) (match_here [] [] []) (rev marker ++ []) s').
  destruct (greedy_to_end (test Dot) [] [] s' (rev marker ++ []))
    as (taken & after & -> & Hall & Hstop & ->).
  intros [= <-]. cbn [whole rest].
  rewrite app_nil_r, rev_involutive, <- app_assoc.
  split; [reflexivity|]. exists taken. split; [reflexivity|]. split.
  - intros Hin. rewrite forallb_forall in Hall.
    specialize (Hall _ Hin). cbn in Hall. discriminate.
  - destruct after as [|c after]; [left; reflexivity|right].
    cbn in Hstop. apply negb_false_iff, N.eqb_eq in Hstop. subst c.
    exists after. reflexivity.
Qed.

Lemma in_firstn {A} (n : nat) (l : list A) (x : A) :
  In x (firstn n l) -> In x l.
Proof.
  intros H. rewrite <- (firstn_skipn n l). apply in_or_app. left. exact H.
Qed.

Lemma samples_are_line_tails (marker content l : str) :
  In l (firstn 10 (List.map whole (findall (text marker ++ dot_star) content))) ->
  line_tail marker content l.
Proof.
  intros Hin. apply in_firstn in Hin. apply in_map_iff in Hin.
  destruct Hin as (m & <- & Hm). unfold findall in Hm.
  apply findall_members in Hm. destruct Hm as (before & s' & -> & Hm).
  apply marker_line_match in Hm.
  destruct Hm as (Hs & tail & Hw & Hnl & Hafter).
  exists before, tail, (rest m). rewrite <- Hs. repeat split; assumption.
Qed.

(** X9. [analyze_errors]: at most ten samples of each kind are kept, and
    each sample is a piece of the window that starts with the marker and
    runs to the end of its line. *)
Theorem error_samples_are_line_tails (content : str) :
  let e := analyze_errors content in
  List.length (errors e) = Nat.min 10 (error_count e)
  /\ List.length (warnings e) = Nat.min 10 (warning_count e)
  /\ (forall l, In l (errors e) -> line_tail error_marker content l)
  /\ (forall l, In l (warnings e) -> line_tail warn_marker content l).
Proof.
  cbn zeta. unfold analyze_errors.
  cbn [errors warnings error_count warning_count].
  rewrite !length_firstn. repeat split.
  - intros l Hl. apply samples_are_line_tails. exact Hl.
  - intros l Hl. apply samples_are_line_tails. exact Hl.
Qed.

(** X10. No counter of a snapshot exceeds the number of characters of the
    window: none of the patterns matches the empty text. *)
Theorem no_counter_exceeds_the_window (now content : str) :
  Forall (fun n => n <= List.length content)
         (counters (analyze_logs now content)).
Proof.
  unfold counters, analyze_logs, analyze_cycle_rider, analyze_hour_swing,
    analyze_box_range, analyze_orders, analyze_errors, count.
  cbn [cycle_rider hour_swing box_range orders errs distribution squeeze
       analyzed detected cr_signals_generated mtf_alignment relative_strength
       funding_extremes fe_analyzed fe_detected extreme_zscore_bypass
       hs_signals_generated boxes_detected entry_analyzed entry_generated
       br_signals_generated orders_placed orders_filled orders_cancelled
       positions_opened positions_closed error_count warning_count].
  rewrite !length_map.
  repeat (apply Forall_cons; [apply findall_short; vm_compute; lia|]).
  apply Forall_nil.
Qed.

End AnalysisProperties.

(** ** What [write_report] does to the file *)
Section RendererProperties.
Import Monitor Spec Aux More.
Local Open Scope monitor_scope.
Context {U : UnicodeData} {C : Codec}.

(** Whatever fails, the [f.write] calls of a block leave the file with
    some first chunks of the block appended. *)
Lemma write_all_partial (chunks : list str) :
  forall s c pf tr,
    exists k res pf',
      write_all chunks
        {| self := s; report := Some c; pending_fault := pf; trace := tr |}
      = (res, {| self := s;
                 report := Some (c ++ written (firstn k chunks));
                 pending_fault := pf'; trace := tr |}).
Proof.
  induction chunks as [|x chunks IH]; intros s c pf tr.
  - exists 0, (Ret tt), pf. cbn. rewrite app_nil_r. reflexivity.
  - cbn [write_all]. unfold bind, write, report_op.
    cbn [pending_fault self report trace contents].
    destruct pf as [[[|n] msg]|]; cbn -[write_all firstn written].
    + exists 0, (Raise (Exception msg)), (Some (0, msg)).
      cbn. rewrite app_nil_r. reflexivity.
    + destruct (IH s (c ++ x) (Some (n, msg)) tr) as (k & res & pf' & Hw).
      exists (S k), res, pf'. refine (eq_trans Hw _). cbn [firstn].
      unfold written. cbn [concat]. rewrite <- app_assoc. reflexivity.
    + destruct (IH s (c ++ x) None tr) as (k & res & pf' & Hw).
      exists (S k), res, pf'. refine (eq_trans Hw _). cbn [firstn].
      unfold written. cbn [concat]. rewrite <- app_assoc. reflexivity.
Qed.

(** After the first scan, a call of [write_report] that finds the report
    in place only appends to it: the whole section, or its first chunks
    when a file operation fails. *)
Lemma write_report_appends (env : CycleEnv) (stats : Stats) (w : World)
    (c : str) :
  0 < iteration (self w) ->
  report w = Some c ->
  exists k,
    report (snd (write_report env stats w))
    = Some (c ++ written (firstn k (section (iteration (self w)) stats))).
Proof.
  intros Hit Hrep. destruct w as [[pos it] r pf tr].
  cbn [self report iteration] in Hit, Hrep. subst r.
  unfold write_report.
  unfold try_except, bind, with_close, call, print, emit, arm_fault, get_self,
    report_exists, open_w, open_a, close, report_op, ret.
  cbn -[write_all section written Nat.eqb].
  destruct (Nat.eqb_spec it 0) as [->|_]; [lia|].
  cbn -[write_all section written].
  destruct (report_raises env) as [[[|n] msg]|];
    cbn -[write_all section written].
  - exists 0. cbn. rewrite app_nil_r. reflexivity.
  - match goal with
    | |- context [write_all ?chunks ?w0] =>
        destruct (write_all_partial chunks (self w0) c (pending_fault w0)
                    (trace w0))
          as (k & res & pf' & Hw);
        assert (Hw' : write_all chunks w0
                      = (res, {| self := self w0;
                                 report := Some (c ++ written (firstn k chunks));
                                 pending_fault := pf'; trace := trace w0 |}))
          by exact Hw;
        rewrite Hw'; clear Hw Hw'
    end.
    exists k.
    destruct res as [[]|e]; destruct pf' as [[[|n'] msg']|];
      cbn -[section written]; try destruct e; reflexivity.
  - match goal with
    | |- context [write_all ?chunks ?w0] =>
        destruct (write_all_partial chunks (self w0) c (pending_fault w0)
                    (trace w0))
          as (k & res & pf' & Hw);
        assert (Hw' : write_all chunks w0
                      = (res, {| self := self w0;
                                 report := Some (c ++ written (firstn k chunks));
                                 pending_fault := pf'; trace := trace w0 |}))
          by exact Hw;
        rewrite Hw'; clear Hw Hw'
    end.
    exists k.
    destruct res as [[]|e]; destruct pf' as [[[|n'] msg']|];
      cbn -[section written]; try destruct e; reflexivity.
Qed.

Lemma cycle_report_grows (env : CycleEnv) (w : World) (c : str) :
  0 < iteration (self w) ->
  report w = Some c ->
  0 < iteration (self (snd (cycle env w)))
  /\ exists more, report (snd (cycle env w)) = Some (c ++ more).
Proof.
  intros Hit Hrep.
  destruct (read_new_logs_returns env w) as (content & pos & lines & Hread & _).
  destruct content as [|c0 content].
  - rewrite (cycle_idle env w Hread). cbn. split; [exact Hit|].
    exists []. rewrite app_nil_r. exact Hrep.
  - destruct (check_for_errors (c0 :: content)) as [[|] pat] eqn:Hcheck.
    + destruct (cycle_fatal_any env w Hread ltac:(discriminate) Hcheck)
        as (res & evs & Heq & _).
      rewrite Heq. cbn. split; [exact Hit|].
      exists []. rewrite app_nil_r. exact Hrep.
    + destruct (cycle_processed env w Hread ltac:(discriminate)
                  ltac:(rewrite Hcheck; reflexivity))
        as (ln & pf2 & Heq).
      rewrite Heq. cbn [snd self report iteration]. split; [lia|].
      match goal with
      | |- context [write_report env ?st ?w0] =>
          destruct (@write_report_appends env st w0 c) as (k & ->);
            [exact Hit|exact Hrep|]
      end.
      eexists. reflexivity.
Qed.

(** X11. After the first scan, and as long as nobody deletes the report,
    the monitor never alters what the file already holds, whatever else
    fails: at the end of any number of cycles the file is its earlier
    content with more text after it. *)
Theorem report_only_grows (envs : list CycleEnv) :
  forall (w : World) (c : str),
    Forall (fun env => report_removed env = false) envs ->
    0 < iteration (self w) ->
    report w = Some c ->
    exists more, report (snd (loop envs w)) = Some (c ++ more).
Proof.
  induction envs as [|env envs IH]; intros w c Hall Hit Hrep.
  - exists []. rewrite app_nil_r. exact Hrep.
  - inversion Hall as [|? ? Hkept Hall']; subst.
    rewrite loop_step, (outside_kept env w Hkept). cbn [snd].
    destruct (cycle_report_grows env w Hit Hrep) as (Hit' & more & Hmore).
    destruct (cycle env w) as [[[|]|e] w']; cbn [snd] in *.
    + exists more. exact Hmore.
    + destruct (IH w' (c ++ more) Hall' Hit' Hmore) as (more' & ->).
      exists (more ++ more'). rewrite app_assoc. reflexivity.
    + exists more. exact Hmore.
Qed.

(** X12. The section [write_report] renders does not depend on the three
    [total_scans], on the warning samples, or on the error samples after
    the fifth. *)
Theorem section_ignores_unrendered (it n1 n2 n3 : nat) (ws es : list str)
    (s : Stats) :
  firstn 5 es = firstn 5 (errors (errs s)) ->
  section it (with_unrendered n1 n2 n3 ws es s) = section it s.
Proof.
  intros Hes. unfold section, with_unrendered.
  cbn [timestamp cycle_rider hour_swing box_range orders errs].
  f_equal. f_equal. f_equal. f_equal. f_equal. f_equal.
  unfold errors_block. cbn [error_count warning_count errors].
  destruct ((0 <? error_count (errs s)) || (0 <? warning_count (errs s)));
    [|reflexivity].
  f_equal. f_equal.
  destruct es as [|e0 es]; destruct (errors (errs s)) as [|e1 es'];
    try discriminate; [reflexivity|].
  rewrite Hes. reflexivity.
Qed.




End RendererProperties.

(** ** Whole runs *)
Section RunProperties.
Import Monitor Spec Aux More.
Local Open Scope monitor_scope.
Context {U : UnicodeData} {C : Codec}.

Lemma calls_cons (m : method) (e : event) (evs : list event) :
  calls m (e :: evs) = (if is_call m e then 1 else 0) + calls m evs.
Proof. unfold calls. cbn. destruct (is_call m e); reflexivity. Qed.

Lemma calls_skip_prints (m : method) (lines : list str) (evs : list event) :
  calls m (List.map Print lines ++ evs) = calls m evs.
Proof. rewrite calls_app, calls_prints. reflexivity. Qed.

Lemma sleeps_app (a b : list event) : sleeps (a ++ b) = sleeps a + sleeps b.
Proof. unfold sleeps. rewrite filter_app, length_app. reflexivity. Qed.

Lemma sleeps_skip_prints (lines : list str) (evs : list event) :
  sleeps (List.map Print lines ++ evs) = sleeps evs.
Proof. induction lines as [|l lines IH]; [reflexivity|exact IH]. Qed.

Lemma spawned_skip_prints (lines : list str) (evs : list event) :
  spawned (List.map Print lines ++ evs) = spawned evs.
Proof. rewrite spawned_app, spawned_prints. reflexivity. Qed.

(** A cycle whose window is fatal ends the loop or raises what
    [subprocess.run] raised; it analyzes and writes nothing. *)
Lemma cycle_fatal_cases (env : CycleEnv) (w w1 : World) (content : str)
    (pat : option str) :
  read_new_logs env w = (Ret content, w1) ->
  content <> [] ->
  check_for_errors content = (true, pat) ->
  exists res evs,
    cycle env w = (res, add_events w1 (Call m_check_for_errors :: evs))
    /\ calls m_read_new_logs evs = 0
    /\ calls m_analyze_logs evs = 0
    /\ calls m_write_report evs = 0
    /\ (res = Ret true
        \/ exists argv msg,
             res = Raise (Exception msg) /\ spawn_raises env argv = Some msg).
Proof.
  intros Hread Hne Hcheck. destruct w1 as [s r pf tr].
  destruct content as [|c0 content]; [congruence|].
  unfold cycle, try_except2, cycle_body. unfold bind at 1. rewrite Hread.
  rewrite Hcheck.
  unfold stop_server, subprocess_run, bind, call, print, emit, ret, raise,
    add_events.
  cbn -[lit app stamp].
  destruct (spawn_raises env [lit "pkill"; lit "-f"; lit "node.*dual-strategy"])
    as [msg|] eqn:Hpkill;
    cbn -[lit app stamp];
    [|destruct (spawn_raises env [lit "lsof"; lit "-ti:3031"])
        as [msg|] eqn:Hlsof;
      cbn -[lit app stamp]];
    eexists _, _; rewrite <- !app_assoc;
    (split; [reflexivity|]);
    (split; [reflexivity|]); (split; [reflexivity|]);
    (split; [reflexivity|]).
  - right. eexists _, msg. split; [reflexivity|exact Hpkill].
  - right. eexists _, msg. split; [reflexivity|exact Hlsof].
  - left. reflexivity.
Qed.

(** What one turn of the loop adds to the trace and to the monitor
    object. *)
Lemma cycle_summary (env : CycleEnv) (w : World) :
  exists evs,
    trace (snd (cycle env w)) = trace w ++ evs
    /\ calls m_read_new_logs evs = 1
    /\ calls m_analyze_logs evs = calls m_write_report evs
    /\ calls m_write_report evs <= 1
    /\ iteration (self (snd (cycle env w)))
       = iteration (self w) + calls m_write_report evs
    /\ last_position (self w) <= last_position (self (snd (cycle env w)))
    /\ (fst (cycle env w) = Ret false ->
        interrupt env = false /\ spawned evs = []
        /\ calls m_stop_server evs = 0 /\ sleeps evs = 1)
    /\ (forall e, fst (cycle env w) = Raise e ->
        exists argv msg,
          e = Exception msg /\ spawn_raises env argv = Some msg).
Proof.
  destruct (read_new_logs_returns env w)
    as (content & pos & lines & Hread & Hle).
  destruct content as [|c0 content].
  - rewrite (cycle_idle env w Hread).
    exists (Call m_read_new_logs
              :: List.map Print lines
              ++ Sleep CHECK_INTERVAL :: interrupt_events env).
    cbn [fst snd add_events trace self iteration last_position].
    rewrite !calls_cons, !calls_skip_prints, !calls_cons,
      !calls_interrupt_events.
    cbn [is_call method_eqb Nat.add].
    split; [rewrite <- app_assoc; reflexivity|].
    repeat (split; [first [reflexivity|lia]|]). split.
    + intros [= Hi]. unfold interrupt_events. rewrite Hi.
      split; [reflexivity|]. split; [cbn; apply spawned_skip_prints|].
      split; [reflexivity|]. cbn. apply sleeps_skip_prints.
    + intros e. discriminate.
  - destruct (check_for_errors (c0 :: content)) as [[|] pat] eqn:Hcheck.
    + destruct (cycle_fatal_cases env w Hread ltac:(discriminate) Hcheck)
        as (res & evs & Heq & Hc1 & Hc2 & Hc3 & Hres).
      rewrite Heq.
      exists (Call m_read_new_logs
                :: List.map Print lines ++ Call m_check_for_errors :: evs).
      cbn [fst snd add_events trace self iteration last_position].
      rewrite !calls_cons, !calls_skip_prints, !calls_cons, Hc1, Hc2, Hc3.
      cbn [is_call method_eqb Nat.add].
      split; [rewrite <- app_assoc; reflexivity|].
      repeat (split; [first [reflexivity|lia]|]). split.
      * intros ->. destruct Hres as [Hres|(argv & msg & Hres & _)];
          discriminate.
      * intros e ->. destruct Hres as [Hres|(argv & msg & Hres & Hsp)];
          [discriminate|].
        injection Hres as ->. exists argv, msg. split; [reflexivity|exact Hsp].
    + destruct (cycle_processed env w Hread ltac:(discriminate)
                  ltac:(rewrite Hcheck; reflexivity))
        as (ln & pf2 & Heq).
      rewrite Heq.
      exists (Call m_read_new_logs
                :: List.map Print lines
                ++ [Call m_check_for_errors; Call m_analyze_logs;
                    Call m_write_report; Print ln; Sleep CHECK_INTERVAL]
                ++ interrupt_events env).
      cbn [fst snd add_events trace self iteration last_position].
      rewrite !calls_cons, !calls_skip_prints, !calls_app,
        !calls_interrupt_events.
      split; [rewrite <- app_assoc; reflexivity|].
      repeat (split; [first [reflexivity|cbn; lia]|]). split.
      * intros [= Hi]. unfold interrupt_events. rewrite Hi.
        split; [reflexivity|]. split; [cbn; apply spawned_skip_prints|].
        split; [reflexivity|]. cbn. apply sleeps_skip_prints.
      * intros e. discriminate.
Qed.

(** The same for any number of turns. *)
Lemma loop_summary (envs : list CycleEnv) :
  forall w,
    exists evs,
      trace (snd (loop envs w)) = trace w ++ evs
      /\ calls m_analyze_logs evs = calls m_write_report evs
      /\ iteration (self (snd (loop envs w)))
         = iteration (self w) + calls m_write_report evs
      /\ calls m_write_report evs <= calls m_read_new_logs evs
      /\ calls m_read_new_logs evs <= List.length envs
      /\ last_position (self w) <= last_position (self (snd (loop envs w)))
      /\ (fst (loop envs w) = Ret Running ->
          Forall (fun env => interrupt env = false) envs
          /\ spawned evs = [] /\ calls m_stop_server evs = 0
          /\ sleeps evs = List.length envs
          /\ calls m_read_new_logs evs = List.length envs)
      /\ (forall e, fst (loop envs w) = Raise e ->
          exists env argv msg,
            In env envs /\ e = Exception msg
            /\ spawn_raises env argv = Some msg).
Proof.
  induction envs as [|env envs IH]; intros w.
  - exists []. cbn. rewrite app_nil_r.
    repeat (split; [first [reflexivity|lia]|]). split.
    + intros _. repeat split. constructor.
    + intros e. discriminate.
  - rewrite loop_step.
    assert (Hout : trace (snd (outside env w)) = trace w
                   /\ self (snd (outside env w)) = self w).
    { destruct w. split; reflexivity. }
    destruct Hout as [Htr Hself].
    destruct (cycle_summary env (snd (outside env w)))
      as (evs1 & Ht1 & Hr1 & Ha1 & Hw1 & Hi1 & Hp1 & Hgo1 & Hex1).
    rewrite Htr in Ht1. rewrite Hself in Hi1, Hp1.
    destruct (cycle env (snd (outside env w))) as [[[|]|e] w'];
      cbn [fst snd List.length] in *.
    + exists evs1. split; [exact Ht1|].
      repeat (split; [first [assumption|lia]|]). split.
      * discriminate.
      * intros e. discriminate.
    + destruct (IH w')
        as (evs2 & Ht2 & Ha2 & Hi2 & Hw2 & Hr2 & Hp2 & Hgo2 & Hex2).
      destruct (Hgo1 eq_refl) as (Hint & Hsp1 & Hst1 & Hsl1).
      exists (evs1 ++ evs2).
      rewrite !calls_app, spawned_app, sleeps_app.
      split; [rewrite Ht2, Ht1, app_assoc; reflexivity|].
      repeat (split; [lia|]). split.
      * intros Hrun. destruct (Hgo2 Hrun) as (Hall & Hsp2 & Hst2 & Hsl2 & Hrd2).
        split; [constructor; assumption|].
        rewrite Hsp1, Hsp2. repeat split; lia.
      * intros e He. destruct (Hex2 e He) as (env' & argv & msg & Hin & Hm).
        exists env', argv, msg. split; [right; exact Hin|exact Hm].
    + exists evs1. split; [exact Ht1|].
      repeat (split; [first [assumption|lia]|]). split.
      * discriminate.
      * intros e' [= <-]. destruct (Hex1 e eq_refl) as (argv & msg & Hm).
        exists env, argv, msg. split; [left; reflexivity|exact Hm].
Qed.

(** [run] is its four lines of banner and then the loop. *)
Lemma run_is_loop (start : str) (envs : list CycleEnv) (w : World) :
  exists lines,
    run start envs w = loop envs (add_events w (List.map Print lines)).
Proof.
  destruct w as [s r pf tr]. unfold run, bind, print, emit, add_events.
  cbn -[lit app CHECK_INTERVAL loop line Nat.div].
  eexists [_; _; _; _]. cbn [List.map]. rewrite <- !app_assoc. reflexivity.
Qed.

(** X15. In a process started by [main], the scan number is the number of
    calls of [write_report] so far, which is also the number of calls of
    [analyze_logs]; and there is at most one of them per read of the
    log. *)
Theorem scan_number_counts_the_reports
    (start : str) (envs : list CycleEnv) (r : option str) :
  let w' := snd (main start envs r) in
  iteration (self w') = calls m_write_report (trace w')
  /\ calls m_analyze_logs (trace w') = calls m_write_report (trace w')
  /\ calls m_write_report (trace w') <= calls m_read_new_logs (trace w')
  /\ calls m_read_new_logs (trace w') <= List.length envs.
Proof.
  cbn zeta. unfold main.
  destruct (run_is_loop start envs (boot r)) as (lines & ->).
  destruct (loop_summary envs (add_events (boot r) (List.map Print lines)))
    as (evs & Ht & Ha & Hi & Hw & Hr & _).
  rewrite Ht, Hi. cbn [add_events boot trace self iteration init app].
  rewrite !calls_skip_prints. repeat split; lia.
Qed.

(** X16. A monitor that is still in its loop has started no subprocess
    and has not entered [stop_server]; it has read the log once and slept
    once in every cycle, and no Ctrl-C has arrived. *)
Theorem a_running_monitor_started_nothing
    (start : str) (envs : list CycleEnv) (r : option str) :
  fst (main start envs r) = Ret Running ->
  let w' := snd (main start envs r) in
  spawned (trace w') = []
  /\ calls m_stop_server (trace w') = 0
  /\ sleeps (trace w') = List.length envs
  /\ calls m_read_new_logs (trace w') = List.length envs
  /\ Forall (fun env => interrupt env = false) envs.
Proof.
  cbn zeta. unfold main.
  destruct (run_is_loop start envs (boot r)) as (lines & ->).
  destruct (loop_summary envs (add_events (boot r) (List.map Print lines)))
    as (evs & Ht & _ & _ & _ & _ & _ & Hgo & _).
  intros Hrun. destruct (Hgo Hrun) as (Hall & Hsp & Hst & Hsl & Hrd).
  rewrite Ht. cbn [add_events boot trace app].
  rewrite spawned_skip_prints, calls_skip_prints, sleeps_skip_prints,
    calls_skip_prints.
  repeat split; assumption.
Qed.

(** X17. Ctrl-C during the sleep ends the loop and leaves the trading
    server alone: [stop_server] is not entered and no subprocess is
    started; the window read before the sleep was reported first. *)
Theorem interrupt_spares_the_server
    (env : CycleEnv) (w : World) (content : str) :
  interrupt env = true ->
  fst (read_new_logs env w) = Ret content ->
  fst (check_for_errors content) = false ->
  fst (cycle env w) = Ret true
  /\ spawned (events_of (cycle env) w) = []
  /\ calls m_stop_server (events_of (cycle env) w) = 0
  /\ sleeps (events_of (cycle env) w) = 1
  /\ (content <> [] -> calls m_write_report (events_of (cycle env) w) = 1).
Proof.
  intros Hint Hread Hcheck.
  destruct (read_new_logs_pair env w Hread) as (pos & lines & Heq).
  destruct content as [|c0 content].
  - rewrite (cycle_idle env w Heq), Hint.
    rewrite (events_of_eq (cycle env) w
               (Call m_read_new_logs
                  :: List.map Print lines
                  ++ Sleep CHECK_INTERVAL :: interrupt_events env))
      by (rewrite (cycle_idle env w Heq); cbn [snd add_events trace];
          rewrite <- app_assoc; reflexivity).
    unfold interrupt_events. rewrite Hint. cbn [fst].
    split; [reflexivity|]. split; [cbn; apply spawned_skip_prints|].
    split; [rewrite calls_cons, calls_skip_prints; reflexivity|].
    split; [cbn; apply sleeps_skip_prints|]. congruence.
  - destruct (cycle_processed env w Heq ltac:(discriminate) Hcheck)
      as (ln & pf2 & Hcycle).
    rewrite (events_of_eq (cycle env) w
               (Call m_read_new_logs
                  :: List.map Print lines
                  ++ [Call m_check_for_errors; Call m_analyze_logs;
                      Call m_write_report; Print ln; Sleep CHECK_INTERVAL]
                  ++ interrupt_events env))
      by (rewrite Hcycle; cbn [snd trace]; rewrite <- app_assoc; reflexivity).
    rewrite Hcycle, Hint. unfold interrupt_events. rewrite Hint. cbn [fst].
    split; [reflexivity|]. split; [cbn; apply spawned_skip_prints|].
    split; [rewrite calls_cons, calls_skip_prints; reflexivity|].
    split; [cbn; apply sleeps_skip_prints|].
    intros _. rewrite calls_cons, calls_skip_prints. reflexivity.
Qed.

(** X18. In any run neither the cursor nor the scan number ever goes
    back, and the scan number grows by at most one per cycle. *)
Theorem run_never_goes_back (envs : list CycleEnv) (w : World) :
  last_position (self w) <= last_position (self (snd (loop envs w)))
  /\ iteration (self w) <= iteration (self (snd (loop envs w)))
  /\ iteration (self (snd (loop envs w)))
     <= iteration (self w) + List.length envs.
Proof.
  destruct (loop_summary envs w) as (evs & _ & _ & Hi & Hw & Hr & Hp & _).
  repeat split; lia.
Qed.

End RunProperties.

(** ** What [analyze_orders] counts *)
Section OrderProperties.
Import Re Monitor Spec Aux More.
Context {U : UnicodeData}.

Lemma strip_prefix_app (p s : str) : strip_prefix p (p ++ s) = Some s.
Proof.
  induction p as [|c p IH]; cbn; [reflexivity|].
  rewrite N.eqb_refl. exact IH.
Qed.

(** [findall] finds something as soon as the pattern matches somewhere. *)
Lemma findall_finds (r : regex) (s' : str) :
  match_at r s' <> None ->
  forall before, findall r (before ++ s') <> [].
Proof.
  intros Hm. unfold findall. induction before as [|c before IH].
  - destruct s' as [|c s']; cbn [app findall_from];
      destruct (match_at r _); try discriminate; congruence.
  - cbn [app findall_from].
    destruct (match_at r (c :: before ++ s')); [discriminate|exact IH].
Qed.

(** A match of an activity pattern: the event, text on the same line,
    and a word followed by "USDT". *)
Lemma activity_match (event : string) (s : str) (m : mres) :
  match_at (activity event) s = Some m ->
  exists mid sym,
    s = lit event ++ mid ++ sym ++ lit "USDT" ++ rest m
    /\ ~ In nl mid
    /\ sym <> []
    /\ forallb (test Word) sym = true.
Proof.
  unfold match_at, activity, t. rewrite match_here_text_then.
  destruct (strip_prefix (lit event) s) as [s1|] eqn:Hs; [|discriminate].
  apply strip_prefix_some in Hs. subst s.
  unfold dot_star, group, word_plus. cbn [app match_here]. intros H.
  destruct (greedy_some _ _ _ _ H) as (mid & s2 & -> & Hmid & Hk).
  cbn [match_here] in Hk.
  destruct s2 as [|c s3]; [discriminate|].
  destruct (test Word c) eqn:Hc; [|discriminate].
  destruct (greedy_some _ _ _ _ Hk) as (tk & s4 & -> & Htk & Hk2).
  rewrite match_here_text_then in Hk2.
  destruct (strip_prefix (lit "USDT") s4) as [s5|] eqn:Hs4; [|discriminate].
  apply strip_prefix_some in Hs4. subst s4.
  cbn [match_here] in Hk2. injection Hk2 as <-. cbn [rest].
  exists mid, (c :: tk). split; [reflexivity|]. split; [|split].
  - intros Hin. rewrite forallb_forall in Hmid.
    specialize (Hmid _ Hin). cbn in Hmid. discriminate.
  - discriminate.
  - cbn [forallb]. rewrite Hc, Htk. reflexivity.
Qed.

(** Conversely such a line is matched where the event starts. *)
Lemma activity_matches (event : string) (mid sym after : str) :
  ~ In nl mid ->
  sym <> [] ->
  forallb (test Word) sym = true ->
  match_at (activity event) (lit event ++ mid ++ sym ++ lit "USDT" ++ after)
  <> None.
Proof.
  intros Hmid Hsym Hword.
  unfold match_at, activity, t. rewrite match_here_text_then, strip_prefix_app.
  unfold dot_star, group, word_plus. cbn [app match_here].
  apply greedy_complete.
  - apply forallb_forall. intros x Hx. cbn.
    destruct (N.eqb_spec x nl) as [->|_]; [contradiction|reflexivity].
  - destruct sym as [|c tk]; [congruence|].
    cbn [forallb] in Hword. apply andb_true_iff in Hword.
    destruct Hword as [Hc Htk].
    cbn [app match_here]. rewrite Hc.
    apply greedy_complete; [exact Htk|].
    rewrite match_here_text_then, strip_prefix_app. cbn [match_here].
    discriminate.
Qed.

(** X19. [analyze_orders]: each of the five counts is positive exactly
    when the window holds its event followed, on the same line, by a word
    of at least one character and "USDT"; an event with no symbol after
    it on its line is not counted. *)
Theorem order_events_need_a_symbol (content : str) (event : string)
    (n : nat) :
  In (event, n) (order_events (analyze_orders content)) ->
  (0 < n <-> activity_line event content).
Proof.
  intros Hin.
  assert (Hn : n = count (activity event) content).
  { cbn in Hin.
    destruct Hin as [H|[H|[H|[H|[H|[]]]]]]; injection H as <- <-;
      reflexivity. }
  subst n. clear Hin. unfold count. split.
  - intros Hpos.
    destruct (findall (activity event) content) as [|m ms] eqn:Hf;
      [cbn in Hpos; lia|].
    assert (Hm : In m (findall (activity event) content))
      by (rewrite Hf; left; reflexivity).
    unfold findall in Hm. apply findall_members in Hm.
    destruct Hm as (before & s' & -> & Hm).
    apply activity_match in Hm.
    destruct Hm as (mid & sym & -> & Hmid & Hsym & Hword).
    exists before, mid, sym, (rest m). repeat split; assumption.
  - intros (before & mid & sym & after & -> & Hmid & Hsym & Hword).
    pose proof (@findall_finds (activity event) _
                  (@activity_matches event mid sym after Hmid Hsym Hword)
                  before) as Hne.
    destruct (findall (activity event) _); [congruence|cbn; lia].
Qed.

End OrderProperties.

(** ** What the tagged patterns count *)
Section TaggedProperties.
Import Re Monitor Spec Aux More.
Context {U : UnicodeData}.

(** The pattern [\[tag\] (\w+) what], literal by literal. *)
Lemma tagged_pattern (tag : string) (what : str) :
  tagged tag ++ text what
  = text (lit "[") ++ text (lit tag) ++ text (lit "] ")
      ++ [GOpen; Many1 Word; GClose] ++ text (lit " ") ++ text what.
Proof.
  unfold tagged, t, group, word_plus. rewrite <- !app_assoc. reflexivity.
Qed.

Lemma tagged_match (tag : string) (what s : str) (m : mres) :
  match_at (tagged tag ++ text what) s = Some m ->
  exists sym,
    s = lit "[" ++ lit tag ++ lit "] " ++ sym ++ lit " " ++ what ++ rest m
    /\ sym <> []
    /\ forallb (test Word) sym = true.
Proof.
  unfold match_at. rewrite tagged_pattern, match_here_text_then.
  destruct (strip_prefix (lit "[") s) as [s1|] eqn:H1; [|discriminate].
  apply strip_prefix_some in H1. subst s. rewrite match_here_text_then.
  destruct (strip_prefix (lit tag) s1) as [s2|] eqn:H2; [|discriminate].
  apply strip_prefix_some in H2. subst s1. rewrite match_here_text_then.
  destruct (strip_prefix (lit "] ") s2) as [s3|] eqn:H3; [|discriminate].
  apply strip_prefix_some in H3. subst s2.
  cbn [app match_here].
  destruct s3 as [|c s4]; [discriminate|].
  destruct (test Word c) eqn:Hc; [|discriminate].
  intros H. destruct (greedy_some _ _ _ _ H) as (tk & s5 & -> & Htk & Hk).
  cbn [match_here] in Hk. rewrite match_here_text_then in Hk.
  destruct (strip_prefix (lit " ") s5) as [s6|] eqn:H5; [|discriminate].
  apply strip_prefix_some in H5. subst s5.
  rewrite match_here_text in Hk.
  destruct (strip_prefix what s6) as [s7|] eqn:H6; [|discriminate].
  apply strip_prefix_some in H6. subst s6.
  injection Hk as <-. cbn [rest].
  exists (c :: tk). split; [reflexivity|]. split; [discriminate|].
  cbn [forallb]. rewrite Hc, Htk. reflexivity.
Qed.

Lemma tagged_matches (tag : string) (what sym after : str) :
  sym <> [] ->
  forallb (test Word) sym = true ->
  match_at (tagged tag ++ text what)
    (lit "[" ++ lit tag ++ lit "] " ++ sym ++ lit " " ++ what ++ after)
  <> None.
Proof.
  intros Hsym Hword.
  unfold match_at.
  rewrite tagged_pattern, match_here_text_then, strip_prefix_app,
    match_here_text_then, strip_prefix_app,
    match_here_text_then, strip_prefix_app.
  destruct sym as [|c tk]; [congruence|].
  cbn [forallb] in Hword. apply andb_true_iff in Hword.
  destruct Hword as [Hc Htk].
  cbn [app match_here]. rewrite Hc.
  apply greedy_complete; [exact Htk|].
  cbn [match_here].
  rewrite match_here_text_then, strip_prefix_app, match_here_text,
    strip_prefix_app.
  discriminate.
Qed.

(** X21. The fourteen counts of the three strategies whose pattern is a
    tag, a symbol and a fixed text: each is positive exactly when the
    window holds "[tag] ", a word of at least one character, one space and
    the text; a line whose symbol is missing or is not a single word is
    not counted. *)
Theorem tagged_events_need_a_symbol (now content : str) (tag : string)
    (what : str) (n : nat) :
  In (tag, what, n) (tagged_counters (analyze_logs now content)) ->
  (0 < n <-> tagged_line tag what content).
Proof.
  intros Hin.
  assert (Hn : n = count (tagged tag ++ text what) content).
  { cbn in Hin.
    repeat (destruct Hin as [H|Hin];
            [injection H as <- <- <-; reflexivity|]).
    destruct Hin. }
  subst n. clear Hin. unfold count. split.
  - intros Hpos.
    destruct (findall (tagged tag ++ text what) content) as [|m ms] eqn:Hf;
      [cbn in Hpos; lia|].
    assert (Hm : In m (findall (tagged tag ++ text what) content))
      by (rewrite Hf; left; reflexivity).
    unfold findall in Hm. apply findall_members in Hm.
    destruct Hm as (before & s' & -> & Hm).
    apply tagged_match in Hm.
    destruct Hm as (sym & -> & Hsym & Hword).
    exists before, sym, (rest m). repeat split; assumption.
  - intros (before & sym & after & -> & Hsym & Hword).
    pose proof (@findall_finds _ (tagged tag ++ text what) _
                  (@tagged_matches tag what sym after Hsym Hword)
                  before) as Hne.
    destruct (findall (tagged tag ++ text what) _); [congruence|cbn; lia].
Qed.

End TaggedProperties.

(** ** The further properties on concrete runs *)

Lemma reads_compose_over_growth_witness :
  fst (Monitor.read_new_logs (C := Ascii.codec) Sample.grown_env
         (snd (Monitor.read_new_logs (C := Ascii.codec)
                 (Ascii.quiet_env Sample.one_line_log) (Monitor.boot None))))
  = Monitor.Ret (lit " and ETHUSDT").
Proof.
  refine (proj1 (@reads_compose_over_growth Ascii.codec
                   (Ascii.quiet_env Sample.one_line_log) Sample.grown_env
                   (Monitor.boot None) (Ascii.bytes " and ETHUSDT")
                   eq_refl eq_refl _ eq_refl)).
  apply Nat.le_0_l.
Defined.

Lemma shrunk_log_is_not_read_witness :
  fst (Monitor.read_new_logs (C := Ascii.codec) Cases.rotated_env
         Cases.after_first_read)
  = Monitor.Ret [].
Proof.
  refine (proj1 (@shrunk_log_is_not_read Ascii.codec Cases.rotated_env
                   Cases.after_first_read _)).
  vm_compute. lia.
Defined.

Lemma close_failure_loses_the_window_witness :
  fst (Monitor.read_new_logs (C := Ascii.codec)
         (Ascii.quiet_env Sample.one_line_log)
         (snd (Monitor.read_new_logs (C := Ascii.codec)
                 Cases.close_fails_env (Monitor.boot None))))
  = Monitor.Ret [].
Proof.
  exact (proj2 (proj2 (@close_failure_loses_the_window Ascii.codec
                         Cases.close_fails_env
                         (Ascii.quiet_env Sample.one_line_log)
                         (Monitor.boot None) (lit "Input/output error")
                         eq_refl eq_refl))).
Defined.

Lemma verdict_names_a_matching_pattern_witness :
  exists p,
    In p (Monitor.error_patterns)
    /\ Monitor.source p = lit "ECONNREFUSED"
    /\ Monitor.search_i (U := Ascii.tables) p (lit Sample.fatal_log) = true.
Proof.
  apply (proj1 (proj2 (@verdict_names_a_matching_pattern Ascii.tables
                         (lit Sample.fatal_log)))
           (lit "ECONNREFUSED")).
  reflexivity.
Defined.

Lemma fatal_window_stays_fatal_in_context_witness :
  fst (Monitor.check_for_errors (U := Ascii.tables) Cases.fatal_in_context)
  = true.
Proof.
  apply (@fatal_window_stays_fatal_in_context Ascii.tables
           (Monitor.line (lit "server started")) (lit Sample.fatal_log)
           (nl :: lit "server listening")).
  reflexivity.
Defined.

Lemma failure_map_is_the_table_filtered_witness :
  Sample.distribution_map
    (Monitor.analyze_logs (U := Ascii.tables) [] Sample.three_rejections)
  = More.stored (U := Ascii.tables) Monitor.distribution_filters
      Sample.three_rejections.
Proof.
  exact (@failure_map_is_the_table_filtered Ascii.tables
           Monitor.distribution_filters Sample.distribution_map
           (or_introl eq_refl) [] Sample.three_rejections).
Defined.

Lemma failure_counts_are_positive_and_fit_witness :
  0 < 3
  /\ exists pat,
       In (pat, lit "Not near POC") Monitor.distribution_filters
       /\ 3 = Monitor.count (U := Ascii.tables) pat Sample.three_rejections
       /\ 3 * List.length (Spec.trigger pat)
          <= List.length Sample.three_rejections.
Proof.
  apply (@failure_counts_are_positive_and_fit Ascii.tables
           Monitor.distribution_filters Sample.distribution_map
           (or_introl eq_refl) [] Sample.three_rejections
           (lit "Not near POC") 3).
  vm_compute. left. reflexivity.
Defined.

Lemma box_grades_partition_the_boxes_witness :
  0 < 1 /\ In (lit "A") [lit "A"; lit "B"; lit "C"].
Proof.
  apply (proj2 (proj2 (@box_grades_partition_the_boxes Ascii.tables
                         Cases.one_box))
           (lit "A") 1).
  vm_compute. left. reflexivity.
Defined.

Lemma error_samples_are_line_tails_witness :
  More.line_tail More.error_marker Cases.one_error
    (lit "[31merror[39m boom").
Proof.
  apply (proj1 (proj2 (proj2 (@error_samples_are_line_tails Ascii.tables
                                Cases.one_error)))
           (lit "[31merror[39m boom")).
  vm_compute. left. reflexivity.
Defined.

Lemma report_only_grows_witness :
  exists more,
    Monitor.report
      (snd (Monitor.loop (U := Ascii.tables) (C := Ascii.codec)
              [Ascii.quiet_env Sample.one_line_log] Sample.third_cycle))
    = Some (lit "earlier sections" ++ more).
Proof.
  apply (@report_only_grows Ascii.tables Ascii.codec
           [Ascii.quiet_env Sample.one_line_log] Sample.third_cycle
           (lit "earlier sections")).
  - repeat constructor.
  - cbn. lia.
  - reflexivity.
Defined.

Lemma section_ignores_unrendered_witness :
  Monitor.section 0
    (More.with_unrendered 7 8 9 [lit "a warning"]
       (firstn 5 (Monitor.errors
                    (Monitor.errs
                       (Monitor.analyze_logs (U := Ascii.tables) []
                          Cases.six_errors))))
       (Monitor.analyze_logs (U := Ascii.tables) [] Cases.six_errors))
  = Monitor.section 0
      (Monitor.analyze_logs (U := Ascii.tables) [] Cases.six_errors).
Proof.
  apply (@section_ignores_unrendered 0 7 8 9 [lit "a warning"]
           (firstn 5 (Monitor.errors
                        (Monitor.errs
                           (Monitor.analyze_logs (U := Ascii.tables) []
                              Cases.six_errors))))
           (Monitor.analyze_logs (U := Ascii.tables) [] Cases.six_errors)).
  vm_compute. reflexivity.
Defined.

Lemma a_running_monitor_started_nothing_witness :
  More.sleeps
    (Monitor.trace
       (snd (More.main (U := Ascii.tables) (C := Ascii.codec)
               (lit "2025-01-01 09:00:00")
               [Ascii.quiet_env Sample.one_line_log; Sample.grown_env]
               None)))
  = 2.
Proof.
  refine (proj1 (proj2 (proj2 (@a_running_monitor_started_nothing
                                 Ascii.tables Ascii.codec
                                 (lit "2025-01-01 09:00:00")
                                 [Ascii.quiet_env Sample.one_line_log;
                                  Sample.grown_env]
                                 None _)))).
  vm_compute. reflexivity.
Defined.

Lemma interrupt_spares_the_server_witness :
  fst (Monitor.cycle (U := Ascii.tables) (C := Ascii.codec)
         Cases.interrupted_env (Monitor.boot None))
  = Monitor.Ret true
  /\ Spec.spawned
       (Spec.events_of
          (Monitor.cycle (U := Ascii.tables) (C := Ascii.codec)
             Cases.interrupted_env)
          (Monitor.boot None))
     = [].
Proof.
  pose proof (@interrupt_spares_the_server Ascii.tables Ascii.codec
                Cases.interrupted_env (Monitor.boot None)
                (lit Sample.one_line_log) eq_refl eq_refl eq_refl)
    as (Hstop & Hspawn & _).
  split; [exact Hstop|exact Hspawn].
Defined.

Lemma order_events_need_a_symbol_witness :
  0 < 1 <-> More.activity_line (U := Ascii.tables) "Order placed"
              Cases.one_order.
Proof.
  apply (@order_events_need_a_symbol Ascii.tables Cases.one_order
           "Order placed"%string 1).
  vm_compute. left. reflexivity.
Defined.

Lemma catch_all_enters_stop_server_again_witness :
  Spec.calls Monitor.m_stop_server
    (Spec.events_of
       (Monitor.cycle (U := Ascii.tables) (C := Ascii.codec)
          Cases.no_pkill_env)
       (Monitor.boot None))
  = 2.
Proof.
  refine (proj2 (@catch_all_enters_stop_server_again
                   Ascii.tables Ascii.codec Cases.no_pkill_env
                   (Monitor.boot None) (lit Sample.fatal_log)
                   (Some (lit "ECONNREFUSED"))
                   (lit "No such file or directory")
                   eq_refl _ eq_refl eq_refl)).
  discriminate.
Defined.

Lemma tagged_events_need_a_symbol_witness :
  0 < 1 <-> More.tagged_line (U := Ascii.tables) "SqueezeMomentum"
              (lit "Starting analysis") Cases.one_squeeze.
Proof.
  apply (@tagged_events_need_a_symbol Ascii.tables [] Cases.one_squeeze
           "SqueezeMomentum"%string (lit "Starting analysis") 1).
  vm_compute. right. right. left. reflexivity.
Defined.
